(** * libsrtp [crypto/cipher/cipher.c]: cipher meta-functions

    A shallow embedding of the dispatch layer, the self-test engine
    ([srtp_cipher_type_test]) and the benchmark
    ([srtp_cipher_bits_per_second]) of [cipher.c], and the properties of
    the specification checked against it.

    Conventions of the embedding.
    - A pointer that the code tests against [NULL] is an [option]; a
      dereference of a null pointer, a store past the end of an array and a
      load past the end of a test-vector field are undefined behaviour and
      give the outcome [Fault].
    - [size_t] and [uint64_t] values are [Z] with the wrap-around written
      out ([u64]); an octet is a [Z] in [0, 256).
    - The concrete cipher implementations are the functions of a
      [srtp_cipher_type_t]; they act on a memory [W] of their own, which the
      code of [cipher.c] never inspects.
    - The [log] of a [world] is ghost state: every call of a dispatch
      function appends one [event] with the arguments it received and the
      status it returned. *)

From Stdlib Require Import ZArith List Bool Lia.
From Stdlib Require String.
Import ListNotations.
Local Open Scope Z_scope.

Set Implicit Arguments.

(** ** Status codes and scalar types *)

(** Modelled from the spec: [srtp_err_status_t] of the header [err.h],
    which is missing.  The constructors are the five statuses of the
    specification, under the names [cipher.c] gives them;
    [srtp_err_status_other] stands for every further non-zero code of the
    header, which a concrete cipher may return. *)
Inductive srtp_err_status_t : Type :=
| srtp_err_status_ok
| srtp_err_status_bad_param
| srtp_err_status_algo_fail
| srtp_err_status_no_such_op
| srtp_err_status_cant_check
| srtp_err_status_other (code : nat).

(** The C test [if (status)]: true for every code but [srtp_err_status_ok]. *)
Definition failed (s : srtp_err_status_t) : bool :=
  match s with
  | srtp_err_status_ok => false
  | _ => true
  end.

(** Modelled from the spec: [srtp_cipher_direction_t] of the missing header
    [cipher.h], with the two directions of the specification. *)
Inductive srtp_cipher_direction_t : Type :=
| srtp_direction_encrypt
| srtp_direction_decrypt.

Definition octets := list Z.
Definition size_t := Z.

Definition u64 (x : Z) : Z := x mod 2 ^ 64.
Definition u32 (x : Z) : Z := x mod 2 ^ 32.

Definition SELF_TEST_BUF_OCTETS : Z := 128.
Definition NUM_RAND_TESTS : nat := 128.
Definition MAX_KEY_LEN : Z := 64.

(** ** Test vectors *)

(** Modelled from the spec: [srtp_cipher_test_case_t] of the missing header
    [cipher.h], with the fields of a test vector that [cipher.c] reads.  The
    [next_test_case] link is the tail of the list the vector sits in, and
    [NULL] is the empty list. *)
Record srtp_cipher_test_case_t : Type := {
  key_length_octets : size_t;
  key : octets;
  idx : octets;
  plaintext_length_octets : size_t;
  plaintext : octets;
  ciphertext_length_octets : size_t;
  ciphertext : octets;
  aad_length_octets : size_t;
  aad : octets;
  tag_length_octets : size_t
}.

(** ** Arrays *)

(** [store dst off src]: the octets [src] written to [dst + off]; [None]
    when the write leaves the array. *)
Definition store (dst : octets) (off : Z) (src : octets) : option octets :=
  if (0 <=? off) && (off + Z.of_nat (length src) <=? Z.of_nat (length dst))
  then Some (firstn (Z.to_nat off) dst ++ src ++
             skipn (Z.to_nat off + length src) dst)
  else None.

(** [load src n]: the first [n] octets of [src]; [None] when [src] is
    shorter. *)
Definition load (src : octets) (n : size_t) : option octets :=
  if n <=? Z.of_nat (length src)
  then Some (firstn (Z.to_nat n) src)
  else None.

(** The comparison loops [for (k = 0; k < n; k++) if (a[k] != b[k])
    status = srtp_err_status_algo_fail;], with a [break] after the
    assignment when [brk] is set. *)
Fixpoint compare_octets (brk : bool) (n : nat) (a b : octets)
  : option srtp_err_status_t :=
  match n with
  | O => Some srtp_err_status_ok
  | S n' =>
      match a, b with
      | x :: a', y :: b' =>
          if x =? y then compare_octets brk n' a' b'
          else if brk then Some srtp_err_status_algo_fail
          else match compare_octets brk n' a' b' with
               | Some _ => Some srtp_err_status_algo_fail
               | None => None
               end
      | _, _ => None
      end
  end.

(** A [uint32_t] read from (written to) four octets of memory. *)
Definition u32_of_octets (big_endian : bool) (b : octets) : Z :=
  let b' := if big_endian then rev b else b in
  nth 0 b' 0 + 256 * nth 1 b' 0 + 65536 * nth 2 b' 0 + 16777216 * nth 3 b' 0.

Definition octets_of_u32 (big_endian : bool) (x : Z) : octets :=
  let le := [x mod 256; (x / 256) mod 256; (x / 65536) mod 256;
             (x / 16777216) mod 256] in
  if big_endian then rev le else le.

(** ** Cipher instances and cipher types *)

(** Modelled from the spec: [srtp_cipher_t] of the missing header
    [cipher.h], one allocated instance, with the fields [cipher.c] reads.
    [type] points to a cipher type object (a static object of the program,
    named here by its address) and [state] is the opaque [void *] the
    concrete cipher owns.  The fields are written by the allocator only. *)
Record srtp_cipher_t : Type := {
  type : option Z;
  state : option Z;
  key_len : size_t;
  algorithm : Z
}.

(** The pointers [a] and [b] are the same instance: an instance is
    identified with its fields. *)
Definition same_pointer (a b : option Z) : bool :=
  match a, b with
  | Some x, Some y => x =? y
  | None, None => true
  | _, _ => false
  end.

(** The value of a state pointer as a concrete cipher receives it: the
    address of the state, and 0 for [NULL]. *)
Definition address (p : option Z) : Z :=
  match p with
  | Some a => a
  | None => 0
  end.

Definition same_instance (a b : option srtp_cipher_t) : bool :=
  match a, b with
  | Some x, Some y =>
      same_pointer (type x) (type y) && same_pointer (state x) (state y)
      && (key_len x =? key_len y) && (algorithm x =? algorithm y)
  | None, None => true
  | _, _ => false
  end.

Section Cipher.

(** Memory of the concrete cipher implementations. *)
Variable W : Type.

(** Modelled from the spec: [srtp_cipher_type_t] of the missing header
    [cipher.h], the table of function pointers of one cipher family, with
    the operations of the contract a concrete cipher implements.  [alloc],
    [set_aad] and [get_tag] are the pointers the code tests against [NULL].
    [encrypt], [decrypt] and [get_tag] return the octets they stored through
    their destination pointer (from its first octet on) and the value they
    left in the length passed by reference. *)
Record srtp_cipher_type_t : Type := {
  alloc : option (size_t -> size_t -> W ->
                  srtp_err_status_t * option srtp_cipher_t * W);
  dealloc : srtp_cipher_t -> W -> srtp_err_status_t * W;
  init : Z -> octets -> W -> srtp_err_status_t * W;
  set_aad : option (Z -> octets -> size_t -> W -> srtp_err_status_t * W);
  encrypt : Z -> octets -> size_t -> size_t -> W ->
            srtp_err_status_t * octets * size_t * W;
  decrypt : Z -> octets -> size_t -> size_t -> W ->
            srtp_err_status_t * octets * size_t * W;
  set_iv : Z -> octets -> srtp_cipher_direction_t -> W ->
           srtp_err_status_t * W;
  get_tag : option (Z -> size_t -> W ->
                    srtp_err_status_t * octets * size_t * W);
  description : String.string;
  test_data : list srtp_cipher_test_case_t
}.

(** What [cipher.c] takes from the rest of the program and from the C
    library: the cipher type objects, by address; the identities of the two
    AES-GCM ciphers, [CLOCKS_PER_SEC] and [SRTP_MAX_TAG_LEN], constants of
    headers that are missing; the values [rand()]
    and [clock()] return at their successive calls; the byte order of the
    host; the allocator of [alloc.h] ([srtp_crypto_alloc] returns the fresh
    array, or [None] for [NULL]). *)
Record platform : Type := {
  type_at : Z -> srtp_cipher_type_t;
  SRTP_AES_GCM_128 : Z;
  SRTP_AES_GCM_256 : Z;
  rand_src : nat -> Z;
  clock_src : nat -> Z;
  big_endian : bool;
  CLOCKS_PER_SEC : Z;
  SRTP_MAX_TAG_LEN : Z;
  srtp_crypto_alloc : size_t -> W -> option octets * W;
  srtp_crypto_free : W -> W
}.

Variable P : platform.

(** ** Machine state *)

(** One call of a dispatch function: its arguments and the status it
    returned; for the allocator also the instance it delivered. *)
Inductive event : Type :=
| EvAlloc (key_len tlen : size_t) (c : option srtp_cipher_t)
          (st : srtp_err_status_t)
| EvDealloc (c : option srtp_cipher_t) (st : srtp_err_status_t)
| EvInit (k : octets) (st : srtp_err_status_t)
| EvSetIv (iv : octets) (dir : srtp_cipher_direction_t)
          (st : srtp_err_status_t)
| EvSetAad (a : octets) (aad_len : size_t) (st : srtp_err_status_t)
| EvEncrypt (src_len : size_t) (st : srtp_err_status_t)
| EvDecrypt (src_len : size_t) (st : srtp_err_status_t)
| EvGetTag (st : srtp_err_status_t)
| EvOutput (n : size_t) (st : srtp_err_status_t).

(** [mem] is the memory of the concrete ciphers, [rand_calls] and
    [clock_calls] count the calls of [rand()] and [clock()] made so far,
    [log] is the ghost trace, and the remaining fields are the automatic
    variables of [srtp_cipher_type_test] that live in memory: the two
    scratch arrays, the [key] and [iv] arrays of the random trials, and
    [tag_len], which is passed by reference before it is ever assigned. *)
Record world : Type := {
  mem : W;
  rand_calls : nat;
  clock_calls : nat;
  log : list event;
  buffer : octets;
  buffer2 : octets;
  trial_key : octets;
  trial_iv : octets;
  tag_len : size_t
}.

Definition with_mem (m : W) (w : world) : world :=
  {| mem := m; rand_calls := rand_calls w; clock_calls := clock_calls w;
     log := log w; buffer := buffer w; buffer2 := buffer2 w;
     trial_key := trial_key w; trial_iv := trial_iv w;
     tag_len := tag_len w |}.

Definition emit (e : event) (w : world) : world :=
  {| mem := mem w; rand_calls := rand_calls w; clock_calls := clock_calls w;
     log := log w ++ [e]; buffer := buffer w; buffer2 := buffer2 w;
     trial_key := trial_key w; trial_iv := trial_iv w;
     tag_len := tag_len w |}.

Definition set_buffer (b : octets) (w : world) : world :=
  {| mem := mem w; rand_calls := rand_calls w; clock_calls := clock_calls w;
     log := log w; buffer := b; buffer2 := buffer2 w;
     trial_key := trial_key w; trial_iv := trial_iv w;
     tag_len := tag_len w |}.

Definition set_buffer2 (b : octets) (w : world) : world :=
  {| mem := mem w; rand_calls := rand_calls w; clock_calls := clock_calls w;
     log := log w; buffer := buffer w; buffer2 := b;
     trial_key := trial_key w; trial_iv := trial_iv w;
     tag_len := tag_len w |}.

Definition set_trial_key (b : octets) (w : world) : world :=
  {| mem := mem w; rand_calls := rand_calls w; clock_calls := clock_calls w;
     log := log w; buffer := buffer w; buffer2 := buffer2 w;
     trial_key := b; trial_iv := trial_iv w;
     tag_len := tag_len w |}.

Definition set_trial_iv (b : octets) (w : world) : world :=
  {| mem := mem w; rand_calls := rand_calls w; clock_calls := clock_calls w;
     log := log w; buffer := buffer w; buffer2 := buffer2 w;
     trial_key := trial_key w; trial_iv := b;
     tag_len := tag_len w |}.

Definition set_tag_len (n : size_t) (w : world) : world :=
  {| mem := mem w; rand_calls := rand_calls w; clock_calls := clock_calls w;
     log := log w; buffer := buffer w; buffer2 := buffer2 w;
     trial_key := trial_key w; trial_iv := trial_iv w;
     tag_len := n |}.

(** ** The dispatch layer *)

(** The guard [!c || !c->type || !c->state] of the dispatch functions:
    [None] when it fires, else the type object and the state pointer. *)
Definition checked (c : option srtp_cipher_t)
  : option (srtp_cipher_type_t * Z) :=
  match c with
  | None => None
  | Some ci =>
      match type ci, state ci with
      | Some t, Some s => Some (type_at P t, s)
      | _, _ => None
      end
  end.

Definition srtp_cipher_type_alloc (ct : option Z) (key_len tlen : size_t)
    (w : world) : srtp_err_status_t * option srtp_cipher_t * world :=
  match ct with
  | None => (srtp_err_status_bad_param, None,
             emit (EvAlloc key_len tlen None srtp_err_status_bad_param) w)
  | Some t =>
      match alloc (type_at P t) with
      | None => (srtp_err_status_bad_param, None,
                 emit (EvAlloc key_len tlen None srtp_err_status_bad_param)
                      w)
      | Some f =>
          let '(st, c, m) := f key_len tlen (mem w) in
          (st, c, emit (EvAlloc key_len tlen c st) (with_mem m w))
      end
  end.

Definition srtp_cipher_dealloc (c : option srtp_cipher_t) (w : world)
    : srtp_err_status_t * world :=
  match c with
  | None => (srtp_err_status_bad_param,
             emit (EvDealloc c srtp_err_status_bad_param) w)
  | Some ci =>
      match type ci with
      | None => (srtp_err_status_bad_param,
                 emit (EvDealloc c srtp_err_status_bad_param) w)
      | Some t =>
          let '(st, m) := dealloc (type_at P t) ci (mem w) in
          (st, emit (EvDealloc c st) (with_mem m w))
      end
  end.

Definition srtp_cipher_init (c : option srtp_cipher_t) (k : octets)
    (w : world) : srtp_err_status_t * world :=
  match checked c with
  | None => (srtp_err_status_bad_param,
             emit (EvInit k srtp_err_status_bad_param) w)
  | Some (t, s) =>
      let '(st, m) := init t s k (mem w) in
      (st, emit (EvInit k st) (with_mem m w))
  end.

Definition srtp_cipher_set_iv (c : option srtp_cipher_t) (iv : octets)
    (direction : srtp_cipher_direction_t) (w : world)
    : srtp_err_status_t * world :=
  match checked c with
  | None => (srtp_err_status_bad_param,
             emit (EvSetIv iv direction srtp_err_status_bad_param) w)
  | Some (t, s) =>
      let '(st, m) := set_iv t s iv direction (mem w) in
      (st, emit (EvSetIv iv direction st) (with_mem m w))
  end.

(** [srtp_cipher_output] zeroes [*num_octets_to_output] octets of the
    buffer and has the cipher encrypt them in place.  It dereferences [c]
    and [c->type] without a test: a null [c] or [c->type] is undefined
    behaviour ([None]).  It passes [c->state] on without a test as well: a
    null state is handed to the [encrypt] of the cipher type as it is, and
    the status of that call is returned. *)
Definition srtp_cipher_output (c : option srtp_cipher_t)
    (num_octets_to_output : size_t) (w : world)
    : option (srtp_err_status_t * octets * size_t * world) :=
  match c with
  | None => None
  | Some ci =>
      match type ci with
      | Some t =>
          let zeroed := repeat 0 (Z.to_nat num_octets_to_output) in
          let '(st, out, n, m) :=
            encrypt (type_at P t) (address (state ci)) zeroed
                    num_octets_to_output num_octets_to_output (mem w) in
          Some (st, out, n,
                emit (EvOutput num_octets_to_output st) (with_mem m w))
      | None => None
      end
  end.

Definition srtp_cipher_encrypt (c : option srtp_cipher_t) (src : octets)
    (src_len : size_t) (dst_len : size_t) (w : world)
    : srtp_err_status_t * octets * size_t * world :=
  match checked c with
  | None => (srtp_err_status_bad_param, [], dst_len,
             emit (EvEncrypt src_len srtp_err_status_bad_param) w)
  | Some (t, s) =>
      let '(st, out, n, m) := encrypt t s src src_len dst_len (mem w) in
      (st, out, n, emit (EvEncrypt src_len st) (with_mem m w))
  end.

Definition srtp_cipher_decrypt (c : option srtp_cipher_t) (src : octets)
    (src_len : size_t) (dst_len : size_t) (w : world)
    : srtp_err_status_t * octets * size_t * world :=
  match checked c with
  | None => (srtp_err_status_bad_param, [], dst_len,
             emit (EvDecrypt src_len srtp_err_status_bad_param) w)
  | Some (t, s) =>
      let '(st, out, n, m) := decrypt t s src src_len dst_len (mem w) in
      (st, out, n, emit (EvDecrypt src_len st) (with_mem m w))
  end.

Definition srtp_cipher_get_tag (c : option srtp_cipher_t)
    (tlen : size_t) (w : world)
    : srtp_err_status_t * octets * size_t * world :=
  match checked c with
  | None => (srtp_err_status_bad_param, [], tlen,
             emit (EvGetTag srtp_err_status_bad_param) w)
  | Some (t, s) =>
      match get_tag t with
      | None => (srtp_err_status_no_such_op, [], tlen,
                 emit (EvGetTag srtp_err_status_no_such_op) w)
      | Some f =>
          let '(st, out, n, m) := f s tlen (mem w) in
          (st, out, n, emit (EvGetTag st) (with_mem m w))
      end
  end.

Definition srtp_cipher_set_aad (c : option srtp_cipher_t) (a : octets)
    (aad_len : size_t) (w : world) : srtp_err_status_t * world :=
  match checked c with
  | None => (srtp_err_status_bad_param,
             emit (EvSetAad a aad_len srtp_err_status_bad_param) w)
  | Some (t, s) =>
      match set_aad t with
      | None => (srtp_err_status_no_such_op,
                 emit (EvSetAad a aad_len srtp_err_status_no_such_op) w)
      | Some f =>
          let '(st, m) := f s a aad_len (mem w) in
          (st, emit (EvSetAad a aad_len st) (with_mem m w))
      end
  end.

(** [srtp_cipher_get_key_length] reads [c->key_len] without a test. *)
Definition srtp_cipher_get_key_length (c : option srtp_cipher_t)
    : option size_t :=
  match c with
  | None => None
  | Some ci => Some (key_len ci)
  end.

(** ** Control flow of a C function body *)

(** Outcome of a statement: control reaches the next statement with a
    value, the enclosing function returns, or the behaviour is undefined. *)
Inductive res (R A : Type) : Type :=
| Ok (a : A) (w : world)
| Return (r : R) (w : world)
| Fault.

Arguments Ok {R A} a w.
Arguments Return {R A} r w.
Arguments Fault {R A}.

Definition M (R A : Type) : Type := world -> res R A.

Definition ret {R A} (a : A) : M R A := fun w => Ok a w.

Definition bind {R A B} (m : M R A) (f : A -> M R B) : M R B :=
  fun w =>
    match m w with
    | Ok a w' => f a w'
    | Return r w' => Return r w'
    | Fault => Fault
    end.

Definition return_ {R A} (r : R) : M R A := fun w => Return r w.
Definition fault {R A} : M R A := fun _ => Fault.

(** A call of a function that always returns. *)
Definition call {R A} (f : world -> A * world) : M R A :=
  fun w => let (a, w') := f w in Ok a w'.

Definition gets {R A} (f : world -> A) : M R A := fun w => Ok (f w) w.
Definition modify {R} (f : world -> world) : M R unit :=
  fun w => Ok tt (f w).

Definition defined {R A} (o : option A) : M R A :=
  match o with
  | Some a => ret a
  | None => fault
  end.

(** What a caller sees of a function whose body is [m]. *)
Inductive outcome (R : Type) : Type :=
| Returned (r : R) (w : world)
| Undefined.

Arguments Returned {R} r w.
Arguments Undefined {R}.

Definition fn {R} (m : M R R) : world -> outcome R :=
  fun w =>
    match m w with
    | Ok r w' => Returned r w'
    | Return r w' => Returned r w'
    | Fault => Undefined
    end.

Declare Scope cstmt_scope.
Delimit Scope cstmt_scope with cstmt.
Notation "x <- m ;; k" := (bind m (fun x => k))
  (at level 61, m at next level, right associativity) : cstmt_scope.
Notation "' p <- m ;; k" := (bind m (fun x => let 'p := x in k))
  (at level 61, p pattern, m at next level, right associativity)
  : cstmt_scope.
Notation "m ;; k" := (bind m (fun _ => k))
  (at level 61, right associativity) : cstmt_scope.
Local Open Scope cstmt_scope.

(** ** The C library *)

Definition rand (w : world) : Z * world :=
  (rand_src P (rand_calls w),
   {| mem := mem w; rand_calls := S (rand_calls w);
      clock_calls := clock_calls w; log := log w; buffer := buffer w;
      buffer2 := buffer2 w; trial_key := trial_key w;
      trial_iv := trial_iv w; tag_len := tag_len w |}).

Definition clock (w : world) : Z * world :=
  (clock_src P (clock_calls w),
   {| mem := mem w; rand_calls := rand_calls w;
      clock_calls := S (clock_calls w); log := log w; buffer := buffer w;
      buffer2 := buffer2 w; trial_key := trial_key w;
      trial_iv := trial_iv w; tag_len := tag_len w |}).

(** ** Test-only randomness *)

(** The loop of [srtp_cipher_rand_for_tests]: one call of [rand()] per
    octet, of which the low eight bits are kept. *)
Fixpoint rand_octets (n : nat) (w : world) : octets * world :=
  match n with
  | O => ([], w)
  | S n' =>
      let (val, w1) := rand w in
      let (rest, w2) := rand_octets n' w1 in
      (Z.land val 255 :: rest, w2)
  end.

(** [srtp_cipher_rand_for_tests(dest, len)]: the octets it stores at
    [dest]. *)
Definition srtp_cipher_rand_for_tests (len : size_t) (w : world)
    : octets * world :=
  rand_octets (Z.to_nat len) w.

Definition srtp_cipher_rand_u32_for_tests (w : world) : Z * world :=
  let (r, w') := srtp_cipher_rand_for_tests 4 w in
  (u32_of_octets (big_endian P) r, w').

(** ** The self-test engine *)

(** The test [c->algorithm == SRTP_AES_GCM_128 ||
    c->algorithm == SRTP_AES_GCM_256]. *)
Definition is_gcm (ci : srtp_cipher_t) : bool :=
  (algorithm ci =? SRTP_AES_GCM_128 P) || (algorithm ci =? SRTP_AES_GCM_256 P).

(** [srtp_cipher_dealloc(c); return s;] *)
Definition dealloc_return {A} (c : option srtp_cipher_t)
    (s : srtp_err_status_t) : M srtp_err_status_t A :=
  _ <- call (srtp_cipher_dealloc c) ;;
  return_ s.

(** [if (status) { srtp_cipher_dealloc(c); return status; }] *)
Definition check (c : option srtp_cipher_t) (status : srtp_err_status_t)
    : M srtp_err_status_t unit :=
  if failed status then dealloc_return c status else ret tt.

Definition store_buffer {R} (off : Z) (src : octets) : M R unit :=
  b <- gets buffer ;;
  b' <- defined (store b off src) ;;
  modify (set_buffer b').

(** The block guarded by the GCM test before a transform: set the AAD. *)
Definition set_aad_if_gcm (c : option srtp_cipher_t)
    (test_case : srtp_cipher_test_case_t) : M srtp_err_status_t unit :=
  ci <- defined c ;;
  if is_gcm ci then
    status <- call (srtp_cipher_set_aad c (aad test_case)
                                        (aad_length_octets test_case)) ;;
    check c status
  else ret tt.

(** The block guarded by the GCM test after encryption: store the tag
    behind the ciphertext and add its length; the result is the new
    length. *)
Definition get_tag_if_gcm (c : option srtp_cipher_t) (len : size_t)
    : M srtp_err_status_t size_t :=
  ci <- defined c ;;
  if is_gcm ci then
    tl <- gets tag_len ;;
    '(status, out, tl') <- call (srtp_cipher_get_tag c tl) ;;
    store_buffer len out ;;
    modify (set_tag_len tl') ;;
    check c status ;;
    ret (u64 (len + tl'))
  else ret len.

(** Lines 248-350 of the known-answer loop: "test the encrypt function". *)
Definition test_encrypt (c : option srtp_cipher_t)
    (test_case : srtp_cipher_test_case_t) : M srtp_err_status_t unit :=
  (* initialize cipher *)
  status <- call (srtp_cipher_init c (key test_case)) ;;
  check c status ;;
  (* copy plaintext into test buffer *)
  if ciphertext_length_octets test_case >? SELF_TEST_BUF_OCTETS
  then dealloc_return c srtp_err_status_bad_param else
  p <- defined (load (plaintext test_case)
                     (plaintext_length_octets test_case)) ;;
  store_buffer 0 p ;;
  (* set the initialization vector *)
  status <- call (srtp_cipher_set_iv c (idx test_case)
                                     srtp_direction_encrypt) ;;
  check c status ;;
  set_aad_if_gcm c test_case ;;
  (* encrypt *)
  b <- gets buffer ;;
  '(status, out, len) <- call (srtp_cipher_encrypt c b
                                 (plaintext_length_octets test_case)
                                 SELF_TEST_BUF_OCTETS) ;;
  store_buffer 0 out ;;
  check c status ;;
  len <- get_tag_if_gcm c len ;;
  (* compare the resulting ciphertext with that in the test case *)
  if negb (len =? ciphertext_length_octets test_case)
  then dealloc_return c srtp_err_status_algo_fail else
  b <- gets buffer ;;
  status <- defined (compare_octets true
                       (Z.to_nat (ciphertext_length_octets test_case))
                       b (ciphertext test_case)) ;;
  if failed status
  then dealloc_return c srtp_err_status_algo_fail else
  ret tt.

(** Lines 352-437 of the known-answer loop: "test the decrypt function". *)
Definition test_decrypt (c : option srtp_cipher_t)
    (test_case : srtp_cipher_test_case_t) : M srtp_err_status_t unit :=
  (* re-initialize cipher for decryption *)
  status <- call (srtp_cipher_init c (key test_case)) ;;
  check c status ;;
  (* copy ciphertext into test buffer *)
  if ciphertext_length_octets test_case >? SELF_TEST_BUF_OCTETS
  then dealloc_return c srtp_err_status_bad_param else
  p <- defined (load (ciphertext test_case)
                     (ciphertext_length_octets test_case)) ;;
  store_buffer 0 p ;;
  (* set the initialization vector *)
  status <- call (srtp_cipher_set_iv c (idx test_case)
                                     srtp_direction_decrypt) ;;
  check c status ;;
  set_aad_if_gcm c test_case ;;
  (* decrypt *)
  b <- gets buffer ;;
  '(status, out, len) <- call (srtp_cipher_decrypt c b
                                 (ciphertext_length_octets test_case)
                                 SELF_TEST_BUF_OCTETS) ;;
  store_buffer 0 out ;;
  check c status ;;
  (* compare the resulting plaintext with that in the test case *)
  if negb (len =? plaintext_length_octets test_case)
  then dealloc_return c srtp_err_status_algo_fail else
  b <- gets buffer ;;
  status <- defined (compare_octets false
                       (Z.to_nat (plaintext_length_octets test_case))
                       b (plaintext test_case)) ;;
  if failed status
  then dealloc_return c srtp_err_status_algo_fail else
  ret tt.

(** One iteration of the known-answer loop, lines 241-450. *)
Definition known_answer_case (ct : option Z)
    (test_case : srtp_cipher_test_case_t) : M srtp_err_status_t unit :=
  (* allocate cipher *)
  '(status, c) <- call (srtp_cipher_type_alloc ct
                          (key_length_octets test_case)
                          (tag_length_octets test_case)) ;;
  if failed status then return_ status else
  test_encrypt c test_case ;;
  test_decrypt c test_case ;;
  (* deallocate the cipher *)
  status <- call (srtp_cipher_dealloc c) ;;
  if failed status then return_ status else
  ret tt.

(** The loop [while (test_case != NULL)]. *)
Fixpoint known_answer_tests (ct : option Z)
    (test_data : list srtp_cipher_test_case_t) : M srtp_err_status_t unit :=
  match test_data with
  | [] => ret tt
  | test_case :: next_test_case =>
      known_answer_case ct test_case ;;
      known_answer_tests ct next_test_case
  end.

(** One iteration of the loop of random invertibility tests, lines
    463-607; [c] is the instance allocated for the loop and [test_case] the
    first test vector. *)
Definition random_trial (c : option srtp_cipher_t)
    (test_case : srtp_cipher_test_case_t) : M srtp_err_status_t unit :=
  (* choose a length at random (leaving room for IV and padding) *)
  r <- call srtp_cipher_rand_u32_for_tests ;;
  let plaintext_len := r mod (SELF_TEST_BUF_OCTETS - 64) in
  p <- call (srtp_cipher_rand_for_tests plaintext_len) ;;
  store_buffer 0 p ;;
  (* copy plaintext into second buffer *)
  b <- gets buffer ;;
  p <- defined (load b plaintext_len) ;;
  b2 <- gets buffer2 ;;
  b2' <- defined (store b2 0 p) ;;
  modify (set_buffer2 b2') ;;
  (* choose a key at random *)
  if key_length_octets test_case >? MAX_KEY_LEN
  then dealloc_return c srtp_err_status_cant_check else
  k <- call (srtp_cipher_rand_for_tests (key_length_octets test_case)) ;;
  k0 <- gets trial_key ;;
  k' <- defined (store k0 0 k) ;;
  modify (set_trial_key k') ;;
  (* chose a random initialization vector *)
  v <- call (srtp_cipher_rand_for_tests MAX_KEY_LEN) ;;
  v0 <- gets trial_iv ;;
  v' <- defined (store v0 0 v) ;;
  modify (set_trial_iv v') ;;
  (* initialize cipher *)
  status <- call (srtp_cipher_init c k') ;;
  check c status ;;
  (* set initialization vector *)
  status <- call (srtp_cipher_set_iv c (idx test_case)
                                     srtp_direction_encrypt) ;;
  check c status ;;
  set_aad_if_gcm c test_case ;;
  (* encrypt buffer with cipher *)
  b <- gets buffer ;;
  '(status, out, encrypted_len) <-
     call (srtp_cipher_encrypt c b plaintext_len SELF_TEST_BUF_OCTETS) ;;
  store_buffer 0 out ;;
  check c status ;;
  encrypted_len <- get_tag_if_gcm c encrypted_len ;;
  (* re-initialize cipher for decryption, re-set the iv, then decrypt the
     ciphertext *)
  status <- call (srtp_cipher_init c k') ;;
  check c status ;;
  status <- call (srtp_cipher_set_iv c (idx test_case)
                                     srtp_direction_decrypt) ;;
  check c status ;;
  set_aad_if_gcm c test_case ;;
  b <- gets buffer ;;
  '(status, out, decrypted_len) <-
     call (srtp_cipher_decrypt c b encrypted_len SELF_TEST_BUF_OCTETS) ;;
  store_buffer 0 out ;;
  check c status ;;
  (* compare the resulting plaintext with the original one *)
  if negb (decrypted_len =? plaintext_len)
  then dealloc_return c srtp_err_status_algo_fail else
  b <- gets buffer ;;
  b2 <- gets buffer2 ;;
  status <- defined (compare_octets false (Z.to_nat plaintext_len) b b2) ;;
  if failed status
  then dealloc_return c srtp_err_status_algo_fail else
  ret tt.

(** The loop [for (j = 0; j < NUM_RAND_TESTS; j++)], [n] iterations
    left. *)
Fixpoint random_trials (n : nat) (c : option srtp_cipher_t)
    (test_case : srtp_cipher_test_case_t) : M srtp_err_status_t unit :=
  match n with
  | O => ret tt
  | S n' => random_trial c test_case ;; random_trials n' c test_case
  end.

(** Lines 453-614: the random invertibility tests, with the allocation
    before the loop and the deallocation after it. *)
Definition random_tests (ct : option Z)
    (test_case : srtp_cipher_test_case_t)
    : M srtp_err_status_t srtp_err_status_t :=
  (* allocate cipher, using paramaters from the first test case *)
  '(status, c) <- call (srtp_cipher_type_alloc ct
                          (key_length_octets test_case)
                          (tag_length_octets test_case)) ;;
  if failed status then return_ status else
  random_trials NUM_RAND_TESTS c test_case ;;
  status <- call (srtp_cipher_dealloc c) ;;
  if failed status then return_ status else
  return_ srtp_err_status_ok.

Definition srtp_cipher_type_test_body (ct : option Z)
    (test_data : list srtp_cipher_test_case_t)
    : M srtp_err_status_t srtp_err_status_t :=
  match test_data with
  | [] => return_ srtp_err_status_cant_check
  | first_case :: _ =>
      known_answer_tests ct test_data ;;
      random_tests ct first_case
  end.

Definition srtp_cipher_type_test (ct : option Z)
    (test_data : list srtp_cipher_test_case_t)
    : world -> outcome srtp_err_status_t :=
  fn (srtp_cipher_type_test_body ct test_data).

(** [srtp_cipher_type_self_test(ct)] reads [ct->test_data]. *)
Definition srtp_cipher_type_self_test (ct : option Z)
    : world -> outcome srtp_err_status_t :=
  match ct with
  | None => fun _ => Undefined
  | Some t => srtp_cipher_type_test ct (test_data (type_at P t))
  end.

(** ** The benchmark *)

(** The [v128_t] nonce of trial [i]: zero but for [v32[3]], which holds
    [(uint32_t)i]. *)
Definition nonce (i : Z) : octets :=
  repeat 0 12 ++ octets_of_u32 (big_endian P) (u32 i).

(** [srtp_crypto_free(enc_buf); return 0;] *)
Definition free_return_0 {A} : M Z A :=
  modify (fun w => with_mem (srtp_crypto_free P (mem w)) w) ;;
  return_ 0.

(** The variables the loop of the benchmark assigns. *)
Record bench_vars : Type := {
  enc_buf : octets;
  len : size_t;
  btag_len : size_t
}.

(** The body of the loop of [srtp_cipher_bits_per_second] for trial [i]. *)
Definition bench_trial (c : option srtp_cipher_t) (i : Z) (v : bench_vars)
    : M Z bench_vars :=
  (* Set IV *)
  status <- call (srtp_cipher_set_iv c (nonce i) srtp_direction_encrypt) ;;
  if failed status then free_return_0 else
  (* Set (empty) AAD if supported by the cipher *)
  ci <- defined c ;;
  t <- defined (type ci) ;;
  (match set_aad (type_at P t) with
   | Some _ =>
       status <- call (srtp_cipher_set_aad c [0; 0; 0; 0] 4) ;;
       if failed status then free_return_0 else ret tt
   | None => ret tt
   end) ;;
  (* Encrypt the buffer *)
  '(status, out, len') <-
     call (srtp_cipher_encrypt c (enc_buf v) (len v) (len v)) ;;
  buf <- defined (store (enc_buf v) 0 out) ;;
  if failed status then free_return_0 else
  (* Get tag if supported by the cipher *)
  match get_tag (type_at P t) with
  | Some _ =>
      '(status, out, tl) <- call (srtp_cipher_get_tag c (btag_len v)) ;;
      buf' <- defined (store buf len' out) ;;
      if failed status then free_return_0 else
      ret {| enc_buf := buf'; len := len'; btag_len := tl |}
  | None => ret {| enc_buf := buf; len := len'; btag_len := btag_len v |}
  end.

(** The loop [for (i = 0; i < num_trials; i++, nonce.v32[3] = (uint32_t)i)]
    from trial [i] on, [n] iterations left. *)
Fixpoint bench_trials (n : nat) (c : option srtp_cipher_t) (i : Z)
    (v : bench_vars) : M Z bench_vars :=
  match n with
  | O => ret v
  | S n' =>
      v' <- bench_trial c i v ;;
      bench_trials n' c (i + 1) v'
  end.

Definition srtp_cipher_bits_per_second_body (c : option srtp_cipher_t)
    (octets_in_buffer num_trials : size_t) : M Z Z :=
  e <- call (fun w =>
               let (e, m) :=
                 srtp_crypto_alloc P
                   (u64 (octets_in_buffer + SRTP_MAX_TAG_LEN P)) (mem w) in
               (e, with_mem m w)) ;;
  match e with
  | None => return_ 0 (* indicate bad parameters by returning null *)
  | Some buf =>
      (* time repeated trials *)
      t0 <- call clock ;;
      _ <- bench_trials (Z.to_nat num_trials) c 0
             {| enc_buf := buf; len := octets_in_buffer;
                btag_len := SRTP_MAX_TAG_LEN P |} ;;
      t1 <- call clock ;;
      let timer := t1 - t0 in
      modify (fun w => with_mem (srtp_crypto_free P (mem w)) w) ;;
      if timer =? 0 then return_ 0 (* Too fast! *) else
      return_ (u64 (u64 (u64 (u64 (CLOCKS_PER_SEC P) * num_trials) * 8)
                      * octets_in_buffer)
               / u64 timer)
  end.

Definition srtp_cipher_bits_per_second (c : option srtp_cipher_t)
    (octets_in_buffer num_trials : size_t) : world -> outcome Z :=
  fn (srtp_cipher_bits_per_second_body c octets_in_buffer num_trials).

End Cipher.

Arguments Ok {W R A} a w.
Arguments Return {W R A} r w.
Arguments Fault {W R A}.
Arguments Returned {W R} r w.
Arguments Undefined {W R}.

(** ** Concrete ciphers for the examples *)

Module Toy.

(** A toy stream cipher over a one-octet state: [init] loads the sum of
    the key octets, [set_iv] adds the sum of the IV octets, and the
    transform XORs every octet with the state.  With [aead] set it also
    has [set_aad] and [get_tag]; the tag is two copies of the state, and
    decryption drops the two trailing octets. *)
Definition sum_octets (l : octets) : Z := fold_right Z.add 0 l mod 256.

Definition xor_with (m : Z) (src : octets) (n : size_t) : octets :=
  map (Z.lxor m) (firstn (Z.to_nat n) src).

Definition cipher (self alg : Z) (aead : bool) (iv_status : srtp_err_status_t)
  : srtp_cipher_type_t Z :=
  {| alloc := Some (fun key_len tlen m =>
                      (srtp_err_status_ok,
                       Some {| type := Some self; state := Some 1;
                               key_len := key_len; algorithm := alg |}, m));
     dealloc := fun _ m => (srtp_err_status_ok, m);
     init := fun _ k _ => (srtp_err_status_ok, sum_octets k);
     set_aad := if aead
                then Some (fun _ _ _ m => (srtp_err_status_ok, m))
                else None;
     encrypt := fun _ src n _ m => (srtp_err_status_ok, xor_with m src n, n, m);
     decrypt := fun _ src n _ m =>
                  let n' := if aead then n - 2 else n in
                  (srtp_err_status_ok, xor_with m src n', n', m);
     set_iv := fun _ iv _ m => (iv_status, (m + sum_octets iv) mod 256);
     get_tag := if aead
                then Some (fun _ _ m => (srtp_err_status_ok, [m; m], 2, m))
                else None;
     description := String.EmptyString;
     test_data := [] |}.

Definition GCM_128 : Z := 6.
Definition GCM_256 : Z := 7.

(** The type objects: a plain stream cipher at address 1, an AES-GCM-128
    look-alike at 2, a cipher with the optional operations but another
    identity at 3, a stream cipher whose [set_iv] fails at 4. *)
Definition types (a : Z) : srtp_cipher_type_t Z :=
  if a =? 2 then cipher 2 GCM_128 true srtp_err_status_ok
  else if a =? 3 then cipher 3 0 true srtp_err_status_ok
  else if a =? 4 then cipher 4 0 false (srtp_err_status_other 1)
  else cipher 1 0 false srtp_err_status_ok.

Definition world0 : world Z :=
  {| mem := 0; rand_calls := 0; clock_calls := 0; log := [];
     buffer := repeat 0 128; buffer2 := repeat 0 128;
     trial_key := repeat 0 64; trial_iv := repeat 0 64; tag_len := 0 |}.

Definition vector (pt ct : octets) : srtp_cipher_test_case_t :=
  {| key_length_octets := 2; key := [1; 2]; idx := [4; 5; 6];
     plaintext_length_octets := Z.of_nat (length pt); plaintext := pt;
     ciphertext_length_octets := Z.of_nat (length ct); ciphertext := ct;
     aad_length_octets := 1; aad := [9];
     tag_length_octets := 2 |}.

Definition platform : platform Z :=
  {| type_at := types;
     SRTP_AES_GCM_128 := GCM_128;
     SRTP_AES_GCM_256 := GCM_256;
     rand_src := fun n => Z.of_nat n * 37 + 11;
     clock_src := fun n => Z.of_nat n * 5;
     big_endian := false;
     CLOCKS_PER_SEC := 1000000;
     SRTP_MAX_TAG_LEN := 16;
     srtp_crypto_alloc := fun n m => (Some (repeat 0 (Z.to_nat n)), m);
     srtp_crypto_free := fun m => m |}.

(** An instance of the cipher type at address [a], as its allocator
    returns it for a two-octet key. *)
Definition instance (a : Z) : option srtp_cipher_t :=
  Some {| type := Some a; state := Some 1; key_len := 2;
          algorithm := if a =? 2 then GCM_128 else 0 |}.

(** A vector the stream cipher passes, one whose ciphertext is longer than
    the scratch buffer, and one whose key is longer than [MAX_KEY_LEN]. *)
Definition passing : srtp_cipher_test_case_t := vector [1; 2; 3] [19; 16; 17].

(** A vector the cipher at address 2 passes: the ciphertext and the
    two-octet tag. *)
Definition tagged : srtp_cipher_test_case_t :=
  vector [1; 2; 3] [19; 16; 17; 18; 18].

(** A vector with a wrong last octet in its ciphertext. *)
Definition mismatch : srtp_cipher_test_case_t :=
  vector [1; 2; 3] [19; 16; 18].

Definition oversized : srtp_cipher_test_case_t :=
  vector [1; 2; 3] (repeat 0 129).

Definition long_key : srtp_cipher_test_case_t :=
  {| key_length_octets := 65; key := repeat 1 65; idx := [4; 5; 6];
     plaintext_length_octets := 0; plaintext := [];
     ciphertext_length_octets := 0; ciphertext := [];
     aad_length_octets := 0; aad := [];
     tag_length_octets := 0 |}.

(** The state a statement, or a function, ends in. *)
Definition final {R A} (r : res Z R A) : world Z :=
  match r with
  | Ok _ w => w
  | Return _ w => w
  | Fault => world0
  end.

Definition returned {R} (o : outcome Z R) : world Z :=
  match o with
  | Returned _ w => w
  | Undefined => world0
  end.

End Toy.

(** * Traces *)

(** The life of the instances in a trace.  [lifecycle s l] follows the
    calls of the allocator that succeeded and the calls of the deallocator
    in [l], starting with no instance alive ([Idle]) or with the instance
    [c] alive ([Live c]).  It is [None] when an instance is allocated while
    another is alive, or the deallocator is called with no instance alive
    or on another instance than the one alive; otherwise it tells what is
    alive at the end. *)
Inductive slot : Type :=
| Idle
| Live (c : option srtp_cipher_t).

Fixpoint lifecycle (s : slot) (l : list event) : option slot :=
  match l with
  | [] => Some s
  | EvAlloc _ _ c st :: l' =>
      match s with
      | Idle => lifecycle (if failed st then Idle else Live c) l'
      | Live _ => None
      end
  | EvDealloc c _ :: l' =>
      match s with
      | Live c' => if same_instance c c' then lifecycle Idle l' else None
      | Idle => None
      end
  | _ :: l' => lifecycle s l'
  end.

(** Whether the AEAD steps run for the instance [c]. *)
Definition gcm_instance {W} (P : platform W) (c : option srtp_cipher_t)
  : bool :=
  match c with
  | Some ci => is_gcm P ci
  | None => false
  end.

Definition aad_events (g : bool) (tc : srtp_cipher_test_case_t)
  : list event :=
  if g
  then [EvSetAad (aad tc) (aad_length_octets tc) srtp_err_status_ok]
  else [].

Definition tag_events (g : bool) : list event :=
  if g then [EvGetTag srtp_err_status_ok] else [].

(** The calls of a direction of a known-answer case, or of a random
    trial, that runs to its end: every call succeeds. *)
Definition encrypt_trace (g : bool) (tc : srtp_cipher_test_case_t)
    (k : octets) (n : size_t) : list event :=
  [EvInit k srtp_err_status_ok;
   EvSetIv (idx tc) srtp_direction_encrypt srtp_err_status_ok]
  ++ aad_events g tc ++ [EvEncrypt n srtp_err_status_ok] ++ tag_events g.

Definition decrypt_trace (g : bool) (tc : srtp_cipher_test_case_t)
    (k : octets) (n : size_t) : list event :=
  [EvInit k srtp_err_status_ok;
   EvSetIv (idx tc) srtp_direction_decrypt srtp_err_status_ok]
  ++ aad_events g tc ++ [EvDecrypt n srtp_err_status_ok].

(** What every call made on an instance by the two engines looks like,
    also on the paths that fail: the IV is the one of the test vector, the
    AEAD calls occur for the GCM identities only and carry the AAD of the
    test vector, the length encrypted satisfies [enc], and the allocator
    and [srtp_cipher_output] are not called. *)
Definition engine_event (g : bool) (tc : srtp_cipher_test_case_t)
    (enc : size_t -> Prop) (e : event) : Prop :=
  match e with
  | EvSetIv iv _ _ => iv = idx tc
  | EvSetAad a n _ => g = true /\ a = aad tc /\ n = aad_length_octets tc
  | EvGetTag _ => g = true
  | EvEncrypt n _ => enc n
  | EvAlloc _ _ _ _ => False
  | EvOutput _ _ => False
  | EvInit _ _ | EvDecrypt _ _ | EvDealloc _ _ => True
  end.

(** The trace of a path that returns after the allocation of [c]: calls
    as above, of which exactly one, the last, is the deallocation of
    [c]. *)
Definition returning_trace (c : option srtp_cipher_t) (g : bool)
    (tc : srtp_cipher_test_case_t) (enc : size_t -> Prop) (d : list event)
  : Prop :=
  lifecycle (Live c) d = Some Idle /\ Forall (engine_event g tc enc) d.

(** The trace of a direction that ran to its end: the instance is still
    alive and the calls are of the expected kind. *)
Definition running_trace (c : option srtp_cipher_t) (g : bool)
    (tc : srtp_cipher_test_case_t) (enc : size_t -> Prop) (d : list event)
  : Prop :=
  lifecycle (Live c) d = Some (Live c) /\ Forall (engine_event g tc enc) d.

(** The bound on the length a random trial encrypts. *)
Definition trial_bound (n : size_t) : Prop :=
  0 <= n < SELF_TEST_BUF_OCTETS - 64.

(** The IV and the direction of the calls of [srtp_cipher_set_iv] in a
    trace, in order. *)
Definition set_iv_calls (d : list event)
  : list (octets * srtp_cipher_direction_t) :=
  flat_map (fun e => match e with
                     | EvSetIv iv dir _ => [(iv, dir)]
                     | _ => []
                     end) d.

(** The calls of [srtp_cipher_set_iv] of [n] random trials on the test
    vector [tc] that run to their end: in each trial one call for
    encryption and one for decryption, both with the IV of [tc]. *)
Definition trial_ivs (tc : srtp_cipher_test_case_t) (n : nat)
  : list (octets * srtp_cipher_direction_t) :=
  concat (repeat [(idx tc, srtp_direction_encrypt);
                  (idx tc, srtp_direction_decrypt)] n).

(** The calls of [srtp_cipher_set_aad] and [srtp_cipher_get_tag] in a
    trace, in order. *)
Definition is_aead_call (e : event) : bool :=
  match e with
  | EvSetAad _ _ _ | EvGetTag _ => true
  | _ => false
  end.

Definition aead_calls (d : list event) : list event :=
  filter is_aead_call d.

Definition event_status (e : event) : srtp_err_status_t :=
  match e with
  | EvAlloc _ _ _ st | EvDealloc _ st | EvInit _ st | EvSetIv _ _ st
  | EvSetAad _ _ st | EvEncrypt _ st | EvDecrypt _ st | EvGetTag st
  | EvOutput _ st => st
  end.

Definition present {A} (o : option A) : bool :=
  match o with
  | Some _ => true
  | None => false
  end.

(** The statement [m], run from [w], ends in [w'], by reaching the next
    statement or by a return. *)
Definition finishes {W R A} (m : M W R A) (w w' : world W) : Prop :=
  (exists a, m w = Ok a w') \/ (exists r, m w = Return r w').

(** The calls of a trial of the benchmark that runs to its end, for a
    cipher type [t]. *)
Definition bench_trace {W} (t : srtp_cipher_type_t W) (iv : octets)
    (n : size_t) : list event :=
  [EvSetIv iv srtp_direction_encrypt srtp_err_status_ok]
  ++ (if present (set_aad t)
      then [EvSetAad [0; 0; 0; 0] 4 srtp_err_status_ok] else [])
  ++ [EvEncrypt n srtp_err_status_ok]
  ++ (if present (get_tag t) then [EvGetTag srtp_err_status_ok] else []).

(** A call that failed, a call that succeeded. *)
Definition failing (e : event) : Prop := failed (event_status e) = true.
Definition succeeding (e : event) : Prop :=
  event_status e = srtp_err_status_ok.

(** What the benchmark returns, in terms of the calls [d] it made, of
    whether the scratch buffer was allocated, and of the two readings of
    the clock. *)
Definition bench_result {W} (P : platform W)
    (octets_in_buffer num_trials : size_t) (w : world W) (r : Z)
    (w' : world W) : Prop :=
  let elapsed :=
    clock_src P (S (clock_calls w)) - clock_src P (clock_calls w) in
  let allocated :=
    present (fst (srtp_crypto_alloc P
                    (u64 (octets_in_buffer + SRTP_MAX_TAG_LEN P)) (mem w))) in
  let bits := u64 (CLOCKS_PER_SEC P * num_trials * 8 * octets_in_buffer) in
  exists d, log w' = log w ++ d /\
    (allocated = false -> r = 0) /\
    (Exists failing d -> r = 0) /\
    (elapsed = 0 -> r = 0) /\
    (allocated = true -> Forall succeeding d -> elapsed <> 0 ->
     r = bits / u64 elapsed /\ (0 < r <-> 0 < u64 elapsed <= bits)) /\
    (num_trials = 0 \/ octets_in_buffer = 0 -> r = 0).

(** The arrays of [srtp_cipher_type_test] have the sizes they are declared
    with. *)
Definition declared_sizes {W} (w : world W) : Prop :=
  Z.of_nat (length (buffer w)) = SELF_TEST_BUF_OCTETS /\
  Z.of_nat (length (buffer2 w)) = SELF_TEST_BUF_OCTETS /\
  Z.of_nat (length (trial_key w)) = MAX_KEY_LEN /\
  Z.of_nat (length (trial_iv w)) = MAX_KEY_LEN.

(** ** Weakest preconditions for statements *)

(** [wp F m Q E w]: run from [w], the statement [m] reaches the next
    statement in a state satisfying [Q], or returns in a state satisfying
    [E], or has undefined behaviour and [F] holds.  With [F := True] this
    is partial correctness; with [F := False] it excludes undefined
    behaviour. *)
Definition wp {W R A : Type} (F : Prop) (m : M W R A)
    (Q : A -> world W -> Prop) (E : R -> world W -> Prop) (w : world W)
  : Prop :=
  match m w with
  | Ok a w' => Q a w'
  | Return r w' => E r w'
  | Fault => F
  end.

(** [same_frame w w']: nothing but the cipher memory and the trace
    differs. *)
Definition same_frame {W} (w w' : world W) : Prop :=
  rand_calls w' = rand_calls w /\ clock_calls w' = clock_calls w /\
  buffer w' = buffer w /\ buffer2 w' = buffer2 w /\
  trial_key w' = trial_key w /\ trial_iv w' = trial_iv w /\
  tag_len w' = tag_len w.

(** [logged e w w']: a call that appended [e] to the trace. *)
Definition logged {W} (e : event) (w w' : world W) : Prop :=
  log w' = log w ++ [e] /\ same_frame w w'.

(** What the two engines do with an encryption that succeeded with the
    output [out] of [n] octets in the state [we].  The output is stored at
    the start of the test buffer.  For an instance on which the AEAD steps
    run, the tag is then fetched with the tag length of that state and
    stored behind the [n] octets, and its length [tl] is kept as the tag
    length.  [len] is the length the engine goes on with, [n + tl] modulo
    2^64 in that case and [n] otherwise, and [w2] is the state it goes on
    from. *)
Definition tag_appended {W} (P : platform W) (c : option srtp_cipher_t)
    (out : octets) (n : size_t) (we : world W) (len : size_t)
    (w2 : world W) : Prop :=
  exists b',
    store (buffer we) 0 out = Some b' /\
    if gcm_instance P c then
      exists tag tl wt b'',
        srtp_cipher_get_tag P c (tag_len we) (set_buffer b' we)
          = (srtp_err_status_ok, tag, tl, wt) /\
        store (buffer wt) n tag = Some b'' /\
        len = u64 (n + tl) /\
        w2 = set_tag_len tl (set_buffer b'' wt)
    else len = n /\ w2 = set_buffer b' we.

(** * Further predicates on traces *)

(** The codes the self-test returns of its own accord, when no call
    failed: a capacity guard, a mismatch, a key that is too long. *)
Definition verdict (s : srtp_err_status_t) : Prop :=
  s = srtp_err_status_bad_param \/ s = srtp_err_status_algo_fail \/
  s = srtp_err_status_cant_check.

(** The status of the first call of a trace that failed. *)
Fixpoint first_failure (d : list event) : option srtp_err_status_t :=
  match d with
  | [] => None
  | e :: d' =>
      if failed (event_status e) then Some (event_status e)
      else first_failure d'
  end.

(** A path of an engine that returns [r] after the allocation of [c]: the
    last call is the deallocation of [c], whose status is discarded.
    Either every call before it succeeded and [r] is a code of the engine
    itself, or the call just before it is the only one that failed and [r]
    is its status. *)
Definition error_path (c : option srtp_cipher_t) (r : srtp_err_status_t)
    (d : list event) : Prop :=
  exists d0 st, d = d0 ++ [EvDealloc c st] /\
    ((Forall succeeding d0 /\ verdict r) \/
     (exists d1 e, d0 = d1 ++ [e] /\ Forall succeeding d1 /\
                   failing e /\ r = event_status e)).

(** What a failing status [s] of the self-test tells about the calls [d]
    it made: [s] is a code of the self-test itself and every call but
    possibly the last succeeded, or [s] is the status of the first call
    that failed. *)
Definition blamed (s : srtp_err_status_t) (d : list event) : Prop :=
  failed s = true /\
  ((verdict s /\ Forall succeeding (removelast d)) \/
   first_failure d = Some s).

(** The calls of a known-answer case that passes, on the instance [c]. *)
Definition case_trace (g : bool) (c : option srtp_cipher_t)
    (tc : srtp_cipher_test_case_t) : list event :=
  [EvAlloc (key_length_octets tc) (tag_length_octets tc) c
           srtp_err_status_ok]
  ++ encrypt_trace g tc (key tc) (plaintext_length_octets tc)
  ++ decrypt_trace g tc (key tc) (ciphertext_length_octets tc)
  ++ [EvDealloc c srtp_err_status_ok].

(** Counting the calls of a kind in a trace. *)
Definition calls (k : event -> bool) (d : list event) : nat :=
  length (filter k d).

Definition is_alloc (e : event) : bool :=
  match e with EvAlloc _ _ _ _ => true | _ => false end.
Definition is_dealloc (e : event) : bool :=
  match e with EvDealloc _ _ => true | _ => false end.
Definition is_init (e : event) : bool :=
  match e with EvInit _ _ => true | _ => false end.
Definition is_set_iv (e : event) : bool :=
  match e with EvSetIv _ _ _ => true | _ => false end.
Definition is_encrypt (e : event) : bool :=
  match e with EvEncrypt _ _ => true | _ => false end.
Definition is_decrypt (e : event) : bool :=
  match e with EvDecrypt _ _ => true | _ => false end.

(** A trace of calls that all succeeded, with [a] allocations, as many
    deallocations, and [r] rounds of one encryption and one decryption,
    each after an initialization and a call of [srtp_cipher_set_iv]. *)
Definition census (a r : nat) (d : list event) : Prop :=
  Forall succeeding d /\
  calls is_alloc d = a /\ calls is_dealloc d = a /\
  calls is_init d = (2 * r)%nat /\ calls is_set_iv d = (2 * r)%nat /\
  calls is_encrypt d = r /\ calls is_decrypt d = r.

(** The calls the benchmark makes: [srtp_cipher_set_iv] for encryption,
    [srtp_cipher_set_aad] with its four zero octets,
    [srtp_cipher_encrypt] and [srtp_cipher_get_tag], and no other. *)
Definition bench_event (e : event) : Prop :=
  match e with
  | EvSetIv _ dir _ => dir = srtp_direction_encrypt
  | EvSetAad a n _ => a = [0; 0; 0; 0] /\ n = 4
  | EvEncrypt _ _ | EvGetTag _ => True
  | _ => False
  end.

(** A test vector that holds the octets it declares, and whose plaintext
    fits the scratch buffer, together with a tag of [T] octets when [g]
    tells that the cipher is AES-GCM. *)
Definition well_formed (g : bool) (T : Z) (tc : srtp_cipher_test_case_t)
  : Prop :=
  0 <= plaintext_length_octets tc <= Z.of_nat (length (plaintext tc)) /\
  0 <= ciphertext_length_octets tc <= Z.of_nat (length (ciphertext tc)) /\
  plaintext_length_octets tc + (if g then T else 0) <= SELF_TEST_BUF_OCTETS.

(** A cipher type that respects the capacity of its destinations.  Given
    a source length [n], not negative and within the capacity [cap] passed
    in [*dst_len], [encrypt] and [decrypt] store at most [cap] octets, and
    when [encrypt] succeeds it leaves a length between 0 and [n] in
    [*dst_len]; [get_tag] stores at most [T] octets, and when it succeeds
    it leaves a length between 0 and [T] in [*tag_len]. *)
Definition within_capacity {W} (T : Z) (t : srtp_cipher_type_t W) : Prop :=
  (forall s src n cap m,
     0 <= n <= cap ->
     Z.of_nat (length (snd (fst (fst (encrypt t s src n cap m))))) <= cap /\
     (failed (fst (fst (fst (encrypt t s src n cap m)))) = false ->
      0 <= snd (fst (encrypt t s src n cap m)) <= n) /\
     Z.of_nat (length (snd (fst (fst (decrypt t s src n cap m))))) <= cap) /\
  (forall f s tl m,
     get_tag t = Some f ->
     Z.of_nat (length (snd (fst (fst (f s tl m))))) <= T /\
     (failed (fst (fst (fst (f s tl m)))) = false ->
      0 <= snd (fst (f s tl m)) <= T)).

(** ** A platform without allocators, for the examples *)

(** A cipher type that has no allocator, and a platform whose cipher
    types are all of this kind and whose [srtp_crypto_alloc] returns
    [NULL]. *)
Definition unallocatable : srtp_cipher_type_t Z :=
  {| alloc := None;
     dealloc := fun _ m => (srtp_err_status_ok, m);
     init := fun _ _ m => (srtp_err_status_ok, m);
     set_aad := None;
     encrypt := fun _ src n _ m => (srtp_err_status_ok, src, n, m);
     decrypt := fun _ src n _ m => (srtp_err_status_ok, src, n, m);
     set_iv := fun _ _ _ m => (srtp_err_status_ok, m);
     get_tag := None;
     description := String.EmptyString;
     test_data := [] |}.

Definition bare_platform : platform Z :=
  {| type_at := fun _ => unallocatable;
     SRTP_AES_GCM_128 := Toy.GCM_128;
     SRTP_AES_GCM_256 := Toy.GCM_256;
     rand_src := fun _ => 0;
     clock_src := fun n => Z.of_nat n;
     big_endian := false;
     CLOCKS_PER_SEC := 1000000;
     SRTP_MAX_TAG_LEN := 16;
     srtp_crypto_alloc := fun _ m => (None, m);
     srtp_crypto_free := fun m => m |}.

(** The platform of the toy ciphers with a [rand()] that always returns
    0: every random trial then draws an empty plaintext. *)
Definition quiet_platform : platform Z :=
  {| type_at := Toy.types;
     SRTP_AES_GCM_128 := Toy.GCM_128;
     SRTP_AES_GCM_256 := Toy.GCM_256;
     rand_src := fun _ => 0;
     clock_src := fun n => Z.of_nat n * 5;
     big_endian := false;
     CLOCKS_PER_SEC := 1000000;
     SRTP_MAX_TAG_LEN := 16;
     srtp_crypto_alloc := fun n m => (Some (repeat 0 (Z.to_nat n)), m);
     srtp_crypto_free := fun m => m |}.

(** A vector whose plaintext is longer than the scratch buffer while its
    ciphertext is not. *)
Definition long_plaintext : srtp_cipher_test_case_t :=
  Toy.vector (repeat 0 129) [1].

(** ** The verdicts of the engines, and instances in use *)

(** The code a known-answer test returns of its own accord: the capacity
    guard, or a mismatch. *)
Definition known_answer_verdict (tc : srtp_cipher_test_case_t)
    (r : srtp_err_status_t) : Prop :=
  if ciphertext_length_octets tc >? SELF_TEST_BUF_OCTETS
  then r = srtp_err_status_bad_param
  else r = srtp_err_status_algo_fail.

(** The code a random trial returns of its own accord: the guard on the
    key length, or a round trip that does not give the plaintext back. *)
Definition random_verdict (tc : srtp_cipher_test_case_t)
    (r : srtp_err_status_t) : Prop :=
  if key_length_octets tc >? MAX_KEY_LEN
  then r = srtp_err_status_cant_check
  else r = srtp_err_status_algo_fail.

(** [usage s l] follows the instances as [lifecycle s l] does, and in
    addition is [None] when an operation of a cipher is called while no
    instance is alive: before the first allocation, or after a
    deallocation and before the next allocation. *)
Fixpoint usage (s : slot) (l : list event) : option slot :=
  match l with
  | [] => Some s
  | EvAlloc _ _ c st :: l' =>
      match s with
      | Idle => usage (if failed st then Idle else Live c) l'
      | Live _ => None
      end
  | EvDealloc c _ :: l' =>
      match s with
      | Live c' => if same_instance c c' then usage Idle l' else None
      | Idle => None
      end
  | _ :: l' =>
      match s with
      | Live _ => usage s l'
      | Idle => None
      end
  end.


(** * Properties *)

Unset Implicit Arguments.

(** ** Arithmetic and arrays *)

Lemma failed_false (s : srtp_err_status_t) :
  failed s = false -> s = srtp_err_status_ok.
Proof. destruct s; simpl; congruence. Qed.

Lemma store_length (dst src dst' : octets) (off : Z) :
  store dst off src = Some dst' -> length dst' = length dst.
Proof.
  unfold store.
  destruct ((0 <=? off) && (off + Z.of_nat (length src) <=?
                            Z.of_nat (length dst))) eqn:E; [|discriminate].
  intros H; inversion H; subst; clear H.
  apply andb_true_iff in E as [E1 E2].
  apply Z.leb_le in E1, E2.
  rewrite !length_app, length_firstn, length_skipn. lia.
Qed.

Lemma same_pointer_refl a : same_pointer a a = true.
Proof. destruct a; simpl; [apply Z.eqb_refl|reflexivity]. Qed.

Lemma same_instance_refl c : same_instance c c = true.
Proof.
  destruct c as [ci|]; simpl; [|reflexivity].
  rewrite !same_pointer_refl, !Z.eqb_refl. reflexivity.
Qed.

Section Properties.

Variable W : Type.
Variable P : platform W.

(** ** Rules of the weakest precondition *)

Lemma wp_bind {R A B} F (m : M W R A) (f : A -> M W R B) Q E w :
  wp F m (fun a w' => wp F (f a) Q E w') E w -> wp F (bind m f) Q E w.
Proof. unfold wp, bind. destruct (m w); auto. Qed.

Lemma wp_ret {R A} F (a : A) (Q : A -> world W -> Prop)
    (E : R -> world W -> Prop) w :
  Q a w -> wp F (ret a) Q E w.
Proof. auto. Qed.

Lemma wp_return {R A} F (r : R) (Q : A -> world W -> Prop)
    (E : R -> world W -> Prop) w :
  E r w -> wp F (return_ r) Q E w.
Proof. auto. Qed.

Lemma wp_call {R A} F (f : world W -> A * world W)
    (Q : A -> world W -> Prop) (E : R -> world W -> Prop) w :
  Q (fst (f w)) (snd (f w)) -> wp F (call f) Q E w.
Proof. unfold wp, call. destruct (f w); auto. Qed.

Lemma wp_gets {R A} F (f : world W -> A) (Q : A -> world W -> Prop)
    (E : R -> world W -> Prop) w :
  Q (f w) w -> wp F (gets f) Q E w.
Proof. auto. Qed.

Lemma wp_modify {R} F (f : world W -> world W)
    (Q : unit -> world W -> Prop) (E : R -> world W -> Prop) w :
  Q tt (f w) -> wp F (modify f) Q E w.
Proof. auto. Qed.

Lemma wp_defined {R A} (o : option A) (Q : A -> world W -> Prop)
    (E : R -> world W -> Prop) w :
  (forall a, o = Some a -> Q a w) -> wp True (defined o) Q E w.
Proof.
  destruct o; simpl; intros H; [|exact I].
  unfold wp, ret. apply H. reflexivity.
Qed.

Lemma wp_defined_some {R A} F (o : option A) (a : A)
    (Q : A -> world W -> Prop) (E : R -> world W -> Prop) w :
  o = Some a -> Q a w -> wp F (defined o) Q E w.
Proof. intros -> H. exact H. Qed.

Lemma wp_mono {R A} F (m : M W R A) (Q Q' : A -> world W -> Prop)
    (E E' : R -> world W -> Prop) w :
  (forall a w', Q a w' -> Q' a w') ->
  (forall r w', E r w' -> E' r w') ->
  wp F m Q E w -> wp F m Q' E' w.
Proof. unfold wp. destruct (m w); auto. Qed.

(** ** What the dispatch functions and the C library do to the state *)

Lemma logged_emit e m (w : world W) : logged e w (emit e (with_mem m w)).
Proof. unfold logged, same_frame. simpl. tauto. Qed.

Lemma logged_emit' e (w : world W) : logged e w (emit e w).
Proof. unfold logged, same_frame. simpl. tauto. Qed.

Lemma srtp_cipher_type_alloc_logged ct k t w :
  logged (EvAlloc k t (snd (fst (srtp_cipher_type_alloc P ct k t w)))
                      (fst (fst (srtp_cipher_type_alloc P ct k t w))))
         w (snd (srtp_cipher_type_alloc P ct k t w)).
Proof.
  unfold srtp_cipher_type_alloc.
  destruct ct as [a|]; [|apply logged_emit'].
  destruct (alloc (type_at P a)) as [f|]; [|apply logged_emit'].
  destruct (f k t (mem w)) as [[st c] m]. apply logged_emit.
Qed.

Lemma srtp_cipher_dealloc_logged c w :
  logged (EvDealloc c (fst (srtp_cipher_dealloc P c w)))
         w (snd (srtp_cipher_dealloc P c w)).
Proof.
  unfold srtp_cipher_dealloc.
  destruct c as [ci|]; [|apply logged_emit'].
  destruct (type ci) as [t|]; [|apply logged_emit'].
  destruct (dealloc (type_at P t) ci (mem w)). apply logged_emit.
Qed.

Lemma srtp_cipher_init_logged c k w :
  logged (EvInit k (fst (srtp_cipher_init P c k w)))
         w (snd (srtp_cipher_init P c k w)).
Proof.
  unfold srtp_cipher_init.
  destruct (checked P c) as [[t s]|]; [|apply logged_emit'].
  destruct (init t s k (mem w)). apply logged_emit.
Qed.

Lemma srtp_cipher_set_iv_logged c iv d w :
  logged (EvSetIv iv d (fst (srtp_cipher_set_iv P c iv d w)))
         w (snd (srtp_cipher_set_iv P c iv d w)).
Proof.
  unfold srtp_cipher_set_iv.
  destruct (checked P c) as [[t s]|]; [|apply logged_emit'].
  destruct (set_iv t s iv d (mem w)). apply logged_emit.
Qed.

Lemma srtp_cipher_set_aad_logged c a n w :
  logged (EvSetAad a n (fst (srtp_cipher_set_aad P c a n w)))
         w (snd (srtp_cipher_set_aad P c a n w)).
Proof.
  unfold srtp_cipher_set_aad.
  destruct (checked P c) as [[t s]|]; [|apply logged_emit'].
  destruct (set_aad t) as [f|]; [|apply logged_emit'].
  destruct (f s a n (mem w)). apply logged_emit.
Qed.

Lemma srtp_cipher_encrypt_logged c src n d w :
  logged (EvEncrypt n (fst (fst (fst (srtp_cipher_encrypt P c src n d w)))))
         w (snd (srtp_cipher_encrypt P c src n d w)).
Proof.
  unfold srtp_cipher_encrypt.
  destruct (checked P c) as [[t s]|]; [|apply logged_emit'].
  destruct (encrypt t s src n d (mem w)) as [[[st out] n'] m].
  apply logged_emit.
Qed.

Lemma srtp_cipher_decrypt_logged c src n d w :
  logged (EvDecrypt n (fst (fst (fst (srtp_cipher_decrypt P c src n d w)))))
         w (snd (srtp_cipher_decrypt P c src n d w)).
Proof.
  unfold srtp_cipher_decrypt.
  destruct (checked P c) as [[t s]|]; [|apply logged_emit'].
  destruct (decrypt t s src n d (mem w)) as [[[st out] n'] m].
  apply logged_emit.
Qed.

Lemma srtp_cipher_get_tag_logged c tl w :
  logged (EvGetTag (fst (fst (fst (srtp_cipher_get_tag P c tl w)))))
         w (snd (srtp_cipher_get_tag P c tl w)).
Proof.
  unfold srtp_cipher_get_tag.
  destruct (checked P c) as [[t s]|]; [|apply logged_emit'].
  destruct (get_tag t) as [f|]; [|apply logged_emit'].
  destruct (f s tl (mem w)) as [[[st out] n'] m]. apply logged_emit.
Qed.

Lemma rand_octets_frame n w :
  let r := rand_octets P n w in
  length (fst r) = n /\
  rand_calls (snd r) = (rand_calls w + n)%nat /\
  mem (snd r) = mem w /\ clock_calls (snd r) = clock_calls w /\
  log (snd r) = log w /\ buffer (snd r) = buffer w /\
  buffer2 (snd r) = buffer2 w /\ trial_key (snd r) = trial_key w /\
  trial_iv (snd r) = trial_iv w /\ tag_len (snd r) = tag_len w.
Proof.
  revert w. induction n as [|n IH]; intros w; simpl.
  - repeat split; lia.
  - destruct (rand_octets P n _) as [rest w2] eqn:E.
    specialize (IH (snd (rand P w))). simpl in IH. rewrite E in IH.
    simpl in *. destruct IH as (? & ? & ? & ? & ? & ? & ? & ? & ? & ?).
    repeat split; try congruence; lia.
Qed.

Lemma rand_octets_bounds n w :
  Forall (fun x => 0 <= x < 256) (fst (rand_octets P n w)).
Proof.
  revert w. induction n as [|n IH]; intros w; simpl.
  - constructor.
  - specialize (IH (snd (rand P w))). simpl in IH.
    destruct (rand_octets P n _) as [rest w2]. simpl in *.
    constructor; [|exact IH].
    change 255 with (Z.ones 8). rewrite Z.land_ones by lia.
    change (2 ^ 8) with 256. apply Z.mod_pos_bound. lia.
Qed.

Lemma srtp_cipher_rand_for_tests_log n w :
  log (snd (srtp_cipher_rand_for_tests P n w)) = log w.
Proof. unfold srtp_cipher_rand_for_tests. apply rand_octets_frame. Qed.

Lemma srtp_cipher_rand_u32_for_tests_log w :
  log (snd (srtp_cipher_rand_u32_for_tests P w)) = log w.
Proof.
  unfold srtp_cipher_rand_u32_for_tests.
  pose proof (srtp_cipher_rand_for_tests_log 4 w) as H.
  destruct (srtp_cipher_rand_for_tests P 4 w). exact H.
Qed.

(** ** Symbolic execution of a statement *)

(** The tactics below run a goal [wp True m Q E w] through [m], one statement
    at a time.  They keep one hypothesis [log w = l0 ++ d] about the
    current state, in which [d] lists the calls made so far, and forget
    the rest of the state. *)
Ltac upd_log H :=
  match goal with
  | HL : log ?w = _ |- _ =>
      match type of H with
      | logged _ w ?w1 =>
          let H1 := fresh "HL" in
          let HF := fresh in
          destruct H as [H1 HF]; rewrite HL in H1;
          rewrite <- ?app_assoc in H1; cbn [app] in H1; clear HL;
          try match goal with
              | HC : clock_calls w = _ |- _ =>
                  let HC1 := fresh "HC" in
                  pose proof (proj1 (proj2 HF)) as HC1;
                  rewrite HC in HC1; clear HC
              end;
          clear HF
      | log _ = log w => rewrite HL in H; clear HL
      end
  end.

Ltac call_step lem r :=
  apply wp_call;
  let H := fresh "Hc" in
  pose proof lem as H;
  (destruct r as [[[? ?] ?] ?] || destruct r as [[? ?] ?]
   || destruct r as [? ?]);
  cbn [fst snd] in H |- *;
  upd_log H.

Ltac symex1 :=
  lazymatch goal with
  | |- wp _ (bind _ _) _ _ _ => apply wp_bind
  | |- wp _ (ret _) _ _ _ => apply wp_ret
  | |- wp _ (return_ _) _ _ _ => apply wp_return
  | |- wp True fault _ _ _ => exact I
  | |- wp True (defined (Some ?a)) _ _ _ =>
      let Heq := fresh in
      apply wp_defined; intros ? Heq; injection Heq as <-
  | |- wp True (defined None) _ _ _ => exact I
  | |- wp True (defined _) _ _ _ => apply wp_defined; intros ? ?
  | |- wp _ (gets _) _ _ _ => apply wp_gets
  | |- wp _ (modify ?f) _ _ ?w =>
      apply wp_modify;
      let w1 := fresh "w" in
      let Heq := fresh in
      let HL1 := fresh "HL" in
      remember (f w) as w1 eqn:Heq;
      assert (HL1 : log w1 = log w) by (rewrite Heq; reflexivity);
      try match goal with
          | HC : clock_calls w = _ |- _ =>
              let HC1 := fresh "HC" in
              assert (HC1 : clock_calls w1 = clock_calls w)
                by (rewrite Heq; reflexivity);
              rewrite HC in HC1; clear HC
          end;
      clear Heq; upd_log HL1
  | |- wp _ (call (srtp_cipher_init P ?c ?k)) _ _ ?w =>
      call_step (srtp_cipher_init_logged c k w)
                (srtp_cipher_init P c k w)
  | |- wp _ (call (srtp_cipher_set_iv P ?c ?k ?d)) _ _ ?w =>
      call_step (srtp_cipher_set_iv_logged c k d w)
                (srtp_cipher_set_iv P c k d w)
  | |- wp _ (call (srtp_cipher_set_aad P ?c ?k ?d)) _ _ ?w =>
      call_step (srtp_cipher_set_aad_logged c k d w)
                (srtp_cipher_set_aad P c k d w)
  | |- wp _ (call (srtp_cipher_encrypt P ?c ?b ?n ?d)) _ _ ?w =>
      call_step (srtp_cipher_encrypt_logged c b n d w)
                (srtp_cipher_encrypt P c b n d w)
  | |- wp _ (call (srtp_cipher_decrypt P ?c ?b ?n ?d)) _ _ ?w =>
      call_step (srtp_cipher_decrypt_logged c b n d w)
                (srtp_cipher_decrypt P c b n d w)
  | |- wp _ (call (srtp_cipher_get_tag P ?c ?t)) _ _ ?w =>
      call_step (srtp_cipher_get_tag_logged c t w)
                (srtp_cipher_get_tag P c t w)
  | |- wp _ (call (srtp_cipher_dealloc P ?c)) _ _ ?w =>
      call_step (srtp_cipher_dealloc_logged c w)
                (srtp_cipher_dealloc P c w)
  | |- wp _ (call (srtp_cipher_type_alloc P ?c ?k ?t)) _ _ ?w =>
      call_step (srtp_cipher_type_alloc_logged c k t w)
                (srtp_cipher_type_alloc P c k t w)
  | |- wp _ (call (srtp_cipher_rand_for_tests P ?n)) _ _ ?w =>
      call_step (srtp_cipher_rand_for_tests_log n w)
                (srtp_cipher_rand_for_tests P n w)
  | |- wp _ (call (srtp_cipher_rand_u32_for_tests P)) _ _ ?w =>
      call_step (srtp_cipher_rand_u32_for_tests_log w)
                (srtp_cipher_rand_u32_for_tests P w)
  | |- wp _ (dealloc_return _ _ _) _ _ _ => unfold dealloc_return
  | |- wp _ (check _ _ _) _ _ _ => unfold check
  | |- wp _ (store_buffer _ _) _ _ _ => unfold store_buffer
  | |- wp _ (set_aad_if_gcm _ _ _) _ _ _ => unfold set_aad_if_gcm
  | |- wp _ (get_tag_if_gcm _ _ _) _ _ _ => unfold get_tag_if_gcm
  | |- wp _ (if is_gcm P ?ci then _ else _) _ _ _ =>
      match goal with G : is_gcm P ci = _ |- _ => rewrite G end
  | |- wp _ (free_return_0 _) _ _ _ => unfold free_return_0
  | |- wp _ (match ?o with Some _ => _ | None => _ end) _ _ _ =>
      destruct o eqn:?
  | |- wp _ (if ?b then _ else _) _ _ _ => destruct b eqn:?
  end.

Ltac all_ok :=
  repeat match goal with
         | H : failed ?s = false |- _ => apply failed_false in H; subst s
         end.

Ltac the_log :=
  match goal with
  | H : log ?w = _ |- log ?w = _ => exact H
  end.

(** A path that returns: the trace is a [returning_trace], once the
    lengths encrypted are shown to satisfy the bound with [tac]. *)
Ltac returning_leaf tac :=
  eexists; split;
  [ eassumption
  | split;
    [ cbn [lifecycle]; rewrite ?same_instance_refl; reflexivity
    | repeat constructor; auto; tac ] ].

(** ** Traces of the two engines *)

Lemma lifecycle_app (b : slot) (d1 d2 : list event) :
  lifecycle b (d1 ++ d2) =
  match lifecycle b d1 with
  | Some b' => lifecycle b' d2
  | None => None
  end.
Proof.
  revert b. induction d1 as [|e d1 IH]; intros b; simpl; [reflexivity|].
  destruct e; try apply IH; destruct b; auto.
  destruct (same_instance c c0); auto.
Qed.

Lemma encrypt_trace_running c g tc (enc : size_t -> Prop) k n :
  enc n -> running_trace c g tc enc (encrypt_trace g tc k n).
Proof.
  intros Hn. unfold running_trace, encrypt_trace.
  destruct g; simpl; repeat constructor; auto.
Qed.

Lemma decrypt_trace_running c g tc (enc : size_t -> Prop) k n :
  running_trace c g tc enc (decrypt_trace g tc k n).
Proof.
  unfold running_trace, decrypt_trace.
  destruct g; simpl; repeat constructor; auto.
Qed.

Lemma running_app c g tc enc d1 d2 :
  running_trace c g tc enc d1 -> running_trace c g tc enc d2 ->
  running_trace c g tc enc (d1 ++ d2).
Proof.
  intros [L1 F1] [L2 F2]. split.
  - rewrite lifecycle_app, L1. exact L2.
  - apply Forall_app. split; assumption.
Qed.

Lemma running_returning c g tc enc d1 d2 :
  running_trace c g tc enc d1 -> returning_trace c g tc enc d2 ->
  returning_trace c g tc enc (d1 ++ d2).
Proof.
  intros [L1 F1] [L2 F2]. split.
  - rewrite lifecycle_app, L1. exact L2.
  - apply Forall_app. split; assumption.
Qed.

Lemma running_nil c g tc enc : running_trace c g tc enc [].
Proof. split; [reflexivity | constructor]. Qed.

Lemma test_encrypt_trace c tc w l0 :
  log w = l0 ->
  wp True (test_encrypt P c tc)
     (fun _ w' =>
        log w' = l0 ++ encrypt_trace (gcm_instance P c) tc (key tc)
                                     (plaintext_length_octets tc))
     (fun _ w' =>
        exists d, log w' = l0 ++ d /\
                  returning_trace c (gcm_instance P c) tc
                    (fun n => n = plaintext_length_octets tc) d)
     w.
Proof.
  intros HL. rewrite <- (app_nil_r l0) in HL.
  unfold test_encrypt.
  destruct c as [ci|]; [destruct (is_gcm P ci) eqn:G|];
    repeat symex1; cbn [gcm_instance]; rewrite ?G;
    try (returning_leaf idtac); all_ok; the_log.
Qed.

Lemma test_decrypt_trace c tc w l0 :
  log w = l0 ->
  wp True (test_decrypt P c tc)
     (fun _ w' =>
        log w' = l0 ++ decrypt_trace (gcm_instance P c) tc (key tc)
                                     (ciphertext_length_octets tc))
     (fun _ w' =>
        exists d, log w' = l0 ++ d /\
                  returning_trace c (gcm_instance P c) tc
                    (fun n => n = plaintext_length_octets tc) d)
     w.
Proof.
  intros HL. rewrite <- (app_nil_r l0) in HL.
  unfold test_decrypt.
  destruct c as [ci|]; [destruct (is_gcm P ci) eqn:G|];
    repeat symex1; cbn [gcm_instance]; rewrite ?G;
    try (returning_leaf idtac); all_ok; the_log.
Qed.

Lemma random_trial_trace c tc w l0 :
  log w = l0 ->
  wp True (random_trial P c tc)
     (fun _ w' =>
        exists k n n',
          log w' = l0 ++ encrypt_trace (gcm_instance P c) tc k n
                      ++ decrypt_trace (gcm_instance P c) tc k n' /\
          trial_bound n)
     (fun _ w' =>
        exists d, log w' = l0 ++ d /\
                  returning_trace c (gcm_instance P c) tc trial_bound d)
     w.
Proof.
  intros HL. rewrite <- (app_nil_r l0) in HL.
  unfold random_trial.
  destruct c as [ci|]; [destruct (is_gcm P ci) eqn:G|];
    repeat symex1; cbn [gcm_instance]; rewrite ?G;
    try (returning_leaf ltac:(apply Z.mod_pos_bound; reflexivity));
    all_ok; do 3 eexists; (split; [the_log|]);
    apply Z.mod_pos_bound; reflexivity.
Qed.

Lemma lifecycle_alloc_ok k t c d :
  lifecycle Idle (EvAlloc k t c srtp_err_status_ok :: d)
  = lifecycle (Live c) d.
Proof. reflexivity. Qed.

Lemma random_trials_trace n c tc w l0 :
  log w = l0 ->
  wp True (random_trials P n c tc)
     (fun _ w' =>
        exists d, log w' = l0 ++ d /\
                  running_trace c (gcm_instance P c) tc trial_bound d)
     (fun _ w' =>
        exists d, log w' = l0 ++ d /\
                  returning_trace c (gcm_instance P c) tc trial_bound d)
     w.
Proof.
  revert w l0. induction n as [|n IH]; intros w l0 HL; simpl.
  - apply wp_ret. exists []. rewrite app_nil_r. split; [exact HL|].
    apply running_nil.
  - apply wp_bind.
    eapply wp_mono; [ | | apply (random_trial_trace c tc _ _ HL)]; cbv beta.
    + intros _ w1 (k & n1 & n2 & HL1 & Hb).
      assert (R1 : running_trace c (gcm_instance P c) tc trial_bound
                     (encrypt_trace (gcm_instance P c) tc k n1 ++
                      decrypt_trace (gcm_instance P c) tc k n2)).
      { apply running_app;
          [apply encrypt_trace_running; exact Hb
          |apply decrypt_trace_running]. }
      eapply wp_mono; [ | | apply (IH w1 _ HL1)]; cbv beta.
      * intros _ w2 (d & HL2 & R2). eexists. rewrite <- app_assoc in HL2.
        split; [exact HL2|]. apply running_app; assumption.
      * intros _ w2 (d & HL2 & R2). eexists. rewrite <- app_assoc in HL2.
        split; [exact HL2|]. apply running_returning; assumption.
    + intros _ w1 H. exact H.
Qed.

Lemma known_answer_case_trace ct tc w l0 :
  log w = l0 ->
  wp True (known_answer_case P ct tc)
     (fun _ w' =>
        exists d, log w' = l0 ++ d /\ lifecycle Idle d = Some Idle)
     (fun _ w' =>
        exists d, log w' = l0 ++ d /\ lifecycle Idle d = Some Idle)
     w.
Proof.
  intros HL. rewrite <- (app_nil_r l0) in HL.
  unfold known_answer_case. do 2 symex1.
  symex1; [symex1; eexists; split; [the_log|]; simpl;
           rewrite Heqb; reflexivity|].
  all_ok. apply wp_bind.
  eapply wp_mono; [ | | apply (test_encrypt_trace o tc _ _ HL0)]; cbv beta.
  - intros _ w1 HL1. apply wp_bind.
    eapply wp_mono; [ | | apply (test_decrypt_trace o tc _ _ HL1)]; cbv beta.
    + intros _ w2 HL2.
      pose proof (encrypt_trace_running o (gcm_instance P o) tc
                    (fun n => n = plaintext_length_octets tc) (key tc)
                    (plaintext_length_octets tc) eq_refl) as [L1 _].
      pose proof (decrypt_trace_running o (gcm_instance P o) tc
                    (fun n => n = plaintext_length_octets tc) (key tc)
                    (ciphertext_length_octets tc)) as [L2 _].
      repeat symex1; (eexists; split; [the_log|]);
        rewrite lifecycle_alloc_ok, lifecycle_app, L1; cbv beta iota;
        rewrite lifecycle_app, L2; cbv beta iota; cbn [lifecycle];
        rewrite same_instance_refl; reflexivity.
    + intros _ w2 (d & HL2 & [L2 _]).
      pose proof (encrypt_trace_running o (gcm_instance P o) tc
                    (fun n => n = plaintext_length_octets tc) (key tc)
                    (plaintext_length_octets tc) eq_refl) as [L1 _].
      eexists. rewrite <- !app_assoc in HL2. split; [exact HL2|].
      cbn [app].
      rewrite lifecycle_alloc_ok, lifecycle_app, L1. exact L2.
  - intros _ w1 (d & HL1 & [L1 _]).
    eexists. rewrite <- !app_assoc in HL1. split; [exact HL1|].
    cbn [app]. rewrite lifecycle_alloc_ok. exact L1.
Qed.

Lemma known_answer_tests_trace ct l w l0 :
  log w = l0 ->
  wp True (known_answer_tests P ct l)
     (fun _ w' =>
        exists d, log w' = l0 ++ d /\ lifecycle Idle d = Some Idle)
     (fun _ w' =>
        exists d, log w' = l0 ++ d /\ lifecycle Idle d = Some Idle)
     w.
Proof.
  revert w l0. induction l as [|tc l IH]; intros w l0 HL; simpl.
  - apply wp_ret. exists []. rewrite app_nil_r. auto.
  - apply wp_bind.
    eapply wp_mono; [ | | apply (known_answer_case_trace ct tc _ _ HL)];
      cbv beta.
    + intros _ w1 (d1 & HL1 & L1).
      eapply wp_mono; [ | | apply (IH w1 _ HL1)]; cbv beta;
        intros _ w2 (d2 & HL2 & L2); exists (d1 ++ d2);
        rewrite <- app_assoc in HL2; (split; [exact HL2|]);
        rewrite lifecycle_app, L1; exact L2.
    + intros _ w1 H. exact H.
Qed.

Lemma random_tests_trace ct tc w l0 :
  log w = l0 ->
  wp True (random_tests P ct tc)
     (fun _ w' =>
        exists d, log w' = l0 ++ d /\ lifecycle Idle d = Some Idle)
     (fun _ w' =>
        exists d, log w' = l0 ++ d /\ lifecycle Idle d = Some Idle)
     w.
Proof.
  intros HL. rewrite <- (app_nil_r l0) in HL.
  unfold random_tests. do 2 symex1.
  symex1; [symex1; eexists; split; [the_log|]; simpl;
           rewrite Heqb; reflexivity|].
  all_ok. apply wp_bind.
  eapply wp_mono; [ | | apply (random_trials_trace NUM_RAND_TESTS o tc _ _ HL0)];
    cbv beta.
  - intros _ w1 (d & HL1 & [L1 _]). rewrite <- app_assoc in HL1.
    repeat symex1; (eexists; split; [the_log|]);
      rewrite lifecycle_alloc_ok, lifecycle_app, L1; cbv beta iota;
      cbn [lifecycle]; rewrite same_instance_refl; reflexivity.
  - intros _ w1 (d & HL1 & [L1 _]).
    eexists. rewrite <- !app_assoc in HL1. split; [exact HL1|].
    cbn [app]. rewrite lifecycle_alloc_ok. exact L1.
Qed.

Lemma srtp_cipher_type_test_body_trace ct l w :
  wp True (srtp_cipher_type_test_body P ct l)
     (fun _ w' =>
        exists d, log w' = log w ++ d /\ lifecycle Idle d = Some Idle)
     (fun _ w' =>
        exists d, log w' = log w ++ d /\ lifecycle Idle d = Some Idle)
     w.
Proof.
  unfold srtp_cipher_type_test_body. destruct l as [|tc l'].
  - apply wp_return. exists []. rewrite app_nil_r. auto.
  - apply wp_bind.
    eapply wp_mono;
      [ | | apply (known_answer_tests_trace ct (tc :: l') w _ eq_refl)];
      cbv beta.
    + intros _ w1 (d1 & HL1 & L1).
      eapply wp_mono; [ | | apply (random_tests_trace ct tc _ _ HL1)];
        cbv beta;
        intros _ w2 (d2 & HL2 & L2); exists (d1 ++ d2);
        rewrite <- app_assoc in HL2; (split; [exact HL2|]);
        rewrite lifecycle_app, L1; exact L2.
    + intros _ w1 H. exact H.
Qed.

(** C6. In the self-test, every instance the allocator delivered is passed
    to the deallocator exactly once before the function returns, on every
    path: in the calls [d] made between entry and return, each successful
    allocation is followed by one deallocation of the instance it
    delivered, before any further allocation and before the return, and
    the deallocator is never called without a live instance or on another
    instance. *)
Theorem self_test_deallocates_exactly_once :
  forall ct test_data (w w' : world W) s,
    srtp_cipher_type_test P ct test_data w = Returned s w' ->
    exists d, log w' = log w ++ d /\ lifecycle Idle d = Some Idle.
Proof.
  intros ct l w w' s H.
  pose proof (srtp_cipher_type_test_body_trace ct l w) as T.
  unfold srtp_cipher_type_test, fn in H. unfold wp in T.
  destruct (srtp_cipher_type_test_body P ct l w);
    inversion H; subst; exact T.
Qed.

(** ** From weakest preconditions to runs *)

Lemma wp_finishes {R A} (m : M W R A) (Q : world W -> Prop) w w' :
  wp True m (fun _ => Q) (fun _ => Q) w -> finishes m w w' -> Q w'.
Proof.
  unfold wp. intros H [[a E]|[r E]]; rewrite E in H; exact H.
Qed.

Lemma wp_ok {R A} (m : M W R A) Q E w a w' :
  wp True m Q E w -> m w = Ok a w' -> Q a w'.
Proof. unfold wp. intros H Hm. rewrite Hm in H. exact H. Qed.

(** Every path of the loop of random trials makes calls of the expected
    kind only. *)
Lemma random_trials_events n c tc w w' :
  finishes (random_trials P n c tc) w w' ->
  exists d, log w' = log w ++ d /\
            Forall (engine_event (gcm_instance P c) tc trial_bound) d.
Proof.
  intros Hrun.
  refine (wp_finishes (random_trials P n c tc)
            (fun w' => exists d, log w' = log w ++ d /\
               Forall (engine_event (gcm_instance P c) tc trial_bound) d)
            w w' _ Hrun).
  eapply wp_mono; [ | | apply (random_trials_trace n c tc w _ eq_refl)];
    cbv beta; intros _ w1 (d & HL & [_ F]); exists d; auto.
Qed.

(** ** The IV of the random trials *)

Lemma engine_events_set_iv g tc enc d :
  Forall (engine_event g tc enc) d ->
  forall iv dir, In (iv, dir) (set_iv_calls d) -> iv = idx tc.
Proof.
  induction 1 as [|e d He _ IH]; intros iv dir Hin; simpl in Hin.
  - contradiction.
  - apply in_app_or in Hin as [Hin|Hin]; [|eauto].
    destruct e; simpl in Hin; try contradiction.
    destruct Hin as [Heq|[]]. inversion Heq; subst. exact He.
Qed.

(** ** The length of the random plaintext *)

Lemma u32_of_octets_bound be (b : octets) :
  length b = 4%nat -> Forall (fun x => 0 <= x < 256) b ->
  0 <= u32_of_octets be b < 2 ^ 32.
Proof.
  intros Hlen Hb.
  destruct b as [|b0 [|b1 [|b2 [|b3 [|]]]]]; try discriminate.
  inversion Hb as [|? ? H0 Hb1]; subst.
  inversion Hb1 as [|? ? H1 Hb2]; subst.
  inversion Hb2 as [|? ? H2 Hb3]; subst.
  inversion Hb3 as [|? ? H3 _]; subst.
  change (2 ^ 32) with 4294967296.
  unfold u32_of_octets. destruct be; cbn [nth rev app]; lia.
Qed.

Lemma srtp_cipher_rand_u32_for_tests_bound w :
  0 <= fst (srtp_cipher_rand_u32_for_tests P w) < 2 ^ 32.
Proof.
  unfold srtp_cipher_rand_u32_for_tests, srtp_cipher_rand_for_tests.
  pose proof (rand_octets_frame (Z.to_nat 4) w) as [Hlen _].
  pose proof (rand_octets_bounds (Z.to_nat 4) w) as Hb.
  destruct (rand_octets P (Z.to_nat 4) w) as [r w1]. simpl in *.
  apply u32_of_octets_bound; assumption.
Qed.

Lemma engine_events_encrypt g tc enc d :
  Forall (engine_event g tc enc) d ->
  forall n st, In (EvEncrypt n st) d -> enc n.
Proof.
  intros F n st Hin. rewrite Forall_forall in F. exact (F _ Hin).
Qed.

(** C8. The plaintext length of a random trial is the 32-bit value of
    [srtp_cipher_rand_u32_for_tests] reduced modulo
    [SELF_TEST_BUF_OCTETS - 64]; it lies in [0, 64) and so within the
    scratch capacity, and on every path of the loop of trials every call
    of [srtp_cipher_encrypt] receives a length in [0, 64). *)
Theorem random_plaintext_length_below_64 :
  forall c tc (w : world W),
    (let r := fst (srtp_cipher_rand_u32_for_tests P w) in
     let plaintext_len := r mod (SELF_TEST_BUF_OCTETS - 64) in
     0 <= r < 2 ^ 32 /\
     0 <= plaintext_len < 64 /\
     plaintext_len <= SELF_TEST_BUF_OCTETS) /\
    (forall n w', finishes (random_trials P n c tc) w w' ->
       exists d, log w' = log w ++ d /\
                 forall len st, In (EvEncrypt len st) d -> 0 <= len < 64).
Proof.
  intros c tc w. split.
  - cbv zeta. split; [apply srtp_cipher_rand_u32_for_tests_bound|].
    change (SELF_TEST_BUF_OCTETS - 64) with 64.
    change SELF_TEST_BUF_OCTETS with 128.
    pose proof (Z.mod_pos_bound
                  (fst (srtp_cipher_rand_u32_for_tests P w)) 64).
    lia.
  - intros n w' Hrun.
    destruct (random_trials_events n c tc w w' Hrun) as (d & HL & F).
    exists d. split; [exact HL|].
    intros len st Hin.
    exact (engine_events_encrypt _ _ _ _ F len st Hin).
Qed.

(** ** The benchmark *)

Lemma failing_not_all_succeeding d :
  Exists failing d -> Forall succeeding d -> False.
Proof.
  intros Hex Hall. rewrite Exists_exists in Hex.
  destruct Hex as (e & Hin & Hf). rewrite Forall_forall in Hall.
  specialize (Hall e Hin). unfold failing, succeeding in *.
  rewrite Hall in Hf. discriminate.
Qed.

Lemma bench_trace_succeeding (t : srtp_cipher_type_t W) iv n :
  Forall succeeding (bench_trace t iv n).
Proof.
  unfold bench_trace.
  destruct (present (set_aad t)), (present (get_tag t));
    repeat constructor.
Qed.

Ltac failing_leaf :=
  split; [reflexivity|]; split; [assumption|];
  eexists; split; [the_log|];
  repeat first [ apply Exists_cons_hd; assumption | apply Exists_cons_tl ].

Lemma bench_trial_trace c i v w l0 n0 :
  log w = l0 -> clock_calls w = n0 ->
  wp True (bench_trial P c i v)
     (fun _ w' =>
        clock_calls w' = n0 /\
        exists ci t, c = Some ci /\ type ci = Some t /\
          log w' = l0 ++ bench_trace (type_at P t) (nonce P i) (len v))
     (fun r w' =>
        r = 0 /\ clock_calls w' = n0 /\
        exists d, log w' = l0 ++ d /\ Exists failing d)
     w.
Proof.
  intros HL HC. rewrite <- (app_nil_r l0) in HL.
  unfold bench_trial.
  repeat symex1; try failing_leaf;
    (split; [assumption|]); do 2 eexists;
    (split; [eassumption|]); (split; [eassumption|]);
    all_ok; unfold bench_trace;
    repeat match goal with H : _ = Some _ |- _ => rewrite H end;
    repeat match goal with H : _ = None |- _ => rewrite H end;
    the_log.
Qed.

Lemma bench_trials_trace n c i v w l0 n0 :
  log w = l0 -> clock_calls w = n0 ->
  wp True (bench_trials P n c i v)
     (fun _ w' =>
        clock_calls w' = n0 /\
        exists d, log w' = l0 ++ d /\ Forall succeeding d)
     (fun r w' =>
        r = 0 /\ clock_calls w' = n0 /\
        exists d, log w' = l0 ++ d /\ Exists failing d)
     w.
Proof.
  revert i v w l0. induction n as [|n IH]; intros i v w l0 HL HC; simpl.
  - apply wp_ret. split; [exact HC|]. exists []. rewrite app_nil_r. auto.
  - apply wp_bind.
    eapply wp_mono; [ | | apply (bench_trial_trace c i v w l0 n0 HL HC)];
      cbv beta.
    + intros v1 w1 (HC1 & ci & t & _ & _ & HL1).
      eapply wp_mono; [ | | apply (IH (i + 1) v1 w1 _ HL1 HC1)]; cbv beta.
      * intros _ w2 (HC2 & d & HL2 & F). split; [exact HC2|].
        eexists. rewrite <- app_assoc in HL2. split; [exact HL2|].
        apply Forall_app. split; [apply bench_trace_succeeding|exact F].
      * intros r w2 (Hr & HC2 & d & HL2 & Ex). split; [exact Hr|].
        split; [exact HC2|].
        eexists. rewrite <- app_assoc in HL2. split; [exact HL2|].
        apply Exists_app. right. exact Ex.
    + intros r w1 H. exact H.
Qed.

Lemma u64_product a b c :
  u64 (u64 (u64 (u64 a * b) * 8) * c) = u64 (a * b * 8 * c).
Proof.
  unfold u64.
  rewrite (Z.mul_mod_idemp_l a b) by lia.
  rewrite (Z.mul_mod_idemp_l (a * b) 8) by lia.
  rewrite (Z.mul_mod_idemp_l (a * b * 8) c) by lia.
  reflexivity.
Qed.

Lemma fn_returned {R} (m : M W R R) (Post : R -> world W -> Prop) w r w' :
  wp True m Post Post w -> fn m w = Returned r w' -> Post r w'.
Proof.
  unfold wp, fn. destruct (m w); intros H E; inversion E; subst; exact H.
Qed.

Lemma quotient_positive n e :
  0 <= n -> 0 <= e -> (0 < n / e <-> 0 < e <= n).
Proof.
  intros Hn He. destruct (Z.eq_dec e 0) as [->|Hne].
  - rewrite Z.div_0_r. lia.
  - split.
    + intros Hq. split; [lia|].
      destruct (Z_lt_le_dec n e) as [Hlt|Hle]; [|exact Hle].
      rewrite Z.div_small in Hq by lia. lia.
    + intros [_ Hle]. apply Z.div_str_pos. lia.
Qed.

Lemma u64_nonneg x : 0 <= u64 x.
Proof. unfold u64. apply Z.mod_pos_bound. lia. Qed.

Lemma srtp_cipher_bits_per_second_body_result c n t w :
  wp True (srtp_cipher_bits_per_second_body P c n t)
     (bench_result P n t w) (bench_result P n t w) w.
Proof.
  unfold srtp_cipher_bits_per_second_body, bench_result.
  apply wp_bind, wp_call.
  destruct (srtp_crypto_alloc P _ (mem w)) as [[buf|] m] eqn:Ea;
    cbn [fst snd present].
  - apply wp_bind, wp_call. cbn [fst snd clock].
    apply wp_bind.
    match goal with
    | |- wp _ _ _ _ ?w0 =>
        eapply wp_mono;
          [ | | apply (bench_trials_trace (Z.to_nat t) c 0 _ w0 (log w)
                         (S (clock_calls w)) eq_refl eq_refl)]
    end; cbv beta.
    + intros _ w1 (HC1 & d & HL1 & F).
      apply wp_bind, wp_call. apply wp_bind, wp_modify.
      unfold clock. cbn [fst snd with_mem clock_calls]. rewrite HC1.
      set (elapsed := clock_src P (S (clock_calls w)) -
                      clock_src P (clock_calls w)).
      destruct (elapsed =? 0) eqn:Ez; apply wp_return;
        (exists d; split; [exact HL1|]).
      * apply Z.eqb_eq in Ez.
        do 3 (split; [intros _; reflexivity|]).
        split; [|intros _; reflexivity].
        intros _ _ Hne. contradiction.
      * apply Z.eqb_neq in Ez. rewrite u64_product.
        split; [discriminate|].
        split; [intros Ex; destruct (failing_not_all_succeeding _ Ex F)|].
        split; [intros; contradiction|].
        split.
        { intros _ _ _. split; [reflexivity|].
          apply quotient_positive; apply u64_nonneg. }
        { intros [->| ->].
          - rewrite Z.mul_0_r, !Z.mul_0_l. reflexivity.
          - rewrite Z.mul_0_r. reflexivity. }
    + intros r w1 (Hr & _ & d & HL1 & Ex).
      exists d. split; [exact HL1|]. subst r.
      do 3 (split; [intros _; reflexivity|]).
      split; [|intros _; reflexivity].
      intros _ F. destruct (failing_not_all_succeeding _ Ex F).
  - apply wp_return. exists []. rewrite app_nil_r.
    split; [reflexivity|].
    do 3 (split; [intros _; reflexivity|]).
    split; [discriminate|intros _; reflexivity].
Qed.

(** C7 (amended). The benchmark returns exactly 0 when the allocation of
    the scratch buffer fails, when a call of [srtp_cipher_set_iv],
    [srtp_cipher_set_aad], [srtp_cipher_encrypt] or [srtp_cipher_get_tag]
    fails in any trial, and when the two readings of the clock are equal.
    In every other case it returns the 64-bit quotient of
    [CLOCKS_PER_SEC * num_trials * 8 * octets_in_buffer] (modulo 2^64) by the
    elapsed clock ticks; this value is strictly positive exactly when the
    dividend is at least the elapsed ticks, and it is 0 again for zero trials
    or an empty payload. *)
Theorem bits_per_second_result :
  forall c octets_in_buffer num_trials (w w' : world W) r,
    srtp_cipher_bits_per_second P c octets_in_buffer num_trials w
      = Returned r w' ->
    bench_result P octets_in_buffer num_trials w r w'.
Proof.
  intros c n t w w' r H.
  exact (fn_returned _ _ _ _ _
           (srtp_cipher_bits_per_second_body_result c n t w) H).
Qed.

(** ** The AEAD steps *)

Lemma engine_events_no_aead tc enc d :
  Forall (engine_event false tc enc) d -> aead_calls d = [].
Proof.
  induction 1 as [|e d He _ IH]; [reflexivity|].
  unfold aead_calls in *. simpl.
  destruct e; simpl in *; try exact IH.
  - destruct He as [He _]. discriminate.
  - discriminate.
Qed.

Lemma test_encrypt_events c tc w w' :
  finishes (test_encrypt P c tc) w w' ->
  exists d, log w' = log w ++ d /\
            Forall (engine_event (gcm_instance P c) tc
                      (fun n => n = plaintext_length_octets tc)) d.
Proof.
  intros Hrun.
  refine (wp_finishes (test_encrypt P c tc)
            (fun w' => exists d, log w' = log w ++ d /\
               Forall (engine_event (gcm_instance P c) tc
                         (fun n => n = plaintext_length_octets tc)) d)
            w w' _ Hrun).
  eapply wp_mono; [ | | apply (test_encrypt_trace c tc w _ eq_refl)];
    cbv beta.
  - intros _ w1 HL. eexists. split; [exact HL|].
    apply (encrypt_trace_running c). reflexivity.
  - intros _ w1 (d & HL & [_ F]). exists d. auto.
Qed.

Lemma test_decrypt_events c tc w w' :
  finishes (test_decrypt P c tc) w w' ->
  exists d, log w' = log w ++ d /\
            Forall (engine_event (gcm_instance P c) tc
                      (fun n => n = plaintext_length_octets tc)) d.
Proof.
  intros Hrun.
  refine (wp_finishes (test_decrypt P c tc)
            (fun w' => exists d, log w' = log w ++ d /\
               Forall (engine_event (gcm_instance P c) tc
                         (fun n => n = plaintext_length_octets tc)) d)
            w w' _ Hrun).
  eapply wp_mono; [ | | apply (test_decrypt_trace c tc w _ eq_refl)];
    cbv beta.
  - intros _ w1 HL. eexists. split; [exact HL|].
    apply (decrypt_trace_running c).
  - intros _ w1 (d & HL & [_ F]). exists d. auto.
Qed.

Lemma random_trial_events c tc w w' :
  finishes (random_trial P c tc) w w' ->
  exists d, log w' = log w ++ d /\
            Forall (engine_event (gcm_instance P c) tc trial_bound) d.
Proof.
  intros Hrun.
  refine (wp_finishes (random_trial P c tc)
            (fun w' => exists d, log w' = log w ++ d /\
               Forall (engine_event (gcm_instance P c) tc trial_bound) d)
            w w' _ Hrun).
  eapply wp_mono; [ | | apply (random_trial_trace c tc w _ eq_refl)];
    cbv beta.
  - intros _ w1 (k & n & n' & HL & Hb). eexists. split; [exact HL|].
    apply (running_app c);
      [apply encrypt_trace_running; exact Hb|apply decrypt_trace_running].
  - intros _ w1 (d & HL & [_ F]). exists d. auto.
Qed.

Lemma get_tag_if_gcm_skips ci len w :
  is_gcm P ci = false -> get_tag_if_gcm P (Some ci) len w = Ok len w.
Proof.
  intros G. unfold get_tag_if_gcm, bind, defined, ret. rewrite G.
  reflexivity.
Qed.

Lemma get_tag_if_gcm_adds ci len w out tl w1 b' :
  is_gcm P ci = true ->
  srtp_cipher_get_tag P (Some ci) (tag_len w) w
    = (srtp_err_status_ok, out, tl, w1) ->
  store (buffer w1) len out = Some b' ->
  get_tag_if_gcm P (Some ci) len w
    = Ok (u64 (len + tl)) (set_tag_len tl (set_buffer b' w1)).
Proof.
  intros G Hcall Hstore.
  unfold get_tag_if_gcm, bind, defined, ret. rewrite G.
  unfold gets, call. rewrite Hcall.
  unfold store_buffer, bind, gets, defined. rewrite Hstore.
  reflexivity.
Qed.

(** ** The length the engines go on with after the encryption *)

(** Up to the call of [srtp_cipher_encrypt]. *)
Ltac to_encryption :=
  repeat lazymatch goal with
         | |- wp _ (bind (call (srtp_cipher_encrypt _ _ _ _ _)) _) _ _ _ =>
             fail
         | |- wp _ _ _ _ _ => symex1
         end.

(** One statement, keeping the state and the results of the calls of
    [srtp_cipher_encrypt] and [srtp_cipher_get_tag] as they are. *)
Ltac plain1 :=
  lazymatch goal with
  | |- wp _ (bind _ _) _ _ _ => apply wp_bind
  | |- wp _ (ret _) _ _ _ => apply wp_ret
  | |- wp _ (return_ _) _ _ _ => apply wp_return
  | |- wp True (defined (Some ?a)) _ _ _ =>
      let Heq := fresh in
      apply wp_defined; intros ? Heq; injection Heq as <-
  | |- wp True (defined None) _ _ _ => exact I
  | |- wp True (defined _) _ _ _ => apply wp_defined; intros ? ?
  | |- wp _ (gets _) _ _ _ => apply wp_gets
  | |- wp _ (modify _) _ _ _ => apply wp_modify
  | |- wp _ (call (srtp_cipher_dealloc P _)) _ _ _ => apply wp_call
  | |- wp _ (call (srtp_cipher_encrypt P ?c ?b ?n ?d)) _ _ ?w =>
      apply wp_call;
      destruct (srtp_cipher_encrypt P c b n d w) as [[[? ?] ?] ?] eqn:?;
      cbn [fst snd]
  | |- wp _ (call (srtp_cipher_get_tag P ?c ?t)) _ _ ?w =>
      apply wp_call;
      destruct (srtp_cipher_get_tag P c t w) as [[[? ?] ?] ?] eqn:?;
      cbn [fst snd]
  | |- wp _ (dealloc_return _ _ _) _ _ _ => unfold dealloc_return
  | |- wp _ (check _ _ _) _ _ _ => unfold check
  | |- wp _ (store_buffer _ _) _ _ _ => unfold store_buffer
  | |- wp _ (get_tag_if_gcm _ _ _) _ _ _ => unfold get_tag_if_gcm
  | |- wp _ (if is_gcm P ?ci then _ else _) _ _ _ =>
      match goal with G : is_gcm P ci = _ |- _ => rewrite G end
  | |- wp _ (if ?b then _ else _) _ _ _ => destruct b eqn:?
  end.

(** A path that ran to its end: the results kept are those of the
    statement. *)
Ltac lengths_leaf G :=
  unfold tag_appended; cbn [gcm_instance]; rewrite G; cbn [aad_events app];
  match goal with
  | Hlen : negb (_ =? _) = false |- _ =>
      apply negb_false_iff, Z.eqb_eq in Hlen
  end;
  do 4 eexists; split; [eassumption|]; split; [eassumption|];
  eexists; split; [eassumption|];
  first [ do 4 eexists; split; [eassumption|]; split; [eassumption|];
          split; [symmetry; eassumption|reflexivity]
        | split; [symmetry; eassumption|reflexivity] ].

Lemma test_encrypt_lengths c tc w l0 :
  log w = l0 ->
  wp True (test_encrypt P c tc)
     (fun _ w' =>
        exists wa out n we,
          log wa = l0 ++ [EvInit (key tc) srtp_err_status_ok;
                          EvSetIv (idx tc) srtp_direction_encrypt
                                  srtp_err_status_ok]
                      ++ aad_events (gcm_instance P c) tc /\
          srtp_cipher_encrypt P c (buffer wa) (plaintext_length_octets tc)
                              SELF_TEST_BUF_OCTETS wa
            = (srtp_err_status_ok, out, n, we) /\
          tag_appended P c out n we (ciphertext_length_octets tc) w')
     (fun _ _ => True)
     w.
Proof.
  intros HL. rewrite <- (app_nil_r l0) in HL.
  unfold test_encrypt.
  destruct c as [ci|]; [destruct (is_gcm P ci) eqn:G|];
    to_encryption; try exact I; repeat plain1; try exact I;
    all_ok; lengths_leaf G.
Qed.

(** The trace at the state reached after the tag, from the results kept;
    the state itself is forgotten. *)
Ltac log_after_tag l0 :=
  match goal with
  | He : srtp_cipher_encrypt P ?c ?b ?n ?d ?wa = _ |- _ =>
      let Hle := fresh "Hle" in
      pose proof (srtp_cipher_encrypt_logged c b n d wa) as Hle;
      rewrite He in Hle; cbn [fst snd] in Hle; destruct Hle as [Hle _];
      match goal with
      | HL : log wa = l0 ++ _ |- _ => rewrite HL in Hle
      end;
      try match goal with
          | Ht : srtp_cipher_get_tag P ?c' ?t ?wx = _ |- _ =>
              let Hlt := fresh "Hlt" in
              pose proof (srtp_cipher_get_tag_logged c' t wx) as Hlt;
              rewrite Ht in Hlt; cbn [fst snd] in Hlt;
              destruct Hlt as [Hlt _];
              cbn [log set_buffer set_tag_len] in Hlt;
              rewrite Hle in Hlt; clear Hle; rename Hlt into Hle
          end;
      match goal with
      | |- wp _ _ _ _ ?x =>
          let wc := fresh "w" in
          let Hwc := fresh in
          let HLc := fresh "HL" in
          remember x as wc eqn:Hwc;
          pose proof (f_equal (@log W) Hwc) as HLc;
          cbn [log set_buffer set_tag_len] in HLc;
          rewrite Hle in HLc; rewrite <- ?app_assoc in HLc;
          cbn [app] in HLc; clear Hwc Hle
      end
  end.

(** A trial that ran to its end. *)
Ltac trial_leaf G :=
  unfold tag_appended, encrypt_trace, decrypt_trace, tag_events;
  cbn [gcm_instance]; rewrite G; cbn [aad_events app];
  do 8 eexists; split; [eassumption|]; split; [eassumption|];
  split;
  [ eexists; split; [eassumption|];
    first [ do 4 eexists; split; [eassumption|]; split; [eassumption|];
            split; reflexivity
          | split; reflexivity ]
  | eassumption ].

Lemma random_trial_lengths c tc w l0 :
  log w = l0 ->
  wp True (random_trial P c tc)
     (fun _ w' =>
        exists k plen wa out n we len w2,
          log wa = l0 ++ [EvInit k srtp_err_status_ok;
                          EvSetIv (idx tc) srtp_direction_encrypt
                                  srtp_err_status_ok]
                      ++ aad_events (gcm_instance P c) tc /\
          srtp_cipher_encrypt P c (buffer wa) plen SELF_TEST_BUF_OCTETS wa
            = (srtp_err_status_ok, out, n, we) /\
          tag_appended P c out n we len w2 /\
          log w' = l0 ++ encrypt_trace (gcm_instance P c) tc k plen
                      ++ decrypt_trace (gcm_instance P c) tc k len)
     (fun _ _ => True)
     w.
Proof.
  intros HL. rewrite <- (app_nil_r l0) in HL.
  unfold random_trial.
  destruct c as [ci|]; [destruct (is_gcm P ci) eqn:G|];
    to_encryption; try exact I; repeat plain1; try exact I;
    log_after_tag l0; repeat symex1; try exact I;
    all_ok; trial_leaf G.
Qed.

(** C10. In the known-answer tests and in the random trials the AEAD steps
    are taken exactly for an instance whose [algorithm] is
    [SRTP_AES_GCM_128] or [SRTP_AES_GCM_256].  For any other instance no
    path of either engine calls [srtp_cipher_set_aad] or
    [srtp_cipher_get_tag], whatever operations its cipher type has.  A
    direction that runs to its end calls them, for a GCM instance, once
    before each transform and once after the encryption; the tag is stored
    behind the ciphertext and its length is added to the output length.
    The engines go on with that sum: in a known-answer case that passes
    the encryption, the ciphertext length of the test vector is the length
    [srtp_cipher_encrypt] returned plus, for a GCM instance, the length
    [srtp_cipher_get_tag] returned; in a random trial that runs to its end
    this is the length the decryption is called with.  For any other
    instance it is the length [srtp_cipher_encrypt] returned.  A trial of
    the benchmark instead makes the AEAD calls exactly when the cipher type
    of the instance has the operation, whatever its [algorithm]. *)
Theorem aead_steps_follow_algorithm_identity :
  forall c tc (w w' : world W),
    (forall ci, gcm_instance P (Some ci) = true <->
                algorithm ci = SRTP_AES_GCM_128 P \/
                algorithm ci = SRTP_AES_GCM_256 P) /\
    (finishes (test_encrypt P c tc) w w' \/
     finishes (test_decrypt P c tc) w w' \/
     finishes (random_trial P c tc) w w' ->
     exists d, log w' = log w ++ d /\
               (gcm_instance P c = false -> aead_calls d = [])) /\
    (test_encrypt P c tc w = Ok tt w' ->
     exists d, log w' = log w ++ d /\
               aead_calls d = aad_events (gcm_instance P c) tc
                              ++ tag_events (gcm_instance P c)) /\
    (test_decrypt P c tc w = Ok tt w' ->
     exists d, log w' = log w ++ d /\
               aead_calls d = aad_events (gcm_instance P c) tc) /\
    (random_trial P c tc w = Ok tt w' ->
     exists d, log w' = log w ++ d /\
               aead_calls d = aad_events (gcm_instance P c) tc
                              ++ tag_events (gcm_instance P c)
                              ++ aad_events (gcm_instance P c) tc) /\
    (forall ci len, c = Some ci -> is_gcm P ci = false ->
       get_tag_if_gcm P c len w = Ok len w) /\
    (forall ci len out tl w1 b', c = Some ci -> is_gcm P ci = true ->
       srtp_cipher_get_tag P c (tag_len w) w
         = (srtp_err_status_ok, out, tl, w1) ->
       store (buffer w1) len out = Some b' ->
       get_tag_if_gcm P c len w
         = Ok (u64 (len + tl)) (set_tag_len tl (set_buffer b' w1))) /\
    (test_encrypt P c tc w = Ok tt w' ->
     exists wa out n we,
       log wa = log w ++ [EvInit (key tc) srtp_err_status_ok;
                          EvSetIv (idx tc) srtp_direction_encrypt
                                  srtp_err_status_ok]
                      ++ aad_events (gcm_instance P c) tc /\
       srtp_cipher_encrypt P c (buffer wa) (plaintext_length_octets tc)
                           SELF_TEST_BUF_OCTETS wa
         = (srtp_err_status_ok, out, n, we) /\
       tag_appended P c out n we (ciphertext_length_octets tc) w') /\
    (random_trial P c tc w = Ok tt w' ->
     exists k plen wa out n we len w2,
       log wa = log w ++ [EvInit k srtp_err_status_ok;
                          EvSetIv (idx tc) srtp_direction_encrypt
                                  srtp_err_status_ok]
                      ++ aad_events (gcm_instance P c) tc /\
       srtp_cipher_encrypt P c (buffer wa) plen SELF_TEST_BUF_OCTETS wa
         = (srtp_err_status_ok, out, n, we) /\
       tag_appended P c out n we len w2 /\
       log w' = log w ++ encrypt_trace (gcm_instance P c) tc k plen
                      ++ decrypt_trace (gcm_instance P c) tc k len) /\
    (forall i v v', bench_trial P c i v w = Ok v' w' ->
       exists ci t, c = Some ci /\ type ci = Some t /\
         log w' = log w ++ bench_trace (type_at P t) (nonce P i) (len v) /\
         aead_calls (bench_trace (type_at P t) (nonce P i) (len v)) =
           (if present (set_aad (type_at P t))
            then [EvSetAad [0; 0; 0; 0] 4 srtp_err_status_ok] else [])
           ++ (if present (get_tag (type_at P t))
               then [EvGetTag srtp_err_status_ok] else [])).
Proof.
  intros c tc w w'.
  split.
  { intros ci. unfold gcm_instance, is_gcm.
    rewrite orb_true_iff, !Z.eqb_eq. reflexivity. }
  split.
  { intros [H|[H|H]];
      [apply test_encrypt_events in H
      |apply test_decrypt_events in H
      |apply random_trial_events in H];
      destruct H as (d & HL & F); exists d; (split; [exact HL|]);
      intros G; rewrite G in F; exact (engine_events_no_aead _ _ _ F). }
  split.
  { intros H.
    pose proof (wp_ok _ _ _ _ _ _ (test_encrypt_trace c tc w _ eq_refl) H)
      as HL.
    eexists. split; [exact HL|]. destruct (gcm_instance P c); reflexivity. }
  split.
  { intros H.
    pose proof (wp_ok _ _ _ _ _ _ (test_decrypt_trace c tc w _ eq_refl) H)
      as HL.
    eexists. split; [exact HL|]. destruct (gcm_instance P c); reflexivity. }
  split.
  { intros H.
    pose proof (wp_ok _ _ _ _ _ _ (random_trial_trace c tc w _ eq_refl) H)
      as (k & n & n' & HL & _).
    eexists. split; [exact HL|]. destruct (gcm_instance P c); reflexivity. }
  split.
  { intros ci len -> G. apply get_tag_if_gcm_skips. exact G. }
  split.
  { intros ci len out tl w1 b' -> G Hc Hs.
    exact (get_tag_if_gcm_adds ci len w out tl w1 b' G Hc Hs). }
  split.
  { intros H.
    exact (wp_ok _ _ _ _ _ _ (test_encrypt_lengths c tc w _ eq_refl) H). }
  split.
  { intros H.
    exact (wp_ok _ _ _ _ _ _ (random_trial_lengths c tc w _ eq_refl) H). }
  intros i v v' H.
  pose proof (wp_ok _ _ _ _ _ _
                (bench_trial_trace c i v w _ _ eq_refl eq_refl) H)
    as (_ & ci & t & Hc & Ht & HL).
  exists ci, t. repeat (split; [assumption|]).
  unfold bench_trace.
  destruct (present (set_aad (type_at P t))),
           (present (get_tag (type_at P t))); reflexivity.
Qed.

(** ** The dispatch layer *)

(** C2. [srtp_cipher_output] does not test its instance: with a null
    instance, or an instance without a cipher type, it dereferences a null
    pointer, where [srtp_cipher_encrypt], given the same arguments, returns
    [srtp_err_status_bad_param]. *)
Theorem srtp_cipher_output_dereferences_null :
  forall s k a src n d (w : world W),
    srtp_cipher_output P None n w = None /\
    srtp_cipher_output P
      (Some {| type := None; state := s; key_len := k; algorithm := a |})
      n w = None /\
    fst (fst (fst (srtp_cipher_encrypt P None src n d w)))
      = srtp_err_status_bad_param /\
    fst (fst (fst (srtp_cipher_encrypt P
      (Some {| type := None; state := s; key_len := k; algorithm := a |})
      src n d w))) = srtp_err_status_bad_param.
Proof. intros. repeat split. Qed.

(** With a cipher type and a null state, [srtp_cipher_output] still calls
    the [encrypt] of the type, on the null state, and returns its status;
    [srtp_cipher_encrypt] returns [srtp_err_status_bad_param] there without
    a call. *)
Lemma srtp_cipher_output_forwards_null_state t k a n (w : world W) :
  let c := Some {| type := Some t; state := None; key_len := k;
                   algorithm := a |} in
  let r := encrypt (type_at P t) 0 (repeat 0 (Z.to_nat n)) n n (mem w) in
  srtp_cipher_output P c n w
    = Some (fst (fst (fst r)), snd (fst (fst r)), snd (fst r),
            emit (EvOutput n (fst (fst (fst r)))) (with_mem (snd r) w)) /\
  fst (fst (fst (srtp_cipher_encrypt P c (repeat 0 (Z.to_nat n)) n n w)))
    = srtp_err_status_bad_param.
Proof.
  cbv zeta. split; [|reflexivity].
  unfold srtp_cipher_output. cbn [type state address].
  destruct (encrypt (type_at P t) 0 (repeat 0 (Z.to_nat n)) n n (mem w))
    as [[[st out] n'] m].
  reflexivity.
Qed.

Lemma checked_none c :
  checked P c = None <->
  c = None \/
  exists ci, c = Some ci /\ (type ci = None \/ state ci = None).
Proof.
  unfold checked. destruct c as [ci|].
  - destruct (type ci) as [t|] eqn:Ht, (state ci) as [s|] eqn:Hs; split;
      try discriminate; try (intros _; right; exists ci; auto; fail);
      try reflexivity.
    intros [H|(ci' & H & [H'|H'])]; [discriminate|..];
      inversion H; subst; congruence.
  - split; auto.
Qed.

(** C5. On an instance that is not null and has a cipher type and a state,
    [srtp_cipher_set_aad] and [srtp_cipher_get_tag] return
    [srtp_err_status_no_such_op] when the cipher type lacks the operation.
    That code differs from [srtp_err_status_bad_param], which they return
    when the instance, its cipher type or its state is missing; for a
    cipher without the operation these are the only two outcomes, so
    bad-parameter is returned exactly when one of the three is missing. *)
Theorem optional_operation_absent_no_such_op :
  forall c t s a n tl (w : world W),
    checked P c = Some (t, s) ->
    (set_aad t = None ->
     fst (srtp_cipher_set_aad P c a n w) = srtp_err_status_no_such_op) /\
    (get_tag t = None ->
     fst (fst (fst (srtp_cipher_get_tag P c tl w)))
       = srtp_err_status_no_such_op) /\
    srtp_err_status_no_such_op <> srtp_err_status_bad_param /\
    (forall c',
       (checked P c' = None <->
        c' = None \/
        exists ci, c' = Some ci /\ (type ci = None \/ state ci = None)) /\
       (checked P c' = None ->
        fst (srtp_cipher_set_aad P c' a n w) = srtp_err_status_bad_param /\
        fst (fst (fst (srtp_cipher_get_tag P c' tl w)))
          = srtp_err_status_bad_param) /\
       (forall t' s', checked P c' = Some (t', s') ->
          (set_aad t' = None ->
           fst (srtp_cipher_set_aad P c' a n w)
             <> srtp_err_status_bad_param) /\
          (get_tag t' = None ->
           fst (fst (fst (srtp_cipher_get_tag P c' tl w)))
             <> srtp_err_status_bad_param))).
Proof.
  intros c t s a n tl w Hc.
  split.
  { intros Hop. unfold srtp_cipher_set_aad. rewrite Hc, Hop. reflexivity. }
  split.
  { intros Hop. unfold srtp_cipher_get_tag. rewrite Hc, Hop. reflexivity. }
  split; [discriminate|].
  intros c'. split; [apply checked_none|]. split.
  - intros Hn. unfold srtp_cipher_set_aad, srtp_cipher_get_tag.
    rewrite Hn. split; reflexivity.
  - intros t' s' Hc'. split; intros Hop;
      unfold srtp_cipher_set_aad, srtp_cipher_get_tag;
      rewrite Hc', Hop; discriminate.
Qed.

(** ** The self-test without test vectors *)

(** C4. With an empty list of test vectors the self-test returns
    [srtp_err_status_cant_check] at once: the state is the one it was
    entered in, so no instance was allocated and no operation of the
    cipher was called. *)
Theorem self_test_without_vectors_cant_check :
  forall t (w : world W),
    test_data (type_at P t) = [] ->
    srtp_cipher_type_self_test P (Some t) w
      = Returned srtp_err_status_cant_check w /\
    forall ct, srtp_cipher_type_test P ct [] w
                 = Returned srtp_err_status_cant_check w.
Proof.
  intros t w H. split.
  - unfold srtp_cipher_type_self_test. rewrite H. reflexivity.
  - intros ct. reflexivity.
Qed.

(** ** Runs without undefined behaviour *)

Lemma wp_false_returns {R A} (m : M W R A) (E : R -> world W -> Prop) w :
  wp False m (fun _ _ => False) E w ->
  exists r w', m w = Return r w' /\ E r w'.
Proof.
  unfold wp. destruct (m w) as [a w'|r w'|]; try contradiction.
  intros H. exists r, w'. auto.
Qed.

Lemma store_some (dst src : octets) (off : Z) :
  0 <= off -> off + Z.of_nat (length src) <= Z.of_nat (length dst) ->
  exists dst', store dst off src = Some dst'.
Proof.
  intros H0 H1. unfold store.
  apply Z.leb_le in H0, H1. rewrite H0, H1. simpl. eauto.
Qed.

Lemma load_some (src : octets) (n : size_t) :
  n <= Z.of_nat (length src) ->
  load src n = Some (firstn (Z.to_nat n) src).
Proof. intros H. unfold load. apply Z.leb_le in H. rewrite H. auto. Qed.

Lemma srtp_cipher_rand_u32_for_tests_frame w :
  let w1 := snd (srtp_cipher_rand_u32_for_tests P w) in
  rand_calls w1 = (rand_calls w + 4)%nat /\ log w1 = log w /\
  buffer w1 = buffer w /\ buffer2 w1 = buffer2 w /\
  trial_key w1 = trial_key w /\ trial_iv w1 = trial_iv w.
Proof.
  unfold srtp_cipher_rand_u32_for_tests, srtp_cipher_rand_for_tests.
  pose proof (rand_octets_frame (Z.to_nat 4) w) as H.
  destruct (rand_octets P (Z.to_nat 4) w) as [r w1]. simpl in *.
  change (Pos.to_nat 4) with 4%nat in H. tauto.
Qed.

(** C9. When the key length of the first test vector exceeds
    [MAX_KEY_LEN], a random trial deallocates the instance and returns
    [srtp_err_status_cant_check] before it draws a key: the only call it
    makes is the deallocation, the calls of [rand()] are the four of the
    length and those of the plaintext, and the arrays [key] and [iv] are
    left as they were.  Since the loop starts with such a trial, the
    random tests as a whole return there. *)
Theorem oversized_key_trial_cant_check :
  forall ct c tc (w : world W),
    declared_sizes w ->
    MAX_KEY_LEN < key_length_octets tc ->
    (exists w',
       random_trial P c tc w = Return srtp_err_status_cant_check w' /\
       (exists st, log w' = log w ++ [EvDealloc c st]) /\
       trial_key w' = trial_key w /\ trial_iv w' = trial_iv w /\
       rand_calls w' =
         (rand_calls w + 4 +
          Z.to_nat (fst (srtp_cipher_rand_u32_for_tests P w)
                    mod (SELF_TEST_BUF_OCTETS - 64)))%nat) /\
    (fst (fst (srtp_cipher_type_alloc P ct (key_length_octets tc)
                 (tag_length_octets tc) w)) = srtp_err_status_ok ->
     exists w' c1 st,
       random_tests P ct tc w = Return srtp_err_status_cant_check w' /\
       log w' = log w ++ [EvAlloc (key_length_octets tc)
                            (tag_length_octets tc) c1 srtp_err_status_ok;
                          EvDealloc c1 st]).
Proof.
  intros ct c tc w Hsz Hkey.
  assert (Htrial : forall c (w : world W), declared_sizes w ->
    wp False (random_trial P c tc) (fun _ _ => False)
      (fun r w' =>
         r = srtp_err_status_cant_check /\
         (exists st, log w' = log w ++ [EvDealloc c st]) /\
         trial_key w' = trial_key w /\ trial_iv w' = trial_iv w /\
         rand_calls w' =
           (rand_calls w + 4 +
            Z.to_nat (fst (srtp_cipher_rand_u32_for_tests P w)
                      mod (SELF_TEST_BUF_OCTETS - 64)))%nat) w).
  { clear c w Hsz. intros c w (Hb & Hb2 & _ & _).
    unfold random_trial.
    apply wp_bind, wp_call.
    pose proof (srtp_cipher_rand_u32_for_tests_frame w) as F1.
    cbv zeta in F1.
    set (r := fst (srtp_cipher_rand_u32_for_tests P w)) in *.
    set (w1 := snd (srtp_cipher_rand_u32_for_tests P w)) in *.
    destruct F1 as (R1 & L1 & B1 & B21 & K1 & V1).
    assert (Hlen : 0 <= r mod (SELF_TEST_BUF_OCTETS - 64) < 64)
      by (apply Z.mod_pos_bound; reflexivity).
    set (plaintext_len := r mod (SELF_TEST_BUF_OCTETS - 64)) in *.
    apply wp_bind, wp_call.
    unfold srtp_cipher_rand_for_tests.
    pose proof (rand_octets_frame (Z.to_nat plaintext_len) w1) as F2.
    cbv zeta in F2.
    set (p := fst (rand_octets P (Z.to_nat plaintext_len) w1)) in *.
    set (w2 := snd (rand_octets P (Z.to_nat plaintext_len) w1)) in *.
    destruct F2 as (Lp & R2 & _ & _ & L2 & B2 & B22 & K2 & V2 & _).
    change SELF_TEST_BUF_OCTETS with 128 in Hb, Hb2.
    destruct (store_some (buffer w2) p 0) as [b' Hs]; [lia|
      rewrite B2, B1; lia|].
    unfold store_buffer.
    apply wp_bind, wp_bind, wp_gets, wp_bind.
    apply (wp_defined_some _ _ b' _ _ _ Hs). apply wp_modify.
    apply wp_bind, wp_gets. cbn [buffer set_buffer].
    pose proof (store_length _ _ _ _ Hs) as Lb'.
    apply wp_bind.
    apply (wp_defined_some _ _ _ _ _ _
             (load_some b' plaintext_len
                ltac:(rewrite Lb', B2, B1; lia))).
    apply wp_bind, wp_gets. cbn [buffer2 set_buffer].
    destruct (store_some (buffer2 w2)
                (firstn (Z.to_nat plaintext_len) b') 0) as [b2' Hs2];
      [lia|rewrite length_firstn, B22, B21; lia|].
    apply wp_bind.
    apply (wp_defined_some _ _ b2' _ _ _ Hs2).
    apply wp_bind, wp_modify.
    assert (Hk : (key_length_octets tc >? MAX_KEY_LEN) = true)
      by (apply Z.gtb_lt; exact Hkey).
    rewrite Hk. unfold dealloc_return.
    apply wp_bind, wp_call, wp_return.
    split; [reflexivity|].
    match goal with
    | |- context [srtp_cipher_dealloc P c ?w3] =>
        destruct (srtp_cipher_dealloc_logged c w3)
          as (HL & HR & _ & _ & _ & HK & HV & _)
    end.
    split.
    { eexists. rewrite HL. cbn [log set_buffer2 set_buffer].
      rewrite L2, L1. reflexivity. }
    cbn [trial_key trial_iv rand_calls set_buffer2 set_buffer] in HK, HV, HR.
    rewrite HK, HV, HR, K2, K1, V2, V1, R2, R1. auto. }
  split.
  - destruct (wp_false_returns _ _ _ (Htrial c w Hsz))
      as (r & w' & Hrun & -> & Hrest).
    exists w'. split; [exact Hrun|exact Hrest].
  - intros Ha. unfold random_tests, bind at 1, call.
    pose proof (srtp_cipher_type_alloc_logged ct (key_length_octets tc)
                  (tag_length_octets tc) w) as (HLa & _ & _ & Ba & B2a & Ka & Va & _).
    destruct (srtp_cipher_type_alloc P ct (key_length_octets tc)
                (tag_length_octets tc) w) as [[st c1] w1].
    cbn [fst snd] in *. subst st. cbn [failed].
    assert (Hsz1 : declared_sizes w1).
    { unfold declared_sizes in *. rewrite Ba, B2a, Ka, Va. exact Hsz. }
    destruct (wp_false_returns _ _ _ (Htrial c1 w1 Hsz1))
      as (r & w' & Hrun & -> & (st & HL) & _).
    exists w', c1, st. split.
    + unfold NUM_RAND_TESTS. cbn [random_trials Nat.of_num_uint
        Nat.of_uint Nat.of_uint_acc Nat.tail_mul Nat.tail_addmul
        Nat.tail_add]. unfold bind at 1. unfold bind at 1.
      rewrite Hrun. reflexivity.
    + rewrite HL, HLa, <- app_assoc. reflexivity.
Qed.

(** ** The capacity guard of the known-answer tests *)

Lemma bind_ok {R A B} (m : M W R A) (f : A -> M W R B) w a w1 :
  m w = Ok a w1 -> bind m f w = f a w1.
Proof. unfold bind. intros ->. reflexivity. Qed.

Lemma bind_return {R A B} (m : M W R A) (f : A -> M W R B) w r w1 :
  m w = Return r w1 -> bind m f w = Return r w1.
Proof. unfold bind. intros ->. reflexivity. Qed.

Lemma known_answer_tests_app ct pre l w :
  known_answer_tests P ct (pre ++ l) w =
  bind (known_answer_tests P ct pre)
       (fun _ => known_answer_tests P ct l) w.
Proof.
  revert w. induction pre as [|tc pre IH]; intros w; simpl.
  - reflexivity.
  - unfold bind in *. destruct (known_answer_case P ct tc w); auto.
Qed.

Lemma guard_fires_after_init c tc w
    (body : M W srtp_err_status_t unit) :
  SELF_TEST_BUF_OCTETS < ciphertext_length_octets tc ->
  fst (srtp_cipher_init P c (key tc) w) = srtp_err_status_ok ->
  bind (call (srtp_cipher_init P c (key tc)))
       (fun status =>
          bind (check P c status)
               (fun _ =>
                  if ciphertext_length_octets tc >? SELF_TEST_BUF_OCTETS
                  then dealloc_return P c srtp_err_status_bad_param
                  else body)) w
  = Return srtp_err_status_bad_param
      (snd (srtp_cipher_dealloc P c
              (snd (srtp_cipher_init P c (key tc) w)))).
Proof.
  intros Hlen Hinit.
  apply Z.gtb_lt in Hlen.
  unfold bind at 1, call at 1.
  destruct (srtp_cipher_init P c (key tc) w) as [st w2].
  cbn [fst snd] in *. subst st.
  unfold check, bind at 1. cbn [failed ret]. rewrite Hlen.
  unfold dealloc_return, bind, call, return_.
  destruct (srtp_cipher_dealloc P c w2). reflexivity.
Qed.

(** C3. In the known-answer tests, a test vector whose ciphertext length
    exceeds [SELF_TEST_BUF_OCTETS] makes the encryption test, and likewise
    the decryption test, deallocate the instance and return
    [srtp_err_status_bad_param] once the key is loaded: the test case, and
    with it the self-test, returns that code after the three calls
    allocate, initialize and deallocate, with the two scratch arrays as
    they were.  The vector is reached after the vectors [pre] passed, and
    its allocation and initialization succeed. *)
Theorem oversized_vector_bad_param :
  forall ct tc pre rest (w0 w : world W),
    SELF_TEST_BUF_OCTETS < ciphertext_length_octets tc ->
    known_answer_tests P ct pre w0 = Ok tt w ->
    let a := srtp_cipher_type_alloc P ct (key_length_octets tc)
               (tag_length_octets tc) w in
    let c := snd (fst a) in
    let i := srtp_cipher_init P c (key tc) (snd a) in
    let w' := snd (srtp_cipher_dealloc P c (snd i)) in
    fst (fst a) = srtp_err_status_ok ->
    fst i = srtp_err_status_ok ->
    test_encrypt P c tc (snd a) = Return srtp_err_status_bad_param w' /\
    test_decrypt P c tc (snd a) = Return srtp_err_status_bad_param w' /\
    known_answer_case P ct tc w = Return srtp_err_status_bad_param w' /\
    srtp_cipher_type_test P ct (pre ++ tc :: rest) w0
      = Returned srtp_err_status_bad_param w' /\
    (exists st,
       log w' = log w ++ [EvAlloc (key_length_octets tc)
                            (tag_length_octets tc) c srtp_err_status_ok;
                          EvInit (key tc) srtp_err_status_ok;
                          EvDealloc c st]) /\
    buffer w' = buffer w /\ buffer2 w' = buffer2 w.
Proof.
  intros ct tc pre rest w0 w Hlen Hpre a c i w' Ha Hi.
  assert (He : test_encrypt P c tc (snd a)
               = Return srtp_err_status_bad_param w')
    by (apply guard_fires_after_init; assumption).
  assert (Hd : test_decrypt P c tc (snd a)
               = Return srtp_err_status_bad_param w')
    by (apply guard_fires_after_init; assumption).
  assert (Hc : known_answer_case P ct tc w
               = Return srtp_err_status_bad_param w').
  { unfold known_answer_case, bind at 1, call at 1.
    fold a. destruct a as [[st c1] w1] eqn:Ea.
    cbn [fst snd] in *. subst st. cbn [failed].
    apply bind_return. exact He. }
  split; [exact He|]. split; [exact Hd|]. split; [exact Hc|].
  split.
  { unfold srtp_cipher_type_test, fn, srtp_cipher_type_test_body.
    assert (Hk : known_answer_tests P ct (pre ++ tc :: rest) w0
                 = Return srtp_err_status_bad_param w').
    { rewrite known_answer_tests_app, (bind_ok _ _ _ _ _ Hpre).
      simpl. apply bind_return. exact Hc. }
    destruct (pre ++ tc :: rest) as [|first l] eqn:El.
    - destruct pre; discriminate.
    - rewrite (bind_return _ _ _ _ _ Hk). reflexivity. }
  destruct (srtp_cipher_type_alloc_logged ct (key_length_octets tc)
              (tag_length_octets tc) w)
    as (L1 & _ & _ & B1 & B21 & _).
  destruct (srtp_cipher_init_logged c (key tc) (snd a))
    as (L2 & _ & _ & B2 & B22 & _).
  destruct (srtp_cipher_dealloc_logged c (snd i))
    as (L3 & _ & _ & B3 & B23 & _).
  fold a in L1, B1, B21. fold i in L2, B2, B22. fold w' in L3, B3, B23.
  rewrite Ha in L1. rewrite Hi in L2.
  split.
  { eexists. rewrite L3, L2, L1, <- !app_assoc. reflexivity. }
  split; congruence.
Qed.

(** ** More on the dispatch layer *)

(** X1. Given a null instance, or an instance whose cipher type or whose
    state is null, [srtp_cipher_init], [srtp_cipher_set_iv],
    [srtp_cipher_encrypt], [srtp_cipher_decrypt], [srtp_cipher_set_aad] and
    [srtp_cipher_get_tag] return [srtp_err_status_bad_param] without
    calling the cipher: its memory is as before, nothing is stored through
    the destination pointer and the length passed by reference keeps its
    value. *)
Theorem dispatch_rejects_incomplete_instance :
  forall c k iv dir src n d a tl (w : world W),
    (c = None \/
     exists ci, c = Some ci /\ (type ci = None \/ state ci = None)) ->
    srtp_cipher_init P c k w
      = (srtp_err_status_bad_param,
         emit (EvInit k srtp_err_status_bad_param) w) /\
    srtp_cipher_set_iv P c iv dir w
      = (srtp_err_status_bad_param,
         emit (EvSetIv iv dir srtp_err_status_bad_param) w) /\
    srtp_cipher_encrypt P c src n d w
      = (srtp_err_status_bad_param, [], d,
         emit (EvEncrypt n srtp_err_status_bad_param) w) /\
    srtp_cipher_decrypt P c src n d w
      = (srtp_err_status_bad_param, [], d,
         emit (EvDecrypt n srtp_err_status_bad_param) w) /\
    srtp_cipher_set_aad P c a n w
      = (srtp_err_status_bad_param,
         emit (EvSetAad a n srtp_err_status_bad_param) w) /\
    srtp_cipher_get_tag P c tl w
      = (srtp_err_status_bad_param, [], tl,
         emit (EvGetTag srtp_err_status_bad_param) w) /\
    forall e, mem (emit e w) = mem w.
Proof.
  intros c k iv dir src n d a tl w H.
  apply (proj2 (checked_none c)) in H.
  unfold srtp_cipher_init, srtp_cipher_set_iv, srtp_cipher_encrypt,
    srtp_cipher_decrypt, srtp_cipher_set_aad, srtp_cipher_get_tag.
  rewrite H. repeat split.
Qed.

(** X2. [srtp_cipher_type_alloc] returns [srtp_err_status_bad_param] and
    delivers no instance when the cipher type is null or has no allocator.
    [srtp_cipher_dealloc] returns [srtp_err_status_bad_param] for a null
    instance and for an instance without a cipher type; unlike the other
    dispatch functions it does not test the state: an instance with a
    cipher type and a null state is handed to the deallocator of its type,
    whose status is returned, where [srtp_cipher_init] on the same instance
    returns [srtp_err_status_bad_param]. *)
Theorem alloc_dealloc_guards :
  forall ct c kl tl k (w : world W),
    ((ct = None \/ exists a, ct = Some a /\ alloc (type_at P a) = None) ->
     srtp_cipher_type_alloc P ct kl tl w
       = (srtp_err_status_bad_param, None,
          emit (EvAlloc kl tl None srtp_err_status_bad_param) w)) /\
    ((c = None \/ exists ci, c = Some ci /\ type ci = None) ->
     srtp_cipher_dealloc P c w
       = (srtp_err_status_bad_param,
          emit (EvDealloc c srtp_err_status_bad_param) w)) /\
    (forall ci t, c = Some ci -> type ci = Some t -> state ci = None ->
       let r := dealloc (type_at P t) ci (mem w) in
       srtp_cipher_dealloc P c w
         = (fst r, emit (EvDealloc c (fst r)) (with_mem (snd r) w)) /\
       fst (srtp_cipher_init P c k w) = srtp_err_status_bad_param).
Proof.
  intros ct c kl tl k w. split; [|split].
  - intros [->|(a & -> & H)]; unfold srtp_cipher_type_alloc;
      [|rewrite H]; reflexivity.
  - intros [->|(ci & -> & H)]; unfold srtp_cipher_dealloc;
      [|rewrite H]; reflexivity.
  - intros ci t -> Ht Hs r. split.
    + unfold srtp_cipher_dealloc. rewrite Ht. fold r.
      destruct r as [st m]. reflexivity.
    + unfold srtp_cipher_init, checked. rewrite Ht, Hs. reflexivity.
Qed.

(** X3. On an instance with a cipher type and a state,
    [srtp_cipher_output] is the encryption of a buffer of
    [num_octets_to_output] zero octets in place: it returns the status, the
    octets and the length that [srtp_cipher_encrypt] returns for such a
    source of that length with the same length as capacity, and leaves the
    cipher in the same memory. *)
Theorem srtp_cipher_output_is_encrypt_of_zeros :
  forall c t s n (w : world W),
    checked P c = Some (t, s) ->
    let r := srtp_cipher_encrypt P c (repeat 0 (Z.to_nat n)) n n w in
    exists w1,
      srtp_cipher_output P c n w
        = Some (fst (fst (fst r)), snd (fst (fst r)), snd (fst r), w1) /\
      mem w1 = mem (snd r) /\
      log w1 = log w ++ [EvOutput n (fst (fst (fst r)))] /\
      same_frame w w1.
Proof.
  intros c t s n w H r. subst r.
  unfold srtp_cipher_encrypt, srtp_cipher_output. rewrite H.
  unfold checked in H. destruct c as [ci|]; [|discriminate].
  destruct (type ci) as [a|]; [|discriminate].
  destruct (state ci) as [s'|]; [|discriminate].
  inversion H; subst; clear H. cbn [address].
  destruct (encrypt (type_at P a) s (repeat 0 (Z.to_nat n)) n n (mem w))
    as [[[st out] n'] m].
  eexists. split; [reflexivity|]. cbn [fst snd].
  split; [reflexivity|]. split; [reflexivity|].
  unfold same_frame. simpl. tauto.
Qed.

(** ** More on the test-only randomness *)

Lemma rand_octets_values n w :
  fst (rand_octets P n w)
  = map (fun k => Z.land (rand_src P (rand_calls w + k)) 255) (seq 0 n).
Proof.
  revert w. induction n as [|n IH]; intros w; [reflexivity|].
  cbn [rand_octets]. unfold rand at 1.
  match goal with
  | |- context [rand_octets P n ?w1] =>
      specialize (IH w1); destruct (rand_octets P n w1) as [rest w2]
  end.
  cbn [fst snd rand_calls] in *. rewrite IH.
  cbn [seq map]. rewrite Nat.add_0_r. f_equal.
  rewrite <- seq_shift, map_map. apply map_ext. intros k.
  rewrite Nat.add_succ_r. reflexivity.
Qed.

(** X4. [srtp_cipher_rand_for_tests(dest, len)] stores [len] octets: the
    [k]-th is the low eight bits of the value of the [k]-th call of
    [rand()] it makes, so a value in [0, 256).  It calls [rand()] exactly
    [len] times, not at all for a length of zero, and does nothing
    else. *)
Theorem srtp_cipher_rand_for_tests_octets :
  forall len (w : world W),
    let r := srtp_cipher_rand_for_tests P len w in
    fst r = map (fun k => Z.land (rand_src P (rand_calls w + k)) 255)
                (seq 0 (Z.to_nat len)) /\
    Z.of_nat (length (fst r)) = Z.max 0 len /\
    Forall (fun x => 0 <= x < 256) (fst r) /\
    rand_calls (snd r) = (rand_calls w + Z.to_nat len)%nat /\
    mem (snd r) = mem w /\ clock_calls (snd r) = clock_calls w /\
    log (snd r) = log w /\ buffer (snd r) = buffer w /\
    buffer2 (snd r) = buffer2 w /\ trial_key (snd r) = trial_key w /\
    trial_iv (snd r) = trial_iv w /\ tag_len (snd r) = tag_len w.
Proof.
  intros len w r. subst r. unfold srtp_cipher_rand_for_tests.
  pose proof (rand_octets_frame (Z.to_nat len) w) as F. cbv zeta in F.
  destruct F as (Hlen & F).
  split; [apply rand_octets_values|].
  split; [rewrite Hlen; lia|].
  split; [apply rand_octets_bounds|exact F].
Qed.

(** X5. [srtp_cipher_rand_u32_for_tests] calls [rand()] four times and
    returns the 32-bit value whose four octets in memory, in the byte
    order of the host, are the low eight bits of the four values. *)
Theorem srtp_cipher_rand_u32_for_tests_value :
  forall (w : world W),
    let b := fun k => Z.land (rand_src P (rand_calls w + k)) 255 in
    fst (srtp_cipher_rand_u32_for_tests P w)
      = (if big_endian P
         then b 3%nat + 256 * b 2%nat + 65536 * b 1%nat + 16777216 * b 0%nat
         else b 0%nat + 256 * b 1%nat + 65536 * b 2%nat + 16777216 * b 3%nat)
    /\ 0 <= fst (srtp_cipher_rand_u32_for_tests P w) < 2 ^ 32
    /\ rand_calls (snd (srtp_cipher_rand_u32_for_tests P w))
       = (rand_calls w + 4)%nat.
Proof.
  intros w b. split; [|split].
  - unfold srtp_cipher_rand_u32_for_tests, srtp_cipher_rand_for_tests.
    pose proof (rand_octets_values (Z.to_nat 4) w) as V.
    destruct (rand_octets P (Z.to_nat 4) w) as [r w1].
    cbn [fst] in *. rewrite V.
    change (Z.to_nat 4) with 4%nat. cbn [seq map]. fold b.
    unfold u32_of_octets. destruct (big_endian P); cbn [nth rev app];
      reflexivity.
  - apply srtp_cipher_rand_u32_for_tests_bound.
  - apply srtp_cipher_rand_u32_for_tests_frame.
Qed.

(** ** The comparison loops *)

Lemma compare_octets_ok brk n (a b : octets) s :
  compare_octets brk n a b = Some s -> failed s = false ->
  firstn n a = firstn n b /\ (n <= length a)%nat /\ (n <= length b)%nat.
Proof.
  revert a b. induction n as [|n IH]; intros a b H Hs.
  - simpl. repeat split; lia.
  - destruct a as [|x a], b as [|y b]; try discriminate.
    cbn [compare_octets] in H.
    destruct (x =? y) eqn:E.
    + apply Z.eqb_eq in E. subst y.
      destruct (IH a b H Hs) as (H1 & H2 & H3).
      cbn [firstn length]. rewrite H1. repeat split; lia.
    + destruct brk.
      * inversion H; subst. discriminate.
      * destruct (compare_octets false n a b); inversion H; subst.
        discriminate.
Qed.

(** X6. The two comparison loops of the self-test, the one that leaves at
    the first difference and the one that runs to the end, compute the
    same: over arrays that hold at least [n] octets the result is
    [srtp_err_status_ok] when the first [n] octets agree and
    [srtp_err_status_algo_fail] when they do not. *)
Theorem compare_octets_equal_prefix :
  forall brk n (a b : octets),
    (n <= length a)%nat -> (n <= length b)%nat ->
    (firstn n a = firstn n b ->
     compare_octets brk n a b = Some srtp_err_status_ok) /\
    (firstn n a <> firstn n b ->
     compare_octets brk n a b = Some srtp_err_status_algo_fail).
Proof.
  intros brk n. induction n as [|n IH]; intros a b Ha Hb.
  - split; [reflexivity|]. intros H. destruct H. reflexivity.
  - destruct a as [|x a], b as [|y b]; simpl in Ha, Hb; try lia.
    destruct (IH a b ltac:(lia) ltac:(lia)) as [IH1 IH2].
    cbn [compare_octets firstn].
    destruct (x =? y) eqn:E.
    + apply Z.eqb_eq in E. subst y. split.
      * intros H. inversion H. auto.
      * intros H. apply IH2. intros H'. apply H. rewrite H'. reflexivity.
    + apply Z.eqb_neq in E. split.
      * intros H. inversion H. contradiction.
      * intros _. destruct brk; [reflexivity|].
        destruct (list_eq_dec Z.eq_dec (firstn n a) (firstn n b)) as [e|e].
        -- rewrite (IH1 e). reflexivity.
        -- rewrite (IH2 e). reflexivity.
Qed.

(** ** What a pass of the known-answer tests means *)

Lemma gtb_false_le (a b : Z) : (a >? b) = false -> a <= b.
Proof. rewrite Z.gtb_ltb. apply Z.ltb_ge. Qed.

Lemma test_encrypt_match c tc w :
  wp True (test_encrypt P c tc)
     (fun _ w' =>
        ciphertext_length_octets tc <= SELF_TEST_BUF_OCTETS /\
        firstn (Z.to_nat (ciphertext_length_octets tc)) (buffer w')
        = firstn (Z.to_nat (ciphertext_length_octets tc)) (ciphertext tc))
     (fun _ _ => True) w.
Proof.
  remember (log w) as l0 eqn:HL. symmetry in HL.
  rewrite <- (app_nil_r l0) in HL.
  unfold test_encrypt.
  destruct c as [ci|]; [destruct (is_gcm P ci) eqn:G|];
    repeat symex1; try exact I;
    (split; [apply gtb_false_le; assumption|]);
    match goal with
    | H : compare_octets _ _ _ _ = Some _ |- _ =>
        exact (proj1 (compare_octets_ok _ _ _ _ _ H ltac:(assumption)))
    end.
Qed.

Lemma test_decrypt_match c tc w :
  wp True (test_decrypt P c tc)
     (fun _ w' =>
        firstn (Z.to_nat (plaintext_length_octets tc)) (buffer w')
        = firstn (Z.to_nat (plaintext_length_octets tc)) (plaintext tc))
     (fun _ _ => True) w.
Proof.
  remember (log w) as l0 eqn:HL. symmetry in HL.
  rewrite <- (app_nil_r l0) in HL.
  unfold test_decrypt.
  destruct c as [ci|]; [destruct (is_gcm P ci) eqn:G|];
    repeat symex1; try exact I;
    match goal with
    | H : compare_octets _ _ _ _ = Some _ |- _ =>
        exact (proj1 (compare_octets_ok _ _ _ _ _ H ltac:(assumption)))
    end.
Qed.

(** X7. The encryption test of a known-answer case runs to its end only
    when the scratch buffer, after the call of [srtp_cipher_encrypt] and,
    for AES-GCM, of [srtp_cipher_get_tag], starts with the
    [ciphertext_length_octets] octets of the expected ciphertext, a length
    within the capacity of the buffer; the decryption test only when the
    buffer, after the call of [srtp_cipher_decrypt], starts with the
    [plaintext_length_octets] octets of the expected plaintext. *)
Theorem known_answer_pass_means_match :
  forall c tc (w w' : world W),
    (test_encrypt P c tc w = Ok tt w' ->
     ciphertext_length_octets tc <= SELF_TEST_BUF_OCTETS /\
     firstn (Z.to_nat (ciphertext_length_octets tc)) (buffer w')
     = firstn (Z.to_nat (ciphertext_length_octets tc)) (ciphertext tc)) /\
    (test_decrypt P c tc w = Ok tt w' ->
     firstn (Z.to_nat (plaintext_length_octets tc)) (buffer w')
     = firstn (Z.to_nat (plaintext_length_octets tc)) (plaintext tc)).
Proof.
  intros c tc w w'. split; intros H.
  - exact (wp_ok _ _ _ _ _ _ (test_encrypt_match c tc w) H).
  - exact (wp_ok _ _ _ _ _ _ (test_decrypt_match c tc w) H).
Qed.

(** ** How a failure is reported *)

Lemma wp_returns {R A} (m : M W R A) Q E w r w' :
  wp True m Q E w -> m w = Return r w' -> E r w'.
Proof. unfold wp. intros H Hm. rewrite Hm in H. exact H. Qed.

Lemma wp_conj {R A} (m : M W R A) Q1 Q2 E1 E2 w :
  wp True m Q1 E1 w -> wp True m Q2 E2 w ->
  wp True m (fun a w' => Q1 a w' /\ Q2 a w')
            (fun r w' => E1 r w' /\ E2 r w') w.
Proof. unfold wp. destruct (m w); auto. Qed.

Ltac split_last l :=
  lazymatch l with
  | (?x :: nil) => constr:((@nil event, x))
  | (?x :: ?l') =>
      let r := split_last l' in
      lazymatch r with
      | (?i, ?z) => constr:((x :: i, z))
      end
  end.

(** A path that returns: the trace is an [error_path]. *)
Ltac error_leaf :=
  all_ok; eexists; split; [the_log|];
  unfold error_path;
  lazymatch goal with
  | |- exists d0 st, ?l = _ /\ _ =>
      let r := split_last l in
      lazymatch r with
      | (?i, EvDealloc _ ?st) =>
          exists i, st; split; [reflexivity|];
          first
            [ left; split; [repeat constructor; fail | unfold verdict; tauto]
            | right;
              let r' := split_last i in
              lazymatch r' with
              | (?i', ?e) =>
                  exists i', e; split; [reflexivity|];
                  split; [repeat constructor|];
                  split; [assumption | reflexivity]
              end ]
      end
  end.

Lemma test_encrypt_errors c tc w l0 :
  log w = l0 ->
  wp True (test_encrypt P c tc) (fun _ _ => True)
     (fun r w' => exists d, log w' = l0 ++ d /\ error_path c r d) w.
Proof.
  intros HL. rewrite <- (app_nil_r l0) in HL.
  unfold test_encrypt.
  destruct c as [ci|]; [destruct (is_gcm P ci) eqn:G|];
    repeat symex1; try exact I; error_leaf.
Qed.

Lemma test_decrypt_errors c tc w l0 :
  log w = l0 ->
  wp True (test_decrypt P c tc) (fun _ _ => True)
     (fun r w' => exists d, log w' = l0 ++ d /\ error_path c r d) w.
Proof.
  intros HL. rewrite <- (app_nil_r l0) in HL.
  unfold test_decrypt.
  destruct c as [ci|]; [destruct (is_gcm P ci) eqn:G|];
    repeat symex1; try exact I; error_leaf.
Qed.

Lemma random_trial_errors c tc w l0 :
  log w = l0 ->
  wp True (random_trial P c tc) (fun _ _ => True)
     (fun r w' => exists d, log w' = l0 ++ d /\ error_path c r d) w.
Proof.
  intros HL. rewrite <- (app_nil_r l0) in HL.
  unfold random_trial.
  destruct c as [ci|]; [destruct (is_gcm P ci) eqn:G|];
    repeat symex1; try exact I; error_leaf.
Qed.

(** X8. When the encryption test, the decryption test or a random trial
    returns, it has deallocated the instance as its last call, and the
    status of that deallocation is discarded.  If a call before it failed,
    that call is the one just before the deallocation, it is the only one
    that failed, and its status is returned unchanged; otherwise the status
    returned is [srtp_err_status_bad_param], [srtp_err_status_algo_fail] or
    [srtp_err_status_cant_check]. *)
Theorem engine_failure_is_reported :
  forall c tc (w w' : world W) r,
    test_encrypt P c tc w = Return r w' \/
    test_decrypt P c tc w = Return r w' \/
    random_trial P c tc w = Return r w' ->
    exists d, log w' = log w ++ d /\ error_path c r d.
Proof.
  intros c tc w w' r [H|[H|H]].
  - exact (wp_returns _ _ _ _ _ _ (test_encrypt_errors c tc w _ eq_refl) H).
  - exact (wp_returns _ _ _ _ _ _ (test_decrypt_errors c tc w _ eq_refl) H).
  - exact (wp_returns _ _ _ _ _ _ (random_trial_errors c tc w _ eq_refl) H).
Qed.

(** ** What the status of the self-test tells *)

Lemma first_failure_app_ok d1 d2 :
  Forall succeeding d1 -> first_failure (d1 ++ d2) = first_failure d2.
Proof.
  induction 1 as [|e d1 He _ IH]; [reflexivity|].
  cbn [app first_failure]. unfold succeeding in He. rewrite He. exact IH.
Qed.

Lemma Forall_removelast {A} (Q : A -> Prop) (l : list A) :
  Forall Q l -> Forall Q (removelast l).
Proof.
  induction 1 as [|x l Hx Hl IH]; [constructor|].
  cbn [removelast]. destruct l; [constructor|].
  constructor; assumption.
Qed.

Lemma verdict_failed s : verdict s -> failed s = true.
Proof. intros [->|[->| ->]]; reflexivity. Qed.

Lemma error_path_blamed c r d : error_path c r d -> blamed r d.
Proof.
  intros (d0 & st & -> & [[F V]|(d1 & e & -> & F & He & ->)]).
  - split; [apply verdict_failed; exact V|].
    left. split; [exact V|]. rewrite removelast_last. exact F.
  - split; [exact He|]. right.
    rewrite <- app_assoc, (first_failure_app_ok _ _ F).
    cbn [app first_failure]. unfold failing in He. rewrite He. reflexivity.
Qed.

Lemma blamed_prefix s d1 d2 :
  Forall succeeding d1 -> blamed s d2 -> blamed s (d1 ++ d2).
Proof.
  intros F [Hs [[V F2]|Hf]]; (split; [exact Hs|]).
  - left. split; [exact V|].
    destruct d2 as [|e d2].
    + rewrite app_nil_r. apply Forall_removelast. exact F.
    + rewrite removelast_app by discriminate.
      apply Forall_app. split; assumption.
  - right. rewrite (first_failure_app_ok _ _ F). exact Hf.
Qed.

Lemma calls_app k d1 d2 : calls k (d1 ++ d2) = (calls k d1 + calls k d2)%nat.
Proof. unfold calls. rewrite filter_app, length_app. reflexivity. Qed.

Lemma census_app a1 r1 a2 r2 d1 d2 :
  census a1 r1 d1 -> census a2 r2 d2 ->
  census (a1 + a2) (r1 + r2) (d1 ++ d2).
Proof.
  unfold census.
  intros (F1 & A1 & D1 & I1 & V1 & E1 & C1) (F2 & A2 & D2 & I2 & V2 & E2 & C2).
  rewrite !calls_app, A1, A2, D1, D2, I1, I2, V1, V2, E1, E2, C1, C2.
  split; [apply Forall_app; split; assumption|].
  repeat split; lia.
Qed.

Lemma census_nil : census 0 0 [].
Proof. unfold census. repeat split; constructor. Qed.

Lemma census_round g tc k n n' :
  census 0 1 (encrypt_trace g tc k n ++ decrypt_trace g tc k n').
Proof.
  unfold census, encrypt_trace, decrypt_trace.
  destruct g; cbn; repeat split; repeat constructor.
Qed.

Lemma census_case g c tc : census 1 1 (case_trace g c tc).
Proof.
  unfold census, case_trace, encrypt_trace, decrypt_trace.
  destruct g; cbn; repeat split; repeat constructor.
Qed.

Lemma census_bracket k t c r d :
  census 0 r d ->
  census 1 r (EvAlloc k t c srtp_err_status_ok :: d
              ++ [EvDealloc c srtp_err_status_ok]).
Proof.
  unfold census.
  intros (F & A1 & D1 & I1 & V1 & E1 & C1).
  change (EvAlloc k t c srtp_err_status_ok :: d
          ++ [EvDealloc c srtp_err_status_ok])
    with ([EvAlloc k t c srtp_err_status_ok] ++ d
          ++ [EvDealloc c srtp_err_status_ok]).
  rewrite !calls_app, A1, D1, I1, V1, E1, C1.
  split.
  { apply Forall_app. split; [repeat constructor|].
    apply Forall_app. split; [exact F|repeat constructor]. }
  unfold calls. cbn. repeat split; lia.
Qed.

Lemma encrypt_trace_succeeding g tc k n :
  Forall succeeding (encrypt_trace g tc k n).
Proof. unfold encrypt_trace. destruct g; repeat constructor. Qed.

Lemma decrypt_trace_succeeding g tc k n :
  Forall succeeding (decrypt_trace g tc k n).
Proof. unfold decrypt_trace. destruct g; repeat constructor. Qed.

Lemma known_answer_case_summary ct tc w l0 :
  log w = l0 ->
  wp True (known_answer_case P ct tc)
     (fun _ w' => exists d, log w' = l0 ++ d /\ census 1 1 d)
     (fun r w' => exists d, log w' = l0 ++ d /\ blamed r d)
     w.
Proof.
  intros HL. rewrite <- (app_nil_r l0) in HL.
  unfold known_answer_case. do 2 symex1.
  symex1; [symex1; eexists; split; [the_log|]; split; [assumption|];
           right; cbn; rewrite Heqb; reflexivity|].
  all_ok. apply wp_bind.
  eapply wp_mono;
    [ | | apply (wp_conj _ _ _ _ _ _ (test_encrypt_trace o tc _ _ HL0)
                   (test_encrypt_errors o tc _ _ HL0))]; cbv beta.
  - intros _ w1 [HL1 _]. apply wp_bind.
    eapply wp_mono;
      [ | | apply (wp_conj _ _ _ _ _ _ (test_decrypt_trace o tc _ _ HL1)
                     (test_decrypt_errors o tc _ _ HL1))]; cbv beta.
    + intros _ w2 [HL2 _].
      repeat symex1; (eexists; split; [the_log|]).
      * split; [assumption|]. right.
        assert (FA : Forall succeeding
                       [EvAlloc (key_length_octets tc)
                          (tag_length_octets tc) o srtp_err_status_ok])
          by (repeat constructor).
        change (first_failure
                  ([EvAlloc (key_length_octets tc) (tag_length_octets tc) o
                      srtp_err_status_ok]
                   ++ encrypt_trace (gcm_instance P o) tc (key tc)
                        (plaintext_length_octets tc)
                   ++ decrypt_trace (gcm_instance P o) tc (key tc)
                        (ciphertext_length_octets tc)
                   ++ [EvDealloc o s]) = Some s).
        rewrite (first_failure_app_ok _ _ FA).
        rewrite (first_failure_app_ok _ _ (encrypt_trace_succeeding _ _ _ _)).
        rewrite (first_failure_app_ok _ _ (decrypt_trace_succeeding _ _ _ _)).
        cbn. rewrite Heqb. reflexivity.
      * all_ok. exact (census_case (gcm_instance P o) o tc).
    + intros r w2 [_ (d & HL2 & Ep)].
      eexists. rewrite <- !app_assoc in HL2. split; [exact HL2|].
      apply blamed_prefix; [repeat constructor|].
      apply blamed_prefix; [apply encrypt_trace_succeeding|].
      exact (error_path_blamed _ _ _ Ep).
  - intros r w1 [_ (d & HL1 & Ep)].
    eexists. rewrite <- !app_assoc in HL1. split; [exact HL1|].
    apply blamed_prefix; [repeat constructor|].
    exact (error_path_blamed _ _ _ Ep).
Qed.

Lemma known_answer_tests_summary ct l w l0 :
  log w = l0 ->
  wp True (known_answer_tests P ct l)
     (fun _ w' =>
        exists d, log w' = l0 ++ d /\ census (length l) (length l) d)
     (fun r w' => exists d, log w' = l0 ++ d /\ blamed r d)
     w.
Proof.
  revert w l0. induction l as [|tc l IH]; intros w l0 HL.
  - apply wp_ret. exists []. rewrite app_nil_r. split; [exact HL|].
    apply census_nil.
  - cbn [known_answer_tests]. apply wp_bind.
    eapply wp_mono; [ | | apply (known_answer_case_summary ct tc _ _ HL)];
      cbv beta.
    + intros _ w1 (d1 & HL1 & C1).
      eapply wp_mono; [ | | apply (IH w1 _ HL1)]; cbv beta.
      * intros _ w2 (d2 & HL2 & C2). exists (d1 ++ d2).
        rewrite <- app_assoc in HL2. split; [exact HL2|].
        exact (census_app _ _ _ _ _ _ C1 C2).
      * intros r w2 (d2 & HL2 & B). exists (d1 ++ d2).
        rewrite <- app_assoc in HL2. split; [exact HL2|].
        apply blamed_prefix; [exact (proj1 C1)|exact B].
    + intros r w1 H. exact H.
Qed.

Lemma error_path_prefix c r d1 d2 :
  Forall succeeding d1 -> error_path c r d2 -> error_path c r (d1 ++ d2).
Proof.
  intros F (d0 & st & -> & [[F0 V]|(d3 & e & -> & F3 & He & ->)]).
  - exists (d1 ++ d0), st. rewrite app_assoc. split; [reflexivity|].
    left. split; [apply Forall_app; split; assumption|exact V].
  - exists (d1 ++ d3 ++ [e]), st. rewrite !app_assoc.
    split; [reflexivity|]. right.
    exists (d1 ++ d3), e. split; [reflexivity|].
    split; [apply Forall_app; split; assumption|]. auto.
Qed.

Lemma random_trials_errors n c tc w l0 :
  log w = l0 ->
  wp True (random_trials P n c tc)
     (fun _ w' => exists d, log w' = l0 ++ d /\ census 0 n d)
     (fun r w' => exists d, log w' = l0 ++ d /\ error_path c r d)
     w.
Proof.
  revert w l0. induction n as [|n IH]; intros w l0 HL.
  - apply wp_ret. exists []. rewrite app_nil_r. split; [exact HL|].
    apply census_nil.
  - cbn [random_trials]. apply wp_bind.
    eapply wp_mono;
      [ | | apply (wp_conj _ _ _ _ _ _ (random_trial_trace c tc _ _ HL)
                     (random_trial_errors c tc _ _ HL))]; cbv beta.
    + intros _ w1 [(k & n1 & n2 & HL1 & _) _].
      pose proof (census_round (gcm_instance P c) tc k n1 n2) as C1.
      eapply wp_mono; [ | | apply (IH w1 _ HL1)]; cbv beta.
      * intros _ w2 (d2 & HL2 & C2). eexists.
        rewrite <- app_assoc in HL2. split; [exact HL2|].
        exact (census_app _ _ _ _ _ _ C1 C2).
      * intros r w2 (d2 & HL2 & B). eexists.
        rewrite <- app_assoc in HL2. split; [exact HL2|].
        apply error_path_prefix; [exact (proj1 C1)|exact B].
    + intros r w1 [_ H]. exact H.
Qed.

Lemma random_tests_summary ct tc w l0 :
  log w = l0 ->
  wp True (random_tests P ct tc)
     (fun _ _ => False)
     (fun r w' =>
        exists d, log w' = l0 ++ d /\
          ((r = srtp_err_status_ok /\ census 1 NUM_RAND_TESTS d) \/
           blamed r d))
     w.
Proof.
  intros HL. rewrite <- (app_nil_r l0) in HL.
  unfold random_tests. do 2 symex1.
  symex1; [symex1; eexists; split; [the_log|]; right; split; [assumption|];
           right; cbn; rewrite Heqb; reflexivity|].
  all_ok. apply wp_bind.
  eapply wp_mono;
    [ | | apply (random_trials_errors NUM_RAND_TESTS o tc _ _ HL0)];
    cbv beta.
  - intros _ w1 (d & HL1 & C). rewrite <- app_assoc in HL1.
    repeat symex1; (eexists; split; [the_log|]).
    + right. split; [assumption|]. right.
      assert (FA : Forall succeeding
                     [EvAlloc (key_length_octets tc)
                        (tag_length_octets tc) o srtp_err_status_ok])
        by (repeat constructor).
      change (first_failure
                ([EvAlloc (key_length_octets tc) (tag_length_octets tc) o
                    srtp_err_status_ok] ++ d ++ [EvDealloc o s]) = Some s).
      rewrite (first_failure_app_ok _ _ FA).
      rewrite (first_failure_app_ok _ _ (proj1 C)).
      cbn. rewrite Heqb. reflexivity.
    + all_ok. left. split; [reflexivity|].
      apply census_bracket. exact C.
  - intros r w1 (d & HL1 & Ep).
    eexists. rewrite <- !app_assoc in HL1. split; [exact HL1|].
    right. apply blamed_prefix; [repeat constructor|].
    exact (error_path_blamed _ _ _ Ep).
Qed.

Lemma srtp_cipher_type_test_body_summary ct l w :
  let post := fun r w' =>
    exists d, log w' = log w ++ d /\
      ((r = srtp_err_status_ok /\ l <> [] /\
        census (S (length l)) (length l + NUM_RAND_TESTS) d) \/
       blamed r d) in
  wp True (srtp_cipher_type_test_body P ct l) post post w.
Proof.
  intros post. subst post.
  unfold srtp_cipher_type_test_body. destruct l as [|tc l'].
  - apply wp_return. exists []. rewrite app_nil_r. split; [reflexivity|].
    right. split; [reflexivity|]. left.
    split; [unfold verdict; tauto|constructor].
  - apply wp_bind.
    eapply wp_mono;
      [ | | apply (known_answer_tests_summary ct (tc :: l') w _ eq_refl)];
      cbv beta.
    + intros _ w1 (d1 & HL1 & C1).
      eapply wp_mono; [ | | apply (random_tests_summary ct tc _ _ HL1)];
        cbv beta; [intros _ w2 []|].
      intros r w2 (d2 & HL2 & H). exists (d1 ++ d2).
      rewrite <- app_assoc in HL2. split; [exact HL2|].
      destruct H as [[-> C2]|B].
      * left. split; [reflexivity|]. split; [discriminate|].
        pose proof (census_app _ _ _ _ _ _ C1 C2) as C.
        replace (S (length (tc :: l')))
          with (length (tc :: l') + 1)%nat by lia.
        exact C.
      * right. apply blamed_prefix; [exact (proj1 C1)|exact B].
    + intros r w1 (d & HL1 & B). exists d. split; [exact HL1|].
      right. exact B.
Qed.

(** X9. When the self-test returns a failing status, that status is
    either the status of the first call that failed, returned unchanged
    (for the allocator and for the deallocation that ends a test case or
    the random trials the self-test returns at once, for the other calls
    after deallocating the instance), or one of the codes
    [srtp_err_status_cant_check], [srtp_err_status_bad_param] and
    [srtp_err_status_algo_fail] of the self-test itself, returned after
    calls that all succeeded, but possibly the deallocation made last. *)
Theorem self_test_failure_is_explained :
  forall ct test_data (w w' : world W) s,
    srtp_cipher_type_test P ct test_data w = Returned s w' ->
    failed s = true ->
    exists d, log w' = log w ++ d /\ blamed s d.
Proof.
  intros ct l w w' s H Hs.
  destruct (fn_returned _ _ _ _ _
              (srtp_cipher_type_test_body_summary ct l w) H)
    as (d & HL & [[-> _]|B]); [discriminate|].
  exists d. auto.
Qed.


(** X11. When the allocator of the cipher type fails for the first test
    vector, the self-test returns the status of the allocator at once: the
    allocation is the only call it makes, and in particular it does not
    call [srtp_cipher_dealloc]. *)
Theorem self_test_first_allocation_fails :
  forall t tc rest (w : world W),
    let a := srtp_cipher_type_alloc P (Some t) (key_length_octets tc)
               (tag_length_octets tc) w in
    failed (fst (fst a)) = true ->
    srtp_cipher_type_test P (Some t) (tc :: rest) w
      = Returned (fst (fst a)) (snd a) /\
    log (snd a) = log w ++ [EvAlloc (key_length_octets tc)
                              (tag_length_octets tc) (snd (fst a))
                              (fst (fst a))] /\
    same_frame w (snd a).
Proof.
  intros t tc rest w a Hf.
  pose proof (srtp_cipher_type_alloc_logged (Some t) (key_length_octets tc)
                (tag_length_octets tc) w) as [HL HF].
  fold a in HL, HF. split; [|split; assumption].
  unfold srtp_cipher_type_test, fn, srtp_cipher_type_test_body.
  cbn [known_answer_tests]. unfold known_answer_case.
  unfold bind at 1. unfold bind at 1. unfold bind at 1.
  unfold call at 1. fold a.
  destruct a as [[st c] w1]. cbn [fst snd] in *. rewrite Hf.
  reflexivity.
Qed.

(** ** More on the benchmark *)

Lemma bench_trace_events (t : srtp_cipher_type_t W) iv n :
  Forall bench_event (bench_trace t iv n) /\
  set_iv_calls (bench_trace t iv n) = [(iv, srtp_direction_encrypt)].
Proof.
  unfold bench_trace.
  destruct (present (set_aad t)), (present (get_tag t));
    split; try reflexivity; repeat constructor.
Qed.

Lemma bench_trial_events c i v w l0 :
  log w = l0 ->
  wp True (bench_trial P c i v) (fun _ _ => True)
     (fun _ w' => exists d, log w' = l0 ++ d /\ Forall bench_event d) w.
Proof.
  intros HL. rewrite <- (app_nil_r l0) in HL.
  unfold bench_trial.
  repeat symex1; try exact I;
    (eexists; split; [the_log|]); repeat constructor.
Qed.

Lemma set_iv_calls_app d1 d2 :
  set_iv_calls (d1 ++ d2) = set_iv_calls d1 ++ set_iv_calls d2.
Proof. unfold set_iv_calls. apply flat_map_app. Qed.

Lemma bench_trials_shape n c i v w l0 :
  log w = l0 ->
  wp True (bench_trials P n c i v)
     (fun _ w' =>
        exists d, log w' = l0 ++ d /\ Forall bench_event d /\
          Forall succeeding d /\
          set_iv_calls d
          = map (fun k => (nonce P (i + Z.of_nat k), srtp_direction_encrypt))
                (seq 0 n))
     (fun _ w' =>
        exists d, log w' = l0 ++ d /\ Forall bench_event d /\
                  Exists failing d)
     w.
Proof.
  revert i v w l0. induction n as [|n IH]; intros i v w l0 HL.
  - apply wp_ret. exists []. rewrite app_nil_r.
    repeat split; [exact HL|constructor|constructor].
  - cbn [bench_trials]. apply wp_bind.
    eapply wp_mono;
      [ | | apply (wp_conj _ _ _ _ _ _
                     (bench_trial_trace c i v w l0 _ HL eq_refl)
                     (bench_trial_events c i v w l0 HL))]; cbv beta.
    + intros v1 w1 [(_ & ci & t & _ & _ & HL1) _].
      destruct (bench_trace_events (type_at P t) (nonce P i) (len v))
        as [B1 S1].
      eapply wp_mono; [ | | apply (IH (i + 1) v1 w1 _ HL1)]; cbv beta.
      * intros _ w2 (d & HL2 & B & F & S). eexists.
        rewrite <- app_assoc in HL2. split; [exact HL2|].
        split; [apply Forall_app; split; assumption|].
        split; [apply Forall_app; split;
                  [apply bench_trace_succeeding|exact F]|].
        rewrite set_iv_calls_app, S1, S. cbn [seq map app].
        rewrite Z.add_0_r. f_equal.
        rewrite <- seq_shift, map_map. apply map_ext. intros k.
        do 2 f_equal. lia.
      * intros r w2 (d & HL2 & B & Ex). eexists.
        rewrite <- app_assoc in HL2. split; [exact HL2|].
        split; [apply Forall_app; split; assumption|].
        apply Exists_app. right. exact Ex.
    + intros r w1 [(_ & _ & d & HL1 & Ex) (d' & HL1' & B)].
      rewrite HL1 in HL1'. apply app_inv_head in HL1'. subst d'.
      exists d. auto.
Qed.

Lemma srtp_cipher_bits_per_second_body_calls c n t w :
  let post := fun (_ : Z) w' =>
    exists d, log w' = log w ++ d /\ Forall bench_event d /\
      (present (fst (srtp_crypto_alloc P
                       (u64 (n + SRTP_MAX_TAG_LEN P)) (mem w))) = true ->
       Forall succeeding d ->
       set_iv_calls d
       = map (fun k => (nonce P (Z.of_nat k), srtp_direction_encrypt))
             (seq 0 (Z.to_nat t))) in
  wp True (srtp_cipher_bits_per_second_body P c n t) post post w.
Proof.
  intros post. subst post.
  unfold srtp_cipher_bits_per_second_body.
  apply wp_bind, wp_call.
  destruct (srtp_crypto_alloc P _ (mem w)) as [[buf|] m] eqn:Ea;
    cbn [fst snd present].
  - apply wp_bind, wp_call. cbn [fst snd clock].
    apply wp_bind.
    match goal with
    | |- wp _ _ _ _ ?w0 =>
        eapply wp_mono;
          [ | | apply (bench_trials_shape (Z.to_nat t) c 0 _ w0 (log w)
                         eq_refl)]
    end; cbv beta.
    + intros _ w1 (d & HL1 & B & F & S).
      apply wp_bind, wp_call. apply wp_bind, wp_modify.
      unfold clock. cbn [fst snd with_mem log].
      match goal with
      | |- wp _ (if ?b then _ else _) _ _ _ => destruct b
      end; apply wp_return; (exists d; split; [exact HL1|]);
        (split; [exact B|]); intros _ _; exact S.
    + intros r w1 (d & HL1 & B & Ex).
      exists d. split; [exact HL1|]. split; [exact B|].
      intros _ F. destruct (failing_not_all_succeeding _ Ex F).
  - apply wp_return. exists []. rewrite app_nil_r.
    split; [reflexivity|]. split; [constructor|discriminate].
Qed.

(** X12. Whatever the outcome, the benchmark calls nothing but
    [srtp_cipher_set_iv], always for encryption, [srtp_cipher_set_aad],
    always with four zero octets, [srtp_cipher_encrypt] and
    [srtp_cipher_get_tag]: it neither initializes nor deallocates the
    instance it is given, and never decrypts.  When the scratch buffer was
    allocated and every call succeeded, it ran all [num_trials] trials, and
    the IV of trial [i], counted from 0, is the nonce that holds [i]. *)
Theorem bits_per_second_calls :
  forall c octets_in_buffer num_trials (w w' : world W) r,
    srtp_cipher_bits_per_second P c octets_in_buffer num_trials w
      = Returned r w' ->
    exists d, log w' = log w ++ d /\ Forall bench_event d /\
      (present (fst (srtp_crypto_alloc P
                       (u64 (octets_in_buffer + SRTP_MAX_TAG_LEN P))
                       (mem w))) = true ->
       Forall succeeding d ->
       set_iv_calls d
       = map (fun k => (nonce P (Z.of_nat k), srtp_direction_encrypt))
             (seq 0 (Z.to_nat num_trials))).
Proof.
  intros c n t w w' r H.
  exact (fn_returned _ _ _ _ _
           (srtp_cipher_bits_per_second_body_calls c n t w) H).
Qed.



(** X14. Given a null instance, or an instance whose cipher type or whose
    state is null, the benchmark does not dereference it: when the scratch
    buffer is allocated and at least one trial is asked for, the first
    call of [srtp_cipher_set_iv] returns [srtp_err_status_bad_param], and
    the benchmark frees the buffer and returns 0 after that single call
    and one reading of the clock. *)
Theorem bits_per_second_incomplete_instance :
  forall c octets_in_buffer num_trials buf m (w : world W),
    (c = None \/
     exists ci, c = Some ci /\ (type ci = None \/ state ci = None)) ->
    0 < num_trials ->
    srtp_crypto_alloc P (u64 (octets_in_buffer + SRTP_MAX_TAG_LEN P)) (mem w)
      = (Some buf, m) ->
    exists w',
      srtp_cipher_bits_per_second P c octets_in_buffer num_trials w
        = Returned 0 w' /\
      log w' = log w ++ [EvSetIv (nonce P 0) srtp_direction_encrypt
                                 srtp_err_status_bad_param] /\
      mem w' = srtp_crypto_free P m /\
      clock_calls w' = S (clock_calls w).
Proof.
  intros c n t buf m w Hc Ht Ha.
  apply (proj2 (checked_none c)) in Hc.
  unfold srtp_cipher_bits_per_second, fn, srtp_cipher_bits_per_second_body.
  unfold bind at 1, call at 1. rewrite Ha.
  unfold bind at 1, call at 1, clock at 1.
  destruct (Z.to_nat t) as [|k] eqn:Ek; [lia|].
  cbn [bench_trials]. unfold bind at 1, bind at 1, bench_trial.
  unfold bind at 1, call at 1, srtp_cipher_set_iv. rewrite Hc.
  cbn [failed]. unfold free_return_0, bind, modify, return_.
  eexists. split; [reflexivity|]. cbn. auto.
Qed.

(** ** What a pass of a random trial means *)

Lemma store_prefix (dst src dst' : octets) :
  store dst 0 src = Some dst' -> firstn (length src) dst' = src.
Proof.
  unfold store.
  destruct ((0 <=? 0) && (0 + Z.of_nat (length src) <=?
                          Z.of_nat (length dst))); [|discriminate].
  intros H. inversion H; subst; clear H.
  cbn [Z.to_nat firstn app Nat.add].
  rewrite firstn_app, Nat.sub_diag, firstn_all. cbn [firstn].
  apply app_nil_r.
Qed.

Lemma load_spec (src p : octets) (n : size_t) :
  load src n = Some p ->
  p = firstn (Z.to_nat n) src /\ (Z.to_nat n <= length src)%nat.
Proof.
  unfold load. destruct (n <=? Z.of_nat (length src)) eqn:E; [|discriminate].
  intros H. inversion H; subst. apply Z.leb_le in E. split; [reflexivity|lia].
Qed.

Lemma srtp_cipher_rand_for_tests_frame n w :
  let r := srtp_cipher_rand_for_tests P n w in
  length (fst r) = Z.to_nat n /\
  mem (snd r) = mem w /\ clock_calls (snd r) = clock_calls w /\
  log (snd r) = log w /\ buffer (snd r) = buffer w /\
  buffer2 (snd r) = buffer2 w /\ trial_key (snd r) = trial_key w /\
  trial_iv (snd r) = trial_iv w /\ tag_len (snd r) = tag_len w.
Proof.
  unfold srtp_cipher_rand_for_tests.
  pose proof (rand_octets_frame (Z.to_nat n) w) as H. cbv zeta in *. tauto.
Qed.

(** Symbolic execution that keeps the value of the field [proj] of the
    state in a hypothesis [proj w = v]. *)
Ltac keep_step proj lem r :=
  apply wp_call;
  let H := fresh "Hc" in
  pose proof lem as H; cbv zeta in H;
  (destruct r as [[[? ?] ?] ?] || destruct r as [[? ?] ?]
   || destruct r as [? ?]);
  cbn [fst snd] in H |- *;
  lazymatch goal with
  | |- wp _ _ _ _ ?w1 =>
      match goal with
      | HB : proj ?w = _ |- _ =>
          let Hn := fresh "HB" in
          assert (Hn : proj w1 = proj w)
            by (unfold logged, same_frame in H; intuition congruence);
          rewrite HB in Hn; clear HB H
      end
  end.

Ltac symk proj :=
  lazymatch goal with
  | |- wp _ (bind _ _) _ _ _ => apply wp_bind
  | |- wp _ (ret _) _ _ _ => apply wp_ret
  | |- wp _ (return_ _) _ _ _ => apply wp_return
  | |- wp True fault _ _ _ => exact I
  | |- wp True (defined (Some ?a)) _ _ _ =>
      let Heq := fresh in
      apply wp_defined; intros ? Heq; injection Heq as <-
  | |- wp True (defined None) _ _ _ => exact I
  | |- wp True (defined _) _ _ _ => apply wp_defined; intros ? ?
  | |- wp _ (gets _) _ _ _ =>
      apply wp_gets;
      try match goal with
          | HB : proj ?w = _ |- _ => rewrite HB
          end
  | |- wp _ (modify ?f) _ _ ?w =>
      apply wp_modify;
      let w1 := fresh "w" in
      let Heq := fresh in
      remember (f w) as w1 eqn:Heq;
      match goal with
      | HB : proj w = _ |- _ =>
          let Hn := fresh "HB" in
          assert (Hn : proj w1 = proj (f w)) by (rewrite Heq; reflexivity);
          unfold set_buffer, set_buffer2, set_trial_key, set_trial_iv,
            set_tag_len in Hn;
          cbn [buffer buffer2 trial_key trial_iv tag_len] in Hn;
          try rewrite HB in Hn; clear HB Heq
      end
  | |- wp _ (call (srtp_cipher_init P ?c ?k)) _ _ ?w =>
      keep_step proj (srtp_cipher_init_logged c k w)
                (srtp_cipher_init P c k w)
  | |- wp _ (call (srtp_cipher_set_iv P ?c ?k ?d)) _ _ ?w =>
      keep_step proj (srtp_cipher_set_iv_logged c k d w)
                (srtp_cipher_set_iv P c k d w)
  | |- wp _ (call (srtp_cipher_set_aad P ?c ?k ?d)) _ _ ?w =>
      keep_step proj (srtp_cipher_set_aad_logged c k d w)
                (srtp_cipher_set_aad P c k d w)
  | |- wp _ (call (srtp_cipher_encrypt P ?c ?b ?n ?d)) _ _ ?w =>
      keep_step proj (srtp_cipher_encrypt_logged c b n d w)
                (srtp_cipher_encrypt P c b n d w)
  | |- wp _ (call (srtp_cipher_decrypt P ?c ?b ?n ?d)) _ _ ?w =>
      keep_step proj (srtp_cipher_decrypt_logged c b n d w)
                (srtp_cipher_decrypt P c b n d w)
  | |- wp _ (call (srtp_cipher_get_tag P ?c ?t)) _ _ ?w =>
      keep_step proj (srtp_cipher_get_tag_logged c t w)
                (srtp_cipher_get_tag P c t w)
  | |- wp _ (call (srtp_cipher_dealloc P ?c)) _ _ ?w =>
      keep_step proj (srtp_cipher_dealloc_logged c w)
                (srtp_cipher_dealloc P c w)
  | |- wp _ (call (srtp_cipher_rand_for_tests P ?n)) _ _ ?w =>
      keep_step proj (srtp_cipher_rand_for_tests_frame n w)
                (srtp_cipher_rand_for_tests P n w)
  | |- wp _ (dealloc_return _ _ _) _ _ _ => unfold dealloc_return
  | |- wp _ (check _ _ _) _ _ _ => unfold check
  | |- wp _ (store_buffer _ _) _ _ _ => unfold store_buffer
  | |- wp _ (set_aad_if_gcm _ _ _) _ _ _ => unfold set_aad_if_gcm
  | |- wp _ (get_tag_if_gcm _ _ _) _ _ _ => unfold get_tag_if_gcm
  | |- wp _ (if is_gcm P ?ci then _ else _) _ _ _ =>
      match goal with G : is_gcm P ci = _ |- _ => rewrite G end
  | |- wp _ (match ?o with Some _ => _ | None => _ end) _ _ _ =>
      destruct o eqn:?
  | |- wp _ (if ?b then _ else _) _ _ _ => destruct b eqn:?
  end.

Lemma random_trial_round_trip c tc w r w1 p w2 :
  srtp_cipher_rand_u32_for_tests P w = (r, w1) ->
  srtp_cipher_rand_for_tests P (r mod (SELF_TEST_BUF_OCTETS - 64)) w1
    = (p, w2) ->
  wp True (random_trial P c tc)
     (fun _ w' =>
        firstn (Z.to_nat (r mod (SELF_TEST_BUF_OCTETS - 64))) (buffer w') = p /\
        firstn (Z.to_nat (r mod (SELF_TEST_BUF_OCTETS - 64))) (buffer2 w') = p)
     (fun _ _ => True) w.
Proof.
  intros E1 E2. unfold random_trial.
  apply wp_bind, wp_call. rewrite E1. cbn [fst snd].
  apply wp_bind, wp_call. rewrite E2. cbn [fst snd].
  pose proof (srtp_cipher_rand_for_tests_frame
                (r mod (SELF_TEST_BUF_OCTETS - 64)) w1) as Hp.
  cbv zeta in Hp. rewrite E2 in Hp. cbn [fst] in Hp.
  destruct Hp as [Hp _].
  unfold store_buffer at 1.
  apply wp_bind, wp_bind, wp_gets. apply wp_bind, wp_defined.
  intros b' Hs. apply wp_modify.
  apply wp_bind, wp_gets. cbn [buffer set_buffer].
  apply wp_bind, wp_defined. intros pc Hl.
  apply wp_bind, wp_gets. cbn [buffer2 set_buffer].
  apply wp_bind, wp_defined. intros b2' Hs2.
  apply wp_bind, wp_modify.
  remember (set_buffer2 b2' (set_buffer b' w2)) as w3 eqn:Hw3.
  assert (HB : buffer2 w3 = b2') by (rewrite Hw3; reflexivity).
  clear Hw3.
  assert (Hcopy : firstn (Z.to_nat (r mod (SELF_TEST_BUF_OCTETS - 64))) b2'
                  = p).
  { apply store_prefix in Hs. apply store_prefix in Hs2.
    apply load_spec in Hl. destruct Hl as [-> Hle].
    rewrite Hp in Hs. rewrite Hs in Hs2.
    rewrite Hp in Hs2. exact Hs2. }
  destruct c as [ci|]; [destruct (is_gcm P ci) eqn:G|];
    repeat (symk (@buffer2 W)); try exact I;
    match goal with
    | HB' : buffer2 _ = _ |- _ => rewrite HB'
    end;
    match goal with
    | H : compare_octets _ _ _ _ = Some _ |- _ =>
        rewrite (proj1 (compare_octets_ok _ _ _ _ _ H ltac:(assumption)))
    end; auto.
Qed.

(** X15. A random trial runs to its end only when the round trip gives
    the plaintext back: the scratch buffer, after the calls of
    [srtp_cipher_encrypt] and [srtp_cipher_decrypt], starts with the
    random octets the trial drew as its plaintext, and the second buffer
    still holds the copy of them made before the encryption. *)
Theorem random_trial_pass_means_round_trip :
  forall c tc (w w' : world W),
    let r := srtp_cipher_rand_u32_for_tests P w in
    let plaintext_len := fst r mod (SELF_TEST_BUF_OCTETS - 64) in
    let p := fst (srtp_cipher_rand_for_tests P plaintext_len (snd r)) in
    random_trial P c tc w = Ok tt w' ->
    length p = Z.to_nat plaintext_len /\
    firstn (Z.to_nat plaintext_len) (buffer w') = p /\
    firstn (Z.to_nat plaintext_len) (buffer2 w') = p.
Proof.
  intros c tc w w' r plaintext_len p H.
  split.
  { apply (srtp_cipher_rand_for_tests_frame plaintext_len (snd r)). }
  subst p plaintext_len r.
  destruct (srtp_cipher_rand_u32_for_tests P w) as [r w1] eqn:E1.
  cbn [fst snd].
  destruct (srtp_cipher_rand_for_tests P
              (r mod (SELF_TEST_BUF_OCTETS - 64)) w1) as [p w2] eqn:E2.
  cbn [fst].
  exact (wp_ok _ _ _ _ _ _ (random_trial_round_trip c tc w r w1 p w2 E1 E2) H).
Qed.

(** ** The capacity guard and the plaintext *)

(** X16. The capacity guard of the known-answer tests bounds the
    ciphertext length only.  For a test vector whose ciphertext length is
    within [SELF_TEST_BUF_OCTETS] and whose plaintext length exceeds it,
    the encryption test, once the key is loaded, copies the plaintext past
    the end of the scratch buffer (or reads past the end of the plaintext
    of the vector): the behaviour is undefined, and so is that of the
    self-test when this is its first vector. *)
Theorem oversized_plaintext_overruns_buffer :
  forall ct tc rest (w : world W),
    Z.of_nat (length (buffer w)) = SELF_TEST_BUF_OCTETS ->
    ciphertext_length_octets tc <= SELF_TEST_BUF_OCTETS ->
    SELF_TEST_BUF_OCTETS < plaintext_length_octets tc ->
    let a := srtp_cipher_type_alloc P ct (key_length_octets tc)
               (tag_length_octets tc) w in
    fst (fst a) = srtp_err_status_ok ->
    fst (srtp_cipher_init P (snd (fst a)) (key tc) (snd a))
      = srtp_err_status_ok ->
    test_encrypt P (snd (fst a)) tc (snd a) = Fault /\
    srtp_cipher_type_test P ct (tc :: rest) w = Undefined.
Proof.
  intros ct tc rest w Hb Hc Hp a Ha Hi.
  assert (He : test_encrypt P (snd (fst a)) tc (snd a) = Fault).
  { unfold test_encrypt. unfold bind at 1, call at 1.
    pose proof (srtp_cipher_init_logged (snd (fst a)) (key tc) (snd a))
      as [_ (_ & _ & B & _)].
    pose proof (srtp_cipher_type_alloc_logged ct (key_length_octets tc)
                  (tag_length_octets tc) w) as [_ (_ & _ & B0 & _)].
    fold a in B0.
    destruct (srtp_cipher_init P (snd (fst a)) (key tc) (snd a))
      as [st w2].
    cbn [fst snd] in *. subst st.
    unfold check, bind at 1. cbn [failed ret].
    assert (G : (ciphertext_length_octets tc >? SELF_TEST_BUF_OCTETS)
                = false) by (rewrite Z.gtb_ltb; apply Z.ltb_ge; exact Hc).
    rewrite G. unfold bind at 1.
    destruct (load (plaintext tc) (plaintext_length_octets tc))
      as [p|] eqn:El; [|reflexivity].
    cbn [defined ret]. unfold bind at 1, store_buffer, bind at 1.
    cbn [gets]. unfold gets, bind at 1.
    apply load_spec in El. destruct El as [-> Hle].
    assert (Hs : store (buffer w2) 0
                   (firstn (Z.to_nat (plaintext_length_octets tc))
                      (plaintext tc)) = None).
    { unfold store. rewrite length_firstn, B, B0.
      destruct (0 + Z.of_nat
                  (Nat.min (Z.to_nat (plaintext_length_octets tc))
                     (length (plaintext tc))) <=?
                Z.of_nat (length (buffer w))) eqn:E;
        [|rewrite andb_false_r; reflexivity].
      apply Z.leb_le in E. lia. }
    rewrite Hs. reflexivity. }
  split; [exact He|].
  unfold srtp_cipher_type_test, fn, srtp_cipher_type_test_body.
  cbn [known_answer_tests]. unfold known_answer_case.
  unfold bind at 1. unfold bind at 1. unfold bind at 1.
  unfold call at 1. fold a.
  destruct a as [[st c] w1]. cbn [fst snd] in *. subst st.
  cbn [failed]. unfold bind at 1. rewrite He. reflexivity.
Qed.

(** ** The self-test stays within its arrays *)

Lemma compare_octets_defined brk n (a b : octets) :
  (n <= length a)%nat -> (n <= length b)%nat ->
  exists s, compare_octets brk n a b = Some s.
Proof.
  revert a b. induction n as [|n IH]; intros a b Ha Hb.
  - exists srtp_err_status_ok. reflexivity.
  - destruct a as [|x a], b as [|y b]; simpl in Ha, Hb; try lia.
    destruct (IH a b ltac:(lia) ltac:(lia)) as [s Hs].
    cbn [compare_octets]. rewrite Hs.
    destruct (x =? y); [eauto|]. destruct brk; eauto.
Qed.

Lemma srtp_cipher_init_ok_instance c k w :
  failed (fst (srtp_cipher_init P c k w)) = false -> c <> None.
Proof. intros H ->. discriminate. Qed.

Lemma srtp_cipher_set_iv_ok_instance c iv d w :
  failed (fst (srtp_cipher_set_iv P c iv d w)) = false ->
  exists ci t, c = Some ci /\ type ci = Some t.
Proof.
  unfold srtp_cipher_set_iv, checked.
  destruct c as [ci|]; [|discriminate].
  destruct (type ci) as [t|] eqn:Ht; [|discriminate].
  destruct (state ci) as [s|]; [|discriminate].
  intros _. exists ci, t. split; [reflexivity|exact Ht].
Qed.

Lemma wp_false_fn {R} (m : M W R R) Q E w :
  wp False m Q E w -> exists r w', fn m w = Returned r w'.
Proof.
  unfold wp, fn. destruct (m w) as [a w'|r w'|]; [eauto|eauto|contradiction].
Qed.

Section Safety.

Hypothesis tag_nonneg : 0 <= SRTP_MAX_TAG_LEN P.
Hypothesis tag_small : SRTP_MAX_TAG_LEN P <= 64.
Hypothesis tame :
  forall a, within_capacity (SRTP_MAX_TAG_LEN P) (type_at P a).

Lemma srtp_cipher_encrypt_within c src n cap w :
  0 <= n <= cap ->
  Z.of_nat (length (snd (fst (fst (srtp_cipher_encrypt P c src n cap w)))))
    <= cap /\
  (failed (fst (fst (fst (srtp_cipher_encrypt P c src n cap w)))) = false ->
   0 <= snd (fst (srtp_cipher_encrypt P c src n cap w)) <= n).
Proof.
  intros H. unfold srtp_cipher_encrypt, checked.
  destruct c as [ci|]; [|cbn; split; [lia|discriminate]].
  destruct (type ci) as [t|]; [|cbn; split; [lia|discriminate]].
  destruct (state ci) as [s|]; [|cbn; split; [lia|discriminate]].
  pose proof (proj1 (tame t) s src n cap (mem w) H) as (H1 & H2 & _).
  destruct (encrypt (type_at P t) s src n cap (mem w)) as [[[st out] n'] m].
  cbn [fst snd] in *. auto.
Qed.

Lemma srtp_cipher_decrypt_within c src n cap w :
  0 <= n <= cap ->
  Z.of_nat (length (snd (fst (fst (srtp_cipher_decrypt P c src n cap w)))))
    <= cap.
Proof.
  intros H. unfold srtp_cipher_decrypt, checked.
  destruct c as [ci|]; [|cbn; lia].
  destruct (type ci) as [t|]; [|cbn; lia].
  destruct (state ci) as [s|]; [|cbn; lia].
  pose proof (proj1 (tame t) s src n cap (mem w) H) as (_ & _ & H3).
  destruct (decrypt (type_at P t) s src n cap (mem w)) as [[[st out] n'] m].
  cbn [fst snd] in *. auto.
Qed.

Lemma srtp_cipher_get_tag_within c tl w :
  Z.of_nat (length (snd (fst (fst (srtp_cipher_get_tag P c tl w)))))
    <= SRTP_MAX_TAG_LEN P /\
  (failed (fst (fst (fst (srtp_cipher_get_tag P c tl w)))) = false ->
   0 <= snd (fst (srtp_cipher_get_tag P c tl w)) <= SRTP_MAX_TAG_LEN P).
Proof.
  unfold srtp_cipher_get_tag, checked.
  destruct c as [ci|]; [|cbn; split; [lia|discriminate]].
  destruct (type ci) as [t|]; [|cbn; split; [lia|discriminate]].
  destruct (state ci) as [s|]; [|cbn; split; [lia|discriminate]].
  destruct (get_tag (type_at P t)) as [f|] eqn:Ef;
    [|cbn; split; [lia|discriminate]].
  pose proof (proj2 (tame t) f s tl (mem w) Ef) as (H1 & H2).
  destruct (f s tl (mem w)) as [[[st out] n'] m].
  cbn [fst snd] in *. auto.
Qed.

(** Symbolic execution that excludes undefined behaviour.  It keeps the
    hypothesis [declared_sizes w] about the current state and the bounds
    on the lengths the cipher returned. *)
Ltac sizes :=
  repeat match goal with
         | H : false = false -> _ |- _ => specialize (H eq_refl)
         | H : declared_sizes _ |- _ => destruct H as (? & ? & ? & ?)
         | H : well_formed _ _ _ |- _ => destruct H as (? & ? & ?)
         | H : (_ >? _) = false |- _ => apply gtb_false_le in H
         | H : store _ _ _ = Some _ |- _ => apply store_length in H
         | H : _ /\ _ |- _ => destruct H
         end;
  pose proof tag_nonneg; try pose proof tag_small;
  unfold SELF_TEST_BUF_OCTETS, MAX_KEY_LEN, u64 in *;
  change (2 ^ 64) with 18446744073709551616 in *;
  repeat match goal with
         | |- context [?x mod 18446744073709551616] =>
             rewrite (Z.mod_small x 18446744073709551616) by lia
         end;
  rewrite ?length_firstn; lia.

Ltac sizes_modify :=
  match goal with
  | HI : declared_sizes _ |- _ => destruct HI as (? & ? & ? & ?)
  end;
  unfold declared_sizes, set_buffer, set_buffer2, set_trial_key,
    set_trial_iv, set_tag_len;
  cbn [buffer buffer2 trial_key trial_iv];
  repeat split; try assumption;
  match goal with
  | Hs : store _ _ _ = Some ?b |- context [length ?b] =>
      rewrite (store_length _ _ _ _ Hs); assumption
  end.

Ltac safe_call keep lem r :=
  apply wp_call;
  let H := fresh "Hc" in
  pose proof lem as H; cbv zeta in H;
  (destruct r as [[[? ?] ?] ?] || destruct r as [[? ?] ?]
   || destruct r as [? ?]);
  cbn [fst snd] in H |- *;
  lazymatch goal with
  | |- wp _ _ _ _ ?w1 =>
      try match goal with
          | HI : declared_sizes ?w |- _ =>
              let Hn := fresh "HI" in
              assert (Hn : declared_sizes w1)
                by (clear - H HI;
                    unfold logged, same_frame, declared_sizes in *;
                    intuition congruence);
              clear HI
          end
  end;
  destruct H as [_ H];
  lazymatch keep with
  | true => idtac
  | false => clear H
  end.

Ltac safe1 :=
  lazymatch goal with
  | |- wp _ (bind _ _) _ _ _ => apply wp_bind
  | |- wp _ (ret _) _ _ _ => apply wp_ret
  | |- wp _ (return_ _) _ _ _ => apply wp_return
  | |- wp _ (defined (Some ?a)) _ _ _ =>
      apply (wp_defined_some _ _ a _ _ _ eq_refl)
  | |- wp _ (defined None) _ _ _ =>
      exfalso;
      match goal with
      | H : false = false -> None <> None |- _ => exact (H eq_refl eq_refl)
      end
  | |- wp _ (defined (type ?ci)) _ _ _ =>
      match goal with
      | Ht : type ci = Some ?t |- _ => apply (wp_defined_some _ _ t _ _ _ Ht)
      end
  | |- wp _ (defined (load ?src ?n)) _ _ _ =>
      apply (wp_defined_some _ _ _ _ _ _ (load_some src n ltac:(sizes)))
  | |- wp _ (defined (store ?dst ?off ?src)) _ _ _ =>
      let b' := fresh "b" in
      let Hs := fresh "Hs" in
      destruct (store_some dst src off ltac:(sizes) ltac:(sizes))
        as [b' Hs];
      apply (wp_defined_some _ _ b' _ _ _ Hs)
  | |- wp _ (defined (compare_octets ?brk ?n ?a ?b)) _ _ _ =>
      let s := fresh "s" in
      let Hs := fresh "Hs" in
      destruct (compare_octets_defined brk n a b ltac:(sizes) ltac:(sizes))
        as [s Hs];
      apply (wp_defined_some _ _ s _ _ _ Hs)
  | |- wp _ (defined ?c) _ _ _ =>
      match goal with
      | H : false = false -> exists ci t, c = Some ci /\ _ |- _ =>
          destruct (H eq_refl) as (? & ? & -> & ?); clear H
      end
  | |- wp _ (gets _) _ _ _ => apply wp_gets
  | |- wp _ (modify ?f) _ _ ?w =>
      apply wp_modify;
      try (let Hn := fresh "HI" in
           assert (Hn : declared_sizes (f w)) by sizes_modify;
           let w1 := fresh "w" in
           let Heq := fresh in
           remember (f w) as w1 eqn:Heq; clear Heq;
           match goal with
           | HI : declared_sizes w |- _ => clear HI
           end)
  | |- wp _ (call (srtp_cipher_init P ?c ?k)) _ _ ?w =>
      safe_call true (conj (srtp_cipher_init_logged c k w)
                           (srtp_cipher_init_ok_instance c k w))
                (srtp_cipher_init P c k w)
  | |- wp _ (call (srtp_cipher_set_iv P ?c ?k ?d)) _ _ ?w =>
      safe_call true (conj (srtp_cipher_set_iv_logged c k d w)
                           (srtp_cipher_set_iv_ok_instance c k d w))
                (srtp_cipher_set_iv P c k d w)
  | |- wp _ (call (srtp_cipher_encrypt P ?c ?b ?n ?d)) _ _ ?w =>
      let Hb := fresh "Hb" in
      assert (Hb : 0 <= n <= d) by (split; sizes);
      safe_call true (conj (srtp_cipher_encrypt_logged c b n d w)
                           (srtp_cipher_encrypt_within c b n d w Hb))
                (srtp_cipher_encrypt P c b n d w)
  | |- wp _ (call (srtp_cipher_decrypt P ?c ?b ?n ?d)) _ _ ?w =>
      let Hb := fresh "Hb" in
      assert (Hb : 0 <= n <= d) by (split; sizes);
      safe_call true (conj (srtp_cipher_decrypt_logged c b n d w)
                           (srtp_cipher_decrypt_within c b n d w Hb))
                (srtp_cipher_decrypt P c b n d w)
  | |- wp _ (call (srtp_cipher_set_aad P ?c ?k ?d)) _ _ ?w =>
      safe_call false (conj (srtp_cipher_set_aad_logged c k d w) I)
                (srtp_cipher_set_aad P c k d w)
  | |- wp _ (call (srtp_cipher_get_tag P ?c ?t)) _ _ ?w =>
      safe_call true (conj (srtp_cipher_get_tag_logged c t w)
                           (srtp_cipher_get_tag_within c t w))
                (srtp_cipher_get_tag P c t w)
  | |- wp _ (call (srtp_cipher_dealloc P ?c)) _ _ ?w =>
      safe_call false (conj (srtp_cipher_dealloc_logged c w) I)
                (srtp_cipher_dealloc P c w)
  | |- wp _ (call (srtp_cipher_rand_for_tests P ?n)) _ _ ?w =>
      safe_call true (conj (srtp_cipher_rand_for_tests_frame n w)
                           (proj1 (srtp_cipher_rand_for_tests_frame n w)))
                (srtp_cipher_rand_for_tests P n w)
  | |- wp _ (call (srtp_cipher_rand_u32_for_tests P)) _ _ ?w =>
      safe_call false (conj (srtp_cipher_rand_u32_for_tests_frame w) I)
                (srtp_cipher_rand_u32_for_tests P w)
  | |- wp _ (dealloc_return _ _ _) _ _ _ => unfold dealloc_return
  | |- wp _ (check _ _ _) _ _ _ => unfold check
  | |- wp _ (store_buffer _ _) _ _ _ => unfold store_buffer
  | |- wp _ (set_aad_if_gcm _ _ _) _ _ _ => unfold set_aad_if_gcm
  | |- wp _ (get_tag_if_gcm _ _ _) _ _ _ => unfold get_tag_if_gcm
  | |- wp _ (if is_gcm P ?ci then _ else _) _ _ _ =>
      match goal with G : is_gcm P ci = _ |- _ => rewrite G end
  | |- wp _ (free_return_0 _) _ _ _ => unfold free_return_0
  | |- wp _ (match ?o with Some _ => _ | None => _ end) _ _ _ =>
      destruct o eqn:?
  | |- wp _ (if ?b then _ else _) _ _ _ => destruct b eqn:?
  end.

Ltac by_cases c g G :=
  destruct c as [ci|]; cbn [gcm_instance] in G;
  [ destruct (is_gcm P ci) eqn:?;
    [ rewrite (G eq_refl) in *; clear G | clear G; destruct g ]
  | clear G; destruct g ].

Lemma test_encrypt_safe g c tc w :
  (gcm_instance P c = true -> g = true) ->
  well_formed g (SRTP_MAX_TAG_LEN P) tc -> declared_sizes w ->
  wp False (test_encrypt P c tc)
     (fun _ w' => declared_sizes w') (fun _ _ => True) w.
Proof.
  intros G WF HI. unfold test_encrypt.
  by_cases c g G; repeat safe1; first [exact I | assumption].
Qed.

Lemma test_decrypt_safe g c tc w :
  (gcm_instance P c = true -> g = true) ->
  well_formed g (SRTP_MAX_TAG_LEN P) tc -> declared_sizes w ->
  wp False (test_decrypt P c tc)
     (fun _ w' => declared_sizes w') (fun _ _ => True) w.
Proof.
  intros G WF HI. unfold test_decrypt.
  by_cases c g G; repeat safe1; first [exact I | assumption].
Qed.

Lemma random_trial_safe c tc w :
  declared_sizes w ->
  wp False (random_trial P c tc)
     (fun _ w' => declared_sizes w') (fun _ _ => True) w.
Proof.
  intros HI. unfold random_trial.
  do 2 safe1.
  match goal with
  | |- context [?z mod (SELF_TEST_BUF_OCTETS - 64)] =>
      pose proof (Z.mod_pos_bound z (SELF_TEST_BUF_OCTETS - 64) eq_refl);
      set (plaintext_len := z mod (SELF_TEST_BUF_OCTETS - 64)) in *
  end.
  destruct c as [ci|]; [destruct (is_gcm P ci) eqn:?|];
    repeat safe1; first [exact I | assumption].
Qed.

Lemma random_trials_safe n c tc w :
  declared_sizes w ->
  wp False (random_trials P n c tc)
     (fun _ w' => declared_sizes w') (fun _ _ => True) w.
Proof.
  revert w. induction n as [|n IH]; intros w HI.
  - apply wp_ret. exact HI.
  - cbn [random_trials]. apply wp_bind.
    eapply wp_mono; [ | | apply (random_trial_safe c tc w HI)]; cbv beta.
    + intros _ w1 HI1. apply IH. exact HI1.
    + auto.
Qed.

Lemma bench_trial_safe c i v w size n0 :
  Z.of_nat (length (enc_buf v)) = size -> 0 <= len v <= n0 ->
  n0 + SRTP_MAX_TAG_LEN P <= size ->
  wp False (bench_trial P c i v)
     (fun v' _ =>
        Z.of_nat (length (enc_buf v')) = size /\ 0 <= len v' <= n0)
     (fun _ _ => True) w.
Proof.
  clear tag_small. intros Hsize Hlen Hroom. unfold bench_trial.
  repeat safe1;
    first [exact I | cbn [enc_buf len]; split; sizes].
Qed.

Lemma bench_trials_safe n c i v w size n0 :
  Z.of_nat (length (enc_buf v)) = size -> 0 <= len v <= n0 ->
  n0 + SRTP_MAX_TAG_LEN P <= size ->
  wp False (bench_trials P n c i v) (fun _ _ => True) (fun _ _ => True) w.
Proof.
  clear tag_small. intros Hsize Hlen Hroom. revert i v w Hsize Hlen.
  induction n as [|n IH]; intros i v w Hsize Hlen.
  - apply wp_ret. exact I.
  - cbn [bench_trials]. apply wp_bind.
    eapply wp_mono;
      [ | | apply (bench_trial_safe c i v w size n0 Hsize Hlen Hroom)];
      cbv beta.
    + intros v1 w1 [H1 H2]. apply IH; assumption.
    + auto.
Qed.

Lemma srtp_cipher_bits_per_second_body_safe c n t w :
  0 <= n -> n + SRTP_MAX_TAG_LEN P < 2 ^ 64 ->
  (forall size m buf,
     0 <= size -> fst (srtp_crypto_alloc P size m) = Some buf ->
     Z.of_nat (length buf) = size) ->
  wp False (srtp_cipher_bits_per_second_body P c n t)
     (fun _ _ => True) (fun _ _ => True) w.
Proof.
  clear tag_small. intros Hn Hmax Halloc.
  unfold srtp_cipher_bits_per_second_body.
  apply wp_bind, wp_call.
  pose proof (Halloc (u64 (n + SRTP_MAX_TAG_LEN P)) (mem w)) as Hb.
  destruct (srtp_crypto_alloc P _ (mem w)) as [[buf|] m];
    cbn [fst snd] in *; [|apply wp_return; exact I].
  unfold u64 in Hb. rewrite Z.mod_small in Hb by lia.
  specialize (Hb buf ltac:(lia) eq_refl).
  apply wp_bind, wp_call. apply wp_bind.
  eapply wp_mono;
    [ | | apply (bench_trials_safe (Z.to_nat t) c 0
                   {| enc_buf := buf; len := n;
                      btag_len := SRTP_MAX_TAG_LEN P |} _
                   (n + SRTP_MAX_TAG_LEN P) n Hb)];
    cbv beta; [ | auto | cbn [len]; lia | lia].
  intros _ w1 _.
  apply wp_bind, wp_call. apply wp_bind, wp_modify.
  match goal with
  | |- wp _ (if ?b then _ else _) _ _ _ => destruct b
  end; apply wp_return; exact I.
Qed.

Section Allocator.

Variable ct : option Z.
Variable g : bool.

Hypothesis gcm_known :
  forall k tl w,
    gcm_instance P (snd (fst (srtp_cipher_type_alloc P ct k tl w))) = true ->
    g = true.

Lemma known_answer_case_safe tc w :
  well_formed g (SRTP_MAX_TAG_LEN P) tc -> declared_sizes w ->
  wp False (known_answer_case P ct tc)
     (fun _ w' => declared_sizes w') (fun _ _ => True) w.
Proof.
  intros WF HI. unfold known_answer_case. safe1.
  safe_call true
    (conj (srtp_cipher_type_alloc_logged ct (key_length_octets tc)
             (tag_length_octets tc) w)
          (gcm_known (key_length_octets tc) (tag_length_octets tc) w))
    (srtp_cipher_type_alloc P ct (key_length_octets tc)
       (tag_length_octets tc) w).
  safe1; [safe1; exact I|].
  apply wp_bind.
  eapply wp_mono; [ | | apply (test_encrypt_safe g); eassumption]; cbv beta;
    [|auto].
  intros _ w1 HI1. apply wp_bind.
  eapply wp_mono; [ | | apply (test_decrypt_safe g); eassumption]; cbv beta;
    [|auto].
  intros _ w2 HI2.
  repeat safe1; first [exact I | assumption].
Qed.

Lemma known_answer_tests_safe l w :
  Forall (well_formed g (SRTP_MAX_TAG_LEN P)) l -> declared_sizes w ->
  wp False (known_answer_tests P ct l)
     (fun _ w' => declared_sizes w') (fun _ _ => True) w.
Proof.
  intros WF. revert w. induction WF as [|tc l Htc _ IH]; intros w HI.
  - apply wp_ret. exact HI.
  - cbn [known_answer_tests]. apply wp_bind.
    eapply wp_mono; [ | | apply (known_answer_case_safe tc w Htc HI)];
      cbv beta.
    + intros _ w1 HI1. apply IH. exact HI1.
    + auto.
Qed.

Lemma random_tests_safe tc w :
  declared_sizes w ->
  wp False (random_tests P ct tc) (fun _ _ => True) (fun _ _ => True) w.
Proof.
  intros HI. unfold random_tests. safe1.
  safe_call false
    (conj (srtp_cipher_type_alloc_logged ct (key_length_octets tc)
             (tag_length_octets tc) w) I)
    (srtp_cipher_type_alloc P ct (key_length_octets tc)
       (tag_length_octets tc) w).
  safe1; [safe1; exact I|].
  apply wp_bind.
  eapply wp_mono; [ | | apply random_trials_safe; eassumption]; cbv beta;
    [|auto].
  intros _ w1 HI1.
  repeat safe1; exact I.
Qed.

Lemma srtp_cipher_type_test_body_safe l w :
  Forall (well_formed g (SRTP_MAX_TAG_LEN P)) l -> declared_sizes w ->
  wp False (srtp_cipher_type_test_body P ct l)
     (fun _ _ => True) (fun _ _ => True) w.
Proof.
  intros WF HI. unfold srtp_cipher_type_test_body.
  destruct l as [|tc l']; [apply wp_return; exact I|].
  apply wp_bind.
  eapply wp_mono; [ | | apply (known_answer_tests_safe _ w WF HI)];
    cbv beta; [|auto].
  intros _ w1 HI1. apply random_tests_safe. exact HI1.
Qed.

End Allocator.

End Safety.

(** X17. The self-test stays within its arrays and returns, provided
    that the cipher type respects the capacity of its destinations, with
    tags of at most [SRTP_MAX_TAG_LEN] octets and [SRTP_MAX_TAG_LEN] at
    most 64, and that the test vectors hold the octets they declare and
    their plaintext fits the scratch buffer, together with a tag when the
    instances are AES-GCM ([g]): no path reads or writes outside [buffer],
    [buffer2], [key], [iv] or a field of a test vector, or dereferences a
    null instance.  In a random trial the plaintext of less than 64 octets
    leaves room for the tag whatever the test vector. *)
Theorem self_test_stays_within_arrays :
  forall ct g test_data (w : world W),
    0 <= SRTP_MAX_TAG_LEN P <= 64 ->
    (forall a, within_capacity (SRTP_MAX_TAG_LEN P) (type_at P a)) ->
    (forall k tl w0,
       gcm_instance P (snd (fst (srtp_cipher_type_alloc P ct k tl w0)))
       = true -> g = true) ->
    Forall (well_formed g (SRTP_MAX_TAG_LEN P)) test_data ->
    declared_sizes w ->
    exists s w', srtp_cipher_type_test P ct test_data w = Returned s w'.
Proof.
  intros ct g l w tag_bound tame gcm_known WF HI.
  exact (wp_false_fn _ _ _ _
           (srtp_cipher_type_test_body_safe (proj1 tag_bound)
              (proj2 tag_bound) tame ct g gcm_known l w WF HI)).
Qed.

(** X21. The benchmark stays within its scratch buffer and returns,
    provided that [octets_in_buffer + SRTP_MAX_TAG_LEN] does not wrap
    around, that [srtp_crypto_alloc] delivers a buffer of the size it is
    asked for, and that the cipher type respects the capacity of its
    destinations, with tags of at most [SRTP_MAX_TAG_LEN] octets: the
    ciphertext of every trial fits the first [octets_in_buffer] octets and
    the tag the [SRTP_MAX_TAG_LEN] octets the buffer has in addition, and a
    null instance, cipher type or state is not dereferenced. *)
Theorem bits_per_second_stays_within_buffer :
  forall c octets_in_buffer num_trials (w : world W),
    0 <= SRTP_MAX_TAG_LEN P ->
    0 <= octets_in_buffer ->
    octets_in_buffer + SRTP_MAX_TAG_LEN P < 2 ^ 64 ->
    (forall a, within_capacity (SRTP_MAX_TAG_LEN P) (type_at P a)) ->
    (forall size m buf,
       0 <= size -> fst (srtp_crypto_alloc P size m) = Some buf ->
       Z.of_nat (length buf) = size) ->
    exists r w',
      srtp_cipher_bits_per_second P c octets_in_buffer num_trials w
        = Returned r w'.
Proof.
  intros c n t w tag_nonneg Hn Hmax tame Halloc.
  exact (wp_false_fn _ _ _ _
           (srtp_cipher_bits_per_second_body_safe tag_nonneg tame c n t w
              Hn Hmax Halloc)).
Qed.

(** ** The calls of a test that passes *)

(** X18. A known-answer case that passes makes exactly these calls, in
    this order, and all of them succeed: the allocation with the key and
    tag lengths of the vector; initialization with the key of the vector,
    [srtp_cipher_set_iv] with its IV for encryption, for AES-GCM
    [srtp_cipher_set_aad] with its AAD, [srtp_cipher_encrypt] of
    [plaintext_length_octets] octets, for AES-GCM [srtp_cipher_get_tag];
    then again initialization, [srtp_cipher_set_iv] for decryption, for
    AES-GCM [srtp_cipher_set_aad], and [srtp_cipher_decrypt] of
    [ciphertext_length_octets] octets; and the deallocation of the
    instance the allocation delivered.  The calls in between are told by
    their kind and arguments: the trace does not record the instance they
    are made on. *)
Theorem known_answer_case_protocol :
  forall ct tc (w w' : world W),
    let c := snd (fst (srtp_cipher_type_alloc P ct (key_length_octets tc)
                         (tag_length_octets tc) w)) in
    known_answer_case P ct tc w = Ok tt w' ->
    log w' = log w ++ case_trace (gcm_instance P c) c tc.
Proof.
  intros ct tc w w' c H. subst c.
  unfold known_answer_case in H. unfold bind at 1, call at 1 in H.
  pose proof (srtp_cipher_type_alloc_logged ct (key_length_octets tc)
                (tag_length_octets tc) w) as [HL _].
  destruct (srtp_cipher_type_alloc P ct (key_length_octets tc)
              (tag_length_octets tc) w) as [[st c] w1].
  cbn [fst snd] in *.
  destruct (failed st) eqn:Hst; [discriminate|].
  apply failed_false in Hst. subst st.
  refine (wp_ok _ (fun _ w' =>
                     log w' = log w ++ case_trace (gcm_instance P c) c tc)
            (fun _ _ => True) _ _ _ _ H).
  apply wp_bind.
  eapply wp_mono; [ | | apply (test_encrypt_trace c tc _ _ HL)]; cbv beta;
    [|auto].
  intros _ w2 HL2. apply wp_bind.
  eapply wp_mono; [ | | apply (test_decrypt_trace c tc _ _ HL2)]; cbv beta;
    [|auto].
  intros _ w3 HL3.
  repeat symex1; try exact I.
  all_ok. unfold case_trace. the_log.
Qed.

(** X19. A random trial that passes makes exactly the calls of a round
    trip: initialization, [srtp_cipher_set_iv] for encryption, for AES-GCM
    [srtp_cipher_set_aad], [srtp_cipher_encrypt] of the random plaintext
    length, for AES-GCM [srtp_cipher_get_tag], and again initialization,
    [srtp_cipher_set_iv] for decryption, for AES-GCM [srtp_cipher_set_aad],
    and [srtp_cipher_decrypt].  Both initializations receive the same key
    array, and its first [key_length_octets] octets are random: they are
    the low eight bits of the values of the calls of [rand()] that follow
    the four calls for the length and the calls for the plaintext. *)
Theorem random_trial_protocol :
  forall c tc (w w' : world W),
    let plaintext_len :=
      fst (srtp_cipher_rand_u32_for_tests P w)
      mod (SELF_TEST_BUF_OCTETS - 64) in
    random_trial P c tc w = Ok tt w' ->
    exists k n',
      log w' = log w ++ encrypt_trace (gcm_instance P c) tc k plaintext_len
                     ++ decrypt_trace (gcm_instance P c) tc k n' /\
      firstn (Z.to_nat (key_length_octets tc)) k
      = map (fun i => Z.land (rand_src P (rand_calls w + 4
                                          + Z.to_nat plaintext_len + i)) 255)
            (seq 0 (Z.to_nat (key_length_octets tc))).
Proof.
  intros c tc w w' plaintext_len H. subst plaintext_len.
  refine (wp_ok _ (fun _ w' => exists k n', log w' = _ /\ _ = _)
            (fun _ _ => True) _ _ _ _ H).
  clear H. unfold random_trial.
  apply wp_bind, wp_call.
  pose proof (srtp_cipher_rand_u32_for_tests_frame w) as F1. cbv zeta in F1.
  destruct (srtp_cipher_rand_u32_for_tests P w) as [r w1].
  cbn [fst snd] in *. destruct F1 as (R1 & L1 & _).
  apply wp_bind, wp_call.
  pose proof (srtp_cipher_rand_for_tests_frame
                (r mod (SELF_TEST_BUF_OCTETS - 64)) w1) as F2.
  pose proof (rand_octets_frame
                (Z.to_nat (r mod (SELF_TEST_BUF_OCTETS - 64))) w1) as F2'.
  cbv zeta in F2, F2'. destruct F2' as (_ & R2 & _).
  fold (srtp_cipher_rand_for_tests P (r mod (SELF_TEST_BUF_OCTETS - 64)) w1)
    in R2.
  destruct (srtp_cipher_rand_for_tests P
              (r mod (SELF_TEST_BUF_OCTETS - 64)) w1) as [p w2].
  cbn [fst snd] in *. destruct F2 as (_ & _ & _ & L2 & _).
  unfold store_buffer at 1.
  apply wp_bind, wp_bind, wp_gets. apply wp_bind, wp_defined.
  intros b' Hs. apply wp_modify.
  apply wp_bind, wp_gets. apply wp_bind, wp_defined. intros pc Hl.
  apply wp_bind, wp_gets. apply wp_bind, wp_defined. intros b2' Hs2.
  apply wp_bind, wp_modify.
  destruct (key_length_octets tc >? MAX_KEY_LEN);
    [unfold dealloc_return; apply wp_bind, wp_call, wp_return; exact I|].
  apply wp_bind, wp_call.
  match goal with
  | |- context [srtp_cipher_rand_for_tests P (key_length_octets tc) ?w3] =>
      pose proof (rand_octets_values
                    (Z.to_nat (key_length_octets tc)) w3) as V;
      pose proof (srtp_cipher_rand_for_tests_frame
                    (key_length_octets tc) w3) as F3;
      fold (srtp_cipher_rand_for_tests P (key_length_octets tc) w3) in V;
      cbv zeta in F3; cbn [rand_calls log set_buffer2 set_buffer] in V, F3;
      destruct (srtp_cipher_rand_for_tests P (key_length_octets tc) w3)
        as [k w4]
  end.
  cbn [fst snd] in *. destruct F3 as (Lk & _ & _ & L3 & _).
  apply wp_bind, wp_gets. apply wp_bind, wp_defined. intros k' Hsk.
  apply wp_bind, wp_modify.
  apply wp_bind, wp_call.
  match goal with
  | |- context [srtp_cipher_rand_for_tests P MAX_KEY_LEN ?w5] =>
      pose proof (srtp_cipher_rand_for_tests_frame MAX_KEY_LEN w5) as F4;
      cbv zeta in F4; cbn [log set_trial_key] in F4;
      destruct (srtp_cipher_rand_for_tests P MAX_KEY_LEN w5) as [v w6]
  end.
  cbn [fst snd] in *. destruct F4 as (_ & _ & _ & L4 & _).
  apply wp_bind, wp_gets. apply wp_bind, wp_defined. intros v' Hsv.
  apply wp_bind, wp_modify.
  assert (Hk : firstn (Z.to_nat (key_length_octets tc)) k'
               = map (fun i =>
                        Z.land (rand_src P
                                  (rand_calls w + 4
                                   + Z.to_nat
                                       (r mod (SELF_TEST_BUF_OCTETS - 64))
                                   + i)) 255)
                     (seq 0 (Z.to_nat (key_length_octets tc)))).
  { apply store_prefix in Hsk. rewrite Lk in Hsk. rewrite Hsk, V.
    rewrite R2, R1. reflexivity. }
  match goal with
  | |- wp _ _ _ _ ?x => remember x as w7 eqn:Hw7
  end.
  assert (HL : log w7 = log w ++ [])
    by (rewrite Hw7, app_nil_r; cbn [log set_trial_iv]; congruence).
  clear - HL Hk.
  destruct c as [ci|]; [destruct (is_gcm P ci) eqn:G|];
    repeat symex1; try exact I; cbn [gcm_instance]; rewrite ?G;
    all_ok; do 2 eexists; (split; [the_log|exact Hk]).
Qed.

(** ** The scratch buffer of the benchmark *)

Lemma wp_free_return_0 {A} F (Q : A -> world W -> Prop)
    (E : Z -> world W -> Prop) w :
  E 0 (with_mem (srtp_crypto_free P (mem w)) w) ->
  wp F (free_return_0 P) Q E w.
Proof. intros H. exact H. Qed.

Ltac free_step :=
  lazymatch goal with
  | |- wp _ (free_return_0 _) _ _ _ =>
      apply wp_free_return_0; eexists; reflexivity
  | _ => symex1
  end.

Lemma bench_trial_frees c i v w :
  wp True (bench_trial P c i v) (fun _ _ => True)
     (fun _ w' => exists m, mem w' = srtp_crypto_free P m) w.
Proof.
  remember (log w) as l0 eqn:HL. symmetry in HL.
  rewrite <- (app_nil_r l0) in HL.
  unfold bench_trial. repeat free_step; exact I.
Qed.

Lemma bench_trials_frees n c i v w :
  wp True (bench_trials P n c i v) (fun _ _ => True)
     (fun _ w' => exists m, mem w' = srtp_crypto_free P m) w.
Proof.
  revert i v w. induction n as [|n IH]; intros i v w.
  - apply wp_ret. exact I.
  - cbn [bench_trials]. apply wp_bind.
    eapply wp_mono; [ | | apply (bench_trial_frees c i v w)]; cbv beta.
    + intros v1 w1 _. apply IH.
    + auto.
Qed.

(** X20. The scratch buffer of the benchmark.  When it cannot be
    allocated the benchmark returns 0 at once: it calls no cipher
    operation, does not read the clock and frees nothing.  Once it is
    allocated, the benchmark frees it before it returns, on every path:
    when a call fails in a trial, when the clock did not advance and when a
    rate is returned, the call of [srtp_crypto_free] is the last thing done
    to the memory. *)
Theorem bits_per_second_buffer :
  forall c octets_in_buffer num_trials (w : world W),
    let a := srtp_crypto_alloc P
               (u64 (octets_in_buffer + SRTP_MAX_TAG_LEN P)) (mem w) in
    (fst a = None ->
     srtp_cipher_bits_per_second P c octets_in_buffer num_trials w
       = Returned 0 (with_mem (snd a) w)) /\
    (forall r w',
       fst a <> None ->
       srtp_cipher_bits_per_second P c octets_in_buffer num_trials w
         = Returned r w' ->
       exists m', mem w' = srtp_crypto_free P m').
Proof.
  intros c n t w a. subst a. split.
  - intros Ha.
    unfold srtp_cipher_bits_per_second, fn, srtp_cipher_bits_per_second_body.
    unfold bind, call.
    destruct (srtp_crypto_alloc P _ (mem w)) as [e m].
    cbn [fst snd] in *. subst e. reflexivity.
  - intros r w' Ha.
    apply (fn_returned _
             (fun _ w' => exists m', mem w' = srtp_crypto_free P m')).
    unfold srtp_cipher_bits_per_second_body.
    apply wp_bind, wp_call.
    destruct (srtp_crypto_alloc P _ (mem w)) as [[buf|] m];
      cbn [fst snd] in *; [|congruence].
    apply wp_bind, wp_call. apply wp_bind.
    eapply wp_mono; [ | | apply bench_trials_frees]; cbv beta; [|auto].
    intros _ w1 _.
    apply wp_bind, wp_call. apply wp_bind, wp_modify.
    match goal with
    | |- wp _ (if ?b then _ else _) _ _ _ => destruct b
    end; apply wp_return; eexists; reflexivity.
Qed.

(** ** The verdicts of the engines *)

(** A path that returns [r]: when every call before the last succeeded,
    [r] is the verdict [V]. *)
Ltac verdict_leaf V guard :=
  eexists; split; [the_log|];
  let F := fresh "F" in
  intros F; cbn [removelast] in F;
  first
    [ unfold V; rewrite guard; reflexivity
    | exfalso;
      repeat match goal with
             | F' : Forall _ (_ :: _) |- _ =>
                 let E := fresh "E" in
                 apply Forall_cons_iff in F'; destruct F' as [E F'];
                 unfold succeeding in E; cbn [event_status] in E
             end;
      subst; discriminate ].

Lemma test_encrypt_verdict c tc w l0 :
  log w = l0 ->
  wp True (test_encrypt P c tc) (fun _ _ => True)
     (fun r w' =>
        exists d, log w' = l0 ++ d /\
          (Forall succeeding (removelast d) -> known_answer_verdict tc r))
     w.
Proof.
  intros HL. rewrite <- (app_nil_r l0) in HL.
  unfold test_encrypt.
  destruct (ciphertext_length_octets tc >? SELF_TEST_BUF_OCTETS) eqn:Guard;
    (destruct c as [ci|]; [destruct (is_gcm P ci) eqn:G|]);
    repeat symex1; try exact I; verdict_leaf known_answer_verdict Guard.
Qed.

Lemma test_decrypt_verdict c tc w l0 :
  log w = l0 ->
  wp True (test_decrypt P c tc) (fun _ _ => True)
     (fun r w' =>
        exists d, log w' = l0 ++ d /\
          (Forall succeeding (removelast d) -> known_answer_verdict tc r))
     w.
Proof.
  intros HL. rewrite <- (app_nil_r l0) in HL.
  unfold test_decrypt.
  destruct (ciphertext_length_octets tc >? SELF_TEST_BUF_OCTETS) eqn:Guard;
    (destruct c as [ci|]; [destruct (is_gcm P ci) eqn:G|]);
    repeat symex1; try exact I; verdict_leaf known_answer_verdict Guard.
Qed.

Lemma random_trial_verdict c tc w l0 :
  log w = l0 ->
  wp True (random_trial P c tc) (fun _ _ => True)
     (fun r w' =>
        exists d, log w' = l0 ++ d /\
          (Forall succeeding (removelast d) -> random_verdict tc r))
     w.
Proof.
  intros HL. rewrite <- (app_nil_r l0) in HL.
  unfold random_trial.
  destruct (key_length_octets tc >? MAX_KEY_LEN) eqn:Guard;
    (destruct c as [ci|]; [destruct (is_gcm P ci) eqn:G|]);
    repeat symex1; try exact I; verdict_leaf random_verdict Guard.
Qed.

(** X22. What the codes of the engines mean.  When the encryption test
    or the decryption test of a known-answer case returns although every
    call before the final deallocation succeeded, the status is
    [srtp_err_status_bad_param] if the ciphertext length of the vector
    exceeds [SELF_TEST_BUF_OCTETS], and [srtp_err_status_algo_fail]
    otherwise: a mismatch of the output length or of an octet.  When a
    random trial returns in this way, the status is
    [srtp_err_status_cant_check] if the key length of the vector exceeds
    [MAX_KEY_LEN], and [srtp_err_status_algo_fail] otherwise. *)
Theorem engine_verdicts :
  forall c tc (w w' : world W) r,
    (test_encrypt P c tc w = Return r w' \/
     test_decrypt P c tc w = Return r w' ->
     exists d, log w' = log w ++ d /\
       (Forall succeeding (removelast d) -> known_answer_verdict tc r)) /\
    (random_trial P c tc w = Return r w' ->
     exists d, log w' = log w ++ d /\
       (Forall succeeding (removelast d) -> random_verdict tc r)).
Proof.
  intros c tc w w' r. split.
  - intros [H|H].
    + exact (wp_returns _ _ _ _ _ _
               (test_encrypt_verdict c tc w _ eq_refl) H).
    + exact (wp_returns _ _ _ _ _ _
               (test_decrypt_verdict c tc w _ eq_refl) H).
  - intros H.
    exact (wp_returns _ _ _ _ _ _ (random_trial_verdict c tc w _ eq_refl) H).
Qed.

(** ** No operation without a live instance *)

Lemma usage_app (b : slot) (d1 d2 : list event) :
  usage b (d1 ++ d2) =
  match usage b d1 with
  | Some b' => usage b' d2
  | None => None
  end.
Proof.
  revert b. induction d1 as [|e d1 IH]; intros b; [reflexivity|].
  cbn [app usage].
  destruct e; destruct b; try reflexivity; try apply IH.
  destruct (same_instance c c0); [apply IH|reflexivity].
Qed.

Lemma lifecycle_idle_engine g tc enc d :
  Forall (engine_event g tc enc) d ->
  lifecycle Idle d = Some Idle \/ lifecycle Idle d = None.
Proof.
  induction 1 as [|e d He _ IH]; [left; reflexivity|].
  destruct e; cbn [lifecycle]; try exact IH.
  - destruct He.
  - right. reflexivity.
Qed.

Lemma usage_running c g tc enc d :
  running_trace c g tc enc d -> usage (Live c) d = Some (Live c).
Proof.
  intros [L F]. induction F as [|e d He F IH]; [reflexivity|].
  destruct e; cbn [lifecycle usage] in *; try (apply IH; exact L).
  - discriminate.
  - destruct (same_instance c0 c); [|discriminate].
    destruct (lifecycle_idle_engine _ _ _ _ F) as [E|E];
      rewrite E in L; discriminate.
Qed.

Lemma lifecycle_idle_dealloc g tc enc d c st :
  Forall (engine_event g tc enc) d ->
  lifecycle Idle (d ++ [EvDealloc c st]) = None.
Proof.
  induction 1 as [|e d He _ IH]; [reflexivity|].
  destruct e; cbn [app lifecycle]; try exact IH.
  - destruct He.
  - reflexivity.
Qed.

Lemma usage_returning c g tc enc r d :
  returning_trace c g tc enc d -> error_path c r d ->
  usage (Live c) d = Some Idle.
Proof.
  intros [L F] (d0 & st & -> & _).
  apply Forall_app in F. destruct F as [F _].
  induction F as [|e d0 He F IH].
  - cbn [app usage]. rewrite same_instance_refl. reflexivity.
  - destruct e; cbn [app lifecycle usage] in *; try (apply IH; exact L).
    + discriminate.
    + destruct (same_instance c0 c); [|discriminate].
      rewrite (lifecycle_idle_dealloc _ _ _ _ c st F) in L. discriminate.
Qed.

Lemma usage_alloc_ok k t c d :
  usage Idle (EvAlloc k t c srtp_err_status_ok :: d) = usage (Live c) d.
Proof. reflexivity. Qed.

Lemma known_answer_case_usage ct tc w l0 :
  log w = l0 ->
  wp True (known_answer_case P ct tc)
     (fun _ w' => exists d, log w' = l0 ++ d /\ usage Idle d = Some Idle)
     (fun _ w' => exists d, log w' = l0 ++ d /\ usage Idle d = Some Idle)
     w.
Proof.
  intros HL. rewrite <- (app_nil_r l0) in HL.
  unfold known_answer_case. do 2 symex1.
  symex1; [symex1; eexists; split; [the_log|]; cbn [usage];
           rewrite Heqb; reflexivity|].
  all_ok.
  pose proof (usage_running o _ _ _ _
                (encrypt_trace_running o (gcm_instance P o) tc
                   (fun n => n = plaintext_length_octets tc) (key tc)
                   (plaintext_length_octets tc) eq_refl)) as U1.
  pose proof (usage_running o _ _ _ _
                (decrypt_trace_running o (gcm_instance P o) tc
                   (fun n => n = plaintext_length_octets tc) (key tc)
                   (ciphertext_length_octets tc))) as U2.
  apply wp_bind.
  eapply wp_mono;
    [ | | apply (wp_conj _ _ _ _ _ _ (test_encrypt_trace o tc _ _ HL0)
                   (test_encrypt_errors o tc _ _ HL0))]; cbv beta.
  - intros _ w1 [HL1 _]. apply wp_bind.
    eapply wp_mono;
      [ | | apply (wp_conj _ _ _ _ _ _ (test_decrypt_trace o tc _ _ HL1)
                     (test_decrypt_errors o tc _ _ HL1))]; cbv beta.
    + intros _ w2 [HL2 _].
      repeat symex1; (eexists; split; [the_log|]);
        rewrite usage_alloc_ok, usage_app, U1; cbv beta iota;
        rewrite usage_app, U2; cbv beta iota; cbn [usage];
        rewrite same_instance_refl; reflexivity.
    + intros r w2 [(d & HL2 & R) (d' & HL2' & Ep)].
      rewrite HL2 in HL2'. apply app_inv_head in HL2'. subst d'.
      eexists. rewrite <- !app_assoc in HL2. split; [exact HL2|].
      cbn [app]. rewrite usage_alloc_ok, usage_app, U1.
      exact (usage_returning _ _ _ _ _ _ R Ep).
  - intros r w1 [(d & HL1 & R) (d' & HL1' & Ep)].
    rewrite HL1 in HL1'. apply app_inv_head in HL1'. subst d'.
    eexists. rewrite <- !app_assoc in HL1. split; [exact HL1|].
    cbn [app]. rewrite usage_alloc_ok.
    exact (usage_returning _ _ _ _ _ _ R Ep).
Qed.

Lemma known_answer_tests_usage ct l w l0 :
  log w = l0 ->
  wp True (known_answer_tests P ct l)
     (fun _ w' => exists d, log w' = l0 ++ d /\ usage Idle d = Some Idle)
     (fun _ w' => exists d, log w' = l0 ++ d /\ usage Idle d = Some Idle)
     w.
Proof.
  revert w l0. induction l as [|tc l IH]; intros w l0 HL; simpl.
  - apply wp_ret. exists []. rewrite app_nil_r. auto.
  - apply wp_bind.
    eapply wp_mono; [ | | apply (known_answer_case_usage ct tc _ _ HL)];
      cbv beta.
    + intros _ w1 (d1 & HL1 & L1).
      eapply wp_mono; [ | | apply (IH w1 _ HL1)]; cbv beta;
        intros _ w2 (d2 & HL2 & L2); exists (d1 ++ d2);
        rewrite <- app_assoc in HL2; (split; [exact HL2|]);
        rewrite usage_app, L1; exact L2.
    + intros _ w1 H. exact H.
Qed.

Lemma random_tests_usage ct tc w l0 :
  log w = l0 ->
  wp True (random_tests P ct tc)
     (fun _ w' => exists d, log w' = l0 ++ d /\ usage Idle d = Some Idle)
     (fun _ w' => exists d, log w' = l0 ++ d /\ usage Idle d = Some Idle)
     w.
Proof.
  intros HL. rewrite <- (app_nil_r l0) in HL.
  unfold random_tests. do 2 symex1.
  symex1; [symex1; eexists; split; [the_log|]; cbn [usage];
           rewrite Heqb; reflexivity|].
  all_ok. apply wp_bind.
  eapply wp_mono;
    [ | | apply (wp_conj _ _ _ _ _ _
                   (random_trials_trace NUM_RAND_TESTS o tc _ _ HL0)
                   (random_trials_errors NUM_RAND_TESTS o tc _ _ HL0))];
    cbv beta.
  - intros _ w1 [(d & HL1 & R) _]. rewrite <- app_assoc in HL1.
    pose proof (usage_running _ _ _ _ _ R) as U.
    repeat symex1; (eexists; split; [the_log|]);
      rewrite usage_alloc_ok, usage_app, U; cbv beta iota;
      cbn [usage]; rewrite same_instance_refl; reflexivity.
  - intros r w1 [(d & HL1 & R) (d' & HL1' & Ep)].
    rewrite HL1 in HL1'. apply app_inv_head in HL1'. subst d'.
    eexists. rewrite <- !app_assoc in HL1. split; [exact HL1|].
    cbn [app]. rewrite usage_alloc_ok.
    exact (usage_returning _ _ _ _ _ _ R Ep).
Qed.

Lemma srtp_cipher_type_test_body_usage ct l w :
  wp True (srtp_cipher_type_test_body P ct l)
     (fun _ w' => exists d, log w' = log w ++ d /\ usage Idle d = Some Idle)
     (fun _ w' => exists d, log w' = log w ++ d /\ usage Idle d = Some Idle)
     w.
Proof.
  unfold srtp_cipher_type_test_body. destruct l as [|tc l'].
  - apply wp_return. exists []. rewrite app_nil_r. auto.
  - apply wp_bind.
    eapply wp_mono;
      [ | | apply (known_answer_tests_usage ct (tc :: l') w _ eq_refl)];
      cbv beta.
    + intros _ w1 (d1 & HL1 & L1).
      eapply wp_mono; [ | | apply (random_tests_usage ct tc _ _ HL1)];
        cbv beta;
        intros _ w2 (d2 & HL2 & L2); exists (d1 ++ d2);
        rewrite <- app_assoc in HL2; (split; [exact HL2|]);
        rewrite usage_app, L1; exact L2.
    + intros _ w1 H. exact H.
Qed.

(** X23. The self-test never calls an operation of a cipher without a
    live instance.  In the calls it makes until it returns, every call of
    [srtp_cipher_init], [srtp_cipher_set_iv], [srtp_cipher_set_aad],
    [srtp_cipher_encrypt], [srtp_cipher_decrypt] and [srtp_cipher_get_tag]
    comes after a successful allocation and before the deallocation of the
    instance it delivered: no operation follows a deallocation before the
    next allocation, none precedes the first allocation or follows an
    allocation that failed, and at the return no instance is alive. *)
Theorem self_test_uses_live_instances_only :
  forall ct test_data (w w' : world W) s,
    srtp_cipher_type_test P ct test_data w = Returned s w' ->
    exists d, log w' = log w ++ d /\ usage Idle d = Some Idle.
Proof.
  intros ct l w w' s H.
  exact (fn_returned _ _ _ _ _ (srtp_cipher_type_test_body_usage ct l w) H).
Qed.


(** ** The IV of the random trials, in the self-test *)

Lemma round_trip_set_iv g tc k n n' :
  set_iv_calls (encrypt_trace g tc k n ++ decrypt_trace g tc k n')
  = [(idx tc, srtp_direction_encrypt); (idx tc, srtp_direction_decrypt)].
Proof. destruct g; reflexivity. Qed.

Lemma trial_ivs_in tc n iv dir :
  In (iv, dir) (trial_ivs tc n) -> iv = idx tc.
Proof.
  unfold trial_ivs. induction n as [|n IH]; simpl; [contradiction|].
  intros [Heq|[Heq|Hin]]; [inversion Heq; reflexivity ..|exact (IH Hin)].
Qed.

Lemma random_trials_set_iv n c tc w l0 :
  log w = l0 ->
  wp True (random_trials P n c tc)
     (fun _ w' =>
        exists d, log w' = l0 ++ d /\ set_iv_calls d = trial_ivs tc n)
     (fun r w' =>
        exists d, log w' = l0 ++ d /\ failed r = true /\
          forall iv dir, In (iv, dir) (set_iv_calls d) -> iv = idx tc)
     w.
Proof.
  revert w l0. induction n as [|n IH]; intros w l0 HL.
  - apply wp_ret. exists []. rewrite app_nil_r. split; [exact HL|].
    reflexivity.
  - cbn [random_trials]. apply wp_bind.
    eapply wp_mono;
      [ | | apply (wp_conj _ _ _ _ _ _ (random_trial_trace c tc _ _ HL)
                     (random_trial_errors c tc _ _ HL))]; cbv beta.
    + intros _ w1 [(k & n1 & n2 & HL1 & _) _].
      pose proof (round_trip_set_iv (gcm_instance P c) tc k n1 n2) as R.
      eapply wp_mono; [ | | apply (IH w1 _ HL1)]; cbv beta.
      * intros _ w2 (d2 & HL2 & C2). eexists.
        rewrite <- app_assoc in HL2. split; [exact HL2|].
        rewrite set_iv_calls_app, R, C2. reflexivity.
      * intros r w2 (d2 & HL2 & Hr & A2). eexists.
        rewrite <- app_assoc in HL2. split; [exact HL2|].
        split; [exact Hr|].
        intros iv dir Hin.
        rewrite set_iv_calls_app, R in Hin.
        apply in_app_or in Hin as [Hin|Hin]; [|exact (A2 _ _ Hin)].
        destruct Hin as [Heq|[Heq|[]]]; inversion Heq; reflexivity.
    + intros r w1 [(d & HL1 & [_ F]) (d' & _ & Ep)].
      exists d. split; [exact HL1|].
      split; [|exact (engine_events_set_iv _ _ _ _ F)].
      exact (proj1 (error_path_blamed _ _ _ Ep)).
Qed.

Lemma random_tests_set_iv ct tc w l0 :
  log w = l0 ->
  wp True (random_tests P ct tc)
     (fun _ _ => False)
     (fun r w' =>
        exists d, log w' = l0 ++ d /\
          (forall iv dir, In (iv, dir) (set_iv_calls d) -> iv = idx tc) /\
          (r = srtp_err_status_ok ->
           set_iv_calls d = trial_ivs tc NUM_RAND_TESTS))
     w.
Proof.
  intros HL. rewrite <- (app_nil_r l0) in HL.
  unfold random_tests. do 2 symex1.
  symex1.
  { symex1. eexists. split; [the_log|]. split.
    - intros iv dir [].
    - intros ->. discriminate. }
  all_ok. apply wp_bind.
  eapply wp_mono;
    [ | | apply (random_trials_set_iv NUM_RAND_TESTS o tc _ _ HL0)];
    cbv beta.
  - intros _ w1 (d & HL1 & C). rewrite <- app_assoc in HL1.
    assert (S : forall st,
               set_iv_calls
                 ([EvAlloc (key_length_octets tc) (tag_length_octets tc) o
                     srtp_err_status_ok] ++ d ++ [EvDealloc o st])
               = trial_ivs tc NUM_RAND_TESTS).
    { intros st. rewrite !set_iv_calls_app, C. cbn [set_iv_calls flat_map].
      rewrite app_nil_r. reflexivity. }
    repeat symex1; (eexists; split; [the_log|]);
      (split; [|intros _; apply S]);
      intros iv dir Hin;
      match type of Hin with
      | In _ (set_iv_calls ?l) =>
          change l with ([EvAlloc (key_length_octets tc)
                            (tag_length_octets tc) o srtp_err_status_ok]
                         ++ d ++ [EvDealloc o s]) in Hin
      end; rewrite S in Hin; exact (trial_ivs_in _ _ _ _ Hin).
  - intros r w1 (d & HL1 & Hr & A).
    eexists. rewrite <- !app_assoc in HL1. split; [exact HL1|].
    split.
    + intros iv dir Hin. rewrite set_iv_calls_app in Hin.
      apply in_app_or in Hin as [[]|Hin]. exact (A _ _ Hin).
    + intros ->. discriminate.
Qed.

(** C1 (amended). In the random round-trip tests of
    [srtp_cipher_type_test], every call of [srtp_cipher_set_iv], the one
    for encryption as well as the one for decryption, receives the IV
    field [idx] of the first test vector of the list under test, whatever
    the pseudorandom source yields.  A self-test that returns either
    returns from the known-answer tests, or runs the random tests on the
    head of the list; then no call of [srtp_cipher_set_iv] of the random
    tests receives another IV, on any path, and when the self-test passes
    these calls are exactly one for encryption followed by one for
    decryption in each of the [NUM_RAND_TESTS] trials.  The same holds of
    one trial, and of any number of trials, taken alone. *)
Theorem random_trial_set_iv_from_test_vector :
  forall ct first rest (w w' : world W) s,
    (srtp_cipher_type_test P ct (first :: rest) w = Returned s w' ->
     known_answer_tests P ct (first :: rest) w = Return s w' \/
     exists w1 d,
       known_answer_tests P ct (first :: rest) w = Ok tt w1 /\
       random_tests P ct first w1 = Return s w' /\
       log w' = log w1 ++ d /\
       (forall iv dir, In (iv, dir) (set_iv_calls d) -> iv = idx first) /\
       (s = srtp_err_status_ok ->
        set_iv_calls d = trial_ivs first NUM_RAND_TESTS)) /\
    (forall c tc w0 w1, random_trial P c tc w0 = Ok tt w1 ->
       exists d, log w1 = log w0 ++ d /\
                 set_iv_calls d = [(idx tc, srtp_direction_encrypt);
                                   (idx tc, srtp_direction_decrypt)]) /\
    (forall c tc n w0 w1, finishes (random_trials P n c tc) w0 w1 ->
       exists d, log w1 = log w0 ++ d /\
                 forall iv dir, In (iv, dir) (set_iv_calls d) ->
                                iv = idx tc).
Proof.
  intros ct first rest w w' s. split; [|split].
  - intros H.
    unfold srtp_cipher_type_test, fn, srtp_cipher_type_test_body, bind in H.
    destruct (known_answer_tests P ct (first :: rest) w)
      as [[] w1|r w1|] eqn:K; [|left; inversion H; reflexivity|discriminate].
    right.
    pose proof (random_tests_set_iv ct first w1 _ eq_refl) as T.
    unfold wp in T.
    destruct (random_tests P ct first w1) as [a w2|r w2|] eqn:R;
      [destruct T| |discriminate].
    inversion H; subst r w2. destruct T as (d & HL & A & S).
    exists w1, d. auto.
  - intros c tc w0 w1 Hrun.
    pose proof (wp_ok _ _ _ _ _ _
                  (random_trial_trace c tc w0 _ eq_refl) Hrun)
      as (k & n & n' & HL & _).
    eexists. split; [exact HL|]. apply round_trip_set_iv.
  - intros c tc n w0 w1 Hrun.
    destruct (random_trials_events n c tc w0 w1 Hrun) as (d & HL & F).
    exists d. split; [exact HL|].
    exact (engine_events_set_iv _ _ _ _ F).
Qed.

End Properties.

(** * Examples on the concrete ciphers *)

(** C1 as stated does not hold.  A random trial of the stream cipher,
    run on the vector whose [idx] is [4; 5; 6], completes; its call of
    [srtp_cipher_set_iv] for encryption receives [4; 5; 6], which is
    neither the pseudorandom IV the trial drew into [iv] nor a leading
    part of it. *)
Lemma random_trial_encrypt_iv_is_not_the_drawn_iv :
  let w' := Toy.final (random_trial Toy.platform (Toy.instance 1)
                         Toy.passing Toy.world0) in
  random_trial Toy.platform (Toy.instance 1) Toy.passing Toy.world0
    = Ok tt w' /\
  set_iv_calls (log w') = [([4; 5; 6], srtp_direction_encrypt);
                           ([4; 5; 6], srtp_direction_decrypt)] /\
  firstn 3 (trial_iv w') = [128; 165; 202] /\
  ~ (forall iv, In (iv, srtp_direction_encrypt) (set_iv_calls (log w')) ->
                iv = trial_iv w' \/ iv = firstn (length iv) (trial_iv w')).
Proof.
  cbv zeta. split; [vm_compute; reflexivity|].
  split; [vm_compute; reflexivity|].
  assert (Hfirst : firstn 3 (trial_iv (Toy.final
                     (random_trial Toy.platform (Toy.instance 1)
                        Toy.passing Toy.world0))) = [128; 165; 202])
    by (vm_compute; reflexivity).
  split; [exact Hfirst|].
  intros H. specialize (H [4; 5; 6]).
  assert (Hin : In ([4; 5; 6], srtp_direction_encrypt)
                  (set_iv_calls
                     (log (Toy.final
                             (random_trial Toy.platform (Toy.instance 1)
                                Toy.passing Toy.world0)))))
    by (vm_compute; left; reflexivity).
  destruct (H Hin) as [Heq|Heq].
  - apply (f_equal (firstn 3)) in Heq. rewrite Hfirst in Heq.
    discriminate Heq.
  - change (length [4; 5; 6]) with 3%nat in Heq. rewrite Hfirst in Heq.
    discriminate Heq.
Qed.

Lemma random_trial_set_iv_from_test_vector_witness :
  (exists w1 w' d,
     srtp_cipher_type_test quiet_platform (Some 1) [Toy.passing] Toy.world0
       = Returned srtp_err_status_ok w' /\
     known_answer_tests quiet_platform (Some 1) [Toy.passing] Toy.world0
       = Ok tt w1 /\
     log w' = log w1 ++ d /\
     set_iv_calls d = trial_ivs Toy.passing NUM_RAND_TESTS) /\
  exists d,
    log (Toy.final (random_trial Toy.platform (Toy.instance 1)
                      Toy.passing Toy.world0))
      = log Toy.world0 ++ d /\
    set_iv_calls d = [(idx Toy.passing, srtp_direction_encrypt);
                      (idx Toy.passing, srtp_direction_decrypt)].
Proof.
  split.
  - assert (H : { w' | srtp_cipher_type_test quiet_platform (Some 1)
                         [Toy.passing] Toy.world0
                       = Returned srtp_err_status_ok w' })
      by (eexists; vm_compute; reflexivity).
    destruct H as [w' H].
    destruct (proj1 (random_trial_set_iv_from_test_vector Z quiet_platform
                       (Some 1) Toy.passing [] Toy.world0 w'
                       srtp_err_status_ok) H)
      as [K|(w1 & d & K & _ & HL & _ & S)].
    + vm_compute in K. discriminate K.
    + exists w1, w', d. repeat (split; [assumption|]). exact (S eq_refl).
  - apply (proj1 (proj2 (random_trial_set_iv_from_test_vector Z
                           Toy.platform None Toy.passing [] Toy.world0
                           Toy.world0 srtp_err_status_ok))
             (Toy.instance 1) Toy.passing Toy.world0).
    vm_compute. reflexivity.
Defined.

Lemma oversized_vector_bad_param_witness :
  SELF_TEST_BUF_OCTETS < ciphertext_length_octets Toy.oversized /\
  exists w',
    srtp_cipher_type_test Toy.platform (Some 1)
      ([Toy.passing] ++ Toy.oversized :: []) Toy.world0
    = Returned srtp_err_status_bad_param w' /\
    buffer w' = buffer (Toy.final (known_answer_tests Toy.platform (Some 1)
                                     [Toy.passing] Toy.world0)).
Proof.
  split; [vm_compute; reflexivity|].
  eexists.
  refine ((fun H => conj (proj1 (proj2 (proj2 (proj2 H))))
                         (proj1 (proj2 (proj2 (proj2 (proj2 (proj2 H)))))))
            (oversized_vector_bad_param Z Toy.platform (Some 1)
               Toy.oversized [Toy.passing] [] Toy.world0
               (Toy.final (known_answer_tests Toy.platform (Some 1)
                             [Toy.passing] Toy.world0))
               _ _ _ _));
    vm_compute; reflexivity.
Defined.

Lemma self_test_without_vectors_witness :
  test_data (type_at Toy.platform 1) = [] /\
  srtp_cipher_type_self_test Toy.platform (Some 1) Toy.world0
    = Returned srtp_err_status_cant_check Toy.world0.
Proof.
  split; [reflexivity|].
  exact (proj1 (self_test_without_vectors_cant_check Z Toy.platform 1
                  Toy.world0 eq_refl)).
Defined.

Lemma optional_operation_absent_witness :
  checked Toy.platform (Toy.instance 1) = Some (Toy.types 1, 1) /\
  fst (srtp_cipher_set_aad Toy.platform (Toy.instance 1) [9] 1 Toy.world0)
    = srtp_err_status_no_such_op /\
  fst (fst (fst (srtp_cipher_get_tag Toy.platform (Toy.instance 1) 0
                   Toy.world0)))
    = srtp_err_status_no_such_op.
Proof.
  split; [reflexivity|].
  destruct (optional_operation_absent_no_such_op Z Toy.platform
              (Toy.instance 1) (Toy.types 1) 1 [9] 1 0 Toy.world0 eq_refl)
    as (H1 & H2 & _).
  split; [apply H1; reflexivity|apply H2; reflexivity].
Defined.

Lemma self_test_deallocates_exactly_once_witness :
  let o := srtp_cipher_type_test Toy.platform (Some 1)
             [Toy.passing; Toy.mismatch] Toy.world0 in
  o = Returned srtp_err_status_algo_fail (Toy.returned o) /\
  exists d, log (Toy.returned o) = log Toy.world0 ++ d /\
            lifecycle Idle d = Some Idle.
Proof.
  cbv zeta.
  assert (H : srtp_cipher_type_test Toy.platform (Some 1)
                [Toy.passing; Toy.mismatch] Toy.world0
              = Returned srtp_err_status_algo_fail
                  (Toy.returned (srtp_cipher_type_test Toy.platform (Some 1)
                                   [Toy.passing; Toy.mismatch] Toy.world0)))
    by (vm_compute; reflexivity).
  split; [exact H|].
  exact (self_test_deallocates_exactly_once Z Toy.platform (Some 1)
           [Toy.passing; Toy.mismatch] Toy.world0 _ _ H).
Defined.

(** C7 as stated does not hold.  With no trial at all, and also with
    three trials on an empty payload, the scratch buffer is allocated, no
    call fails and the clock advances by five ticks, yet the benchmark
    returns 0, not a strictly positive value. *)
Lemma bits_per_second_zero_without_failure :
  let o0 := srtp_cipher_bits_per_second Toy.platform (Toy.instance 1) 10 0
              Toy.world0 in
  let o3 := srtp_cipher_bits_per_second Toy.platform (Toy.instance 1) 0 3
              Toy.world0 in
  present (fst (srtp_crypto_alloc Toy.platform
                  (u64 (10 + SRTP_MAX_TAG_LEN Toy.platform))
                  (mem Toy.world0))) = true /\
  present (fst (srtp_crypto_alloc Toy.platform
                  (u64 (0 + SRTP_MAX_TAG_LEN Toy.platform))
                  (mem Toy.world0))) = true /\
  clock_src Toy.platform 1 - clock_src Toy.platform 0 = 5 /\
  o0 = Returned 0 (Toy.returned o0) /\
  log (Toy.returned o0) = [] /\
  o3 = Returned 0 (Toy.returned o3) /\
  Forall succeeding (log (Toy.returned o3)) /\
  length (log (Toy.returned o3)) = 6%nat.
Proof.
  cbv zeta.
  repeat (split; [vm_compute; reflexivity|]).
  split; [|vm_compute; reflexivity].
  assert (H : log (Toy.returned
                     (srtp_cipher_bits_per_second Toy.platform
                        (Toy.instance 1) 0 3 Toy.world0))
              = [EvSetIv (nonce Toy.platform 0) srtp_direction_encrypt
                   srtp_err_status_ok;
                 EvEncrypt 0 srtp_err_status_ok;
                 EvSetIv (nonce Toy.platform 1) srtp_direction_encrypt
                   srtp_err_status_ok;
                 EvEncrypt 0 srtp_err_status_ok;
                 EvSetIv (nonce Toy.platform 2) srtp_direction_encrypt
                   srtp_err_status_ok;
                 EvEncrypt 0 srtp_err_status_ok])
    by (vm_compute; reflexivity).
  rewrite H. repeat constructor.
Qed.

Lemma bits_per_second_result_witness :
  let o := srtp_cipher_bits_per_second Toy.platform (Toy.instance 2) 10 3
             Toy.world0 in
  o = Returned 48000000 (Toy.returned o) /\
  bench_result Toy.platform 10 3 Toy.world0 48000000 (Toy.returned o).
Proof.
  cbv zeta.
  assert (H : srtp_cipher_bits_per_second Toy.platform (Toy.instance 2) 10 3
                Toy.world0
              = Returned 48000000
                  (Toy.returned
                     (srtp_cipher_bits_per_second Toy.platform
                        (Toy.instance 2) 10 3 Toy.world0)))
    by (vm_compute; reflexivity).
  split; [exact H|].
  exact (bits_per_second_result Z Toy.platform (Toy.instance 2) 10 3
           Toy.world0 _ _ H).
Defined.

Lemma random_plaintext_length_below_64_witness :
  let w' := Toy.final (random_trials Toy.platform 2 (Toy.instance 1)
                         Toy.passing Toy.world0) in
  finishes (random_trials Toy.platform 2 (Toy.instance 1) Toy.passing)
           Toy.world0 w' /\
  exists d, log w' = log Toy.world0 ++ d /\
            forall len st, In (EvEncrypt len st) d -> 0 <= len < 64.
Proof.
  cbv zeta.
  assert (H : finishes (random_trials Toy.platform 2 (Toy.instance 1)
                          Toy.passing) Toy.world0
                (Toy.final (random_trials Toy.platform 2 (Toy.instance 1)
                              Toy.passing Toy.world0)))
    by (left; exists tt; vm_compute; reflexivity).
  split; [exact H|].
  exact (proj2 (random_plaintext_length_below_64 Z Toy.platform
                  (Toy.instance 1) Toy.passing Toy.world0) 2%nat _ H).
Defined.

Lemma oversized_key_trial_cant_check_witness :
  declared_sizes Toy.world0 /\
  MAX_KEY_LEN < key_length_octets Toy.long_key /\
  exists w',
    random_trial Toy.platform (Toy.instance 1) Toy.long_key Toy.world0
      = Return srtp_err_status_cant_check w' /\
    (exists st, log w' = log Toy.world0 ++ [EvDealloc (Toy.instance 1) st])
    /\
    trial_key w' = trial_key Toy.world0 /\
    trial_iv w' = trial_iv Toy.world0 /\
    rand_calls w' =
      (rand_calls Toy.world0 + 4 +
       Z.to_nat (fst (srtp_cipher_rand_u32_for_tests Toy.platform Toy.world0)
                 mod (SELF_TEST_BUF_OCTETS - 64)))%nat.
Proof.
  assert (Hs : declared_sizes Toy.world0)
    by (unfold declared_sizes; repeat split; vm_compute; reflexivity).
  assert (Hk : MAX_KEY_LEN < key_length_octets Toy.long_key)
    by (vm_compute; reflexivity).
  split; [exact Hs|]. split; [exact Hk|].
  exact (proj1 (oversized_key_trial_cant_check Z Toy.platform (Some 1)
                  (Toy.instance 1) Toy.long_key Toy.world0 Hs Hk)).
Defined.

Lemma aead_steps_follow_algorithm_identity_witness :
  let w' := Toy.final (random_trial Toy.platform (Toy.instance 3)
                         Toy.passing Toy.world0) in
  let v := {| enc_buf := repeat 0 26; len := 10; btag_len := 16 |} in
  let b := bench_trial Toy.platform (Toy.instance 3) 0 v Toy.world0 in
  present (set_aad (Toy.types 3)) = true /\
  gcm_instance Toy.platform (Toy.instance 3) = false /\
  finishes (random_trial Toy.platform (Toy.instance 3) Toy.passing)
           Toy.world0 w' /\
  (exists d, log w' = log Toy.world0 ++ d /\ aead_calls d = []) /\
  (exists d, log (Toy.final b) = log Toy.world0 ++ d /\
             aead_calls d = [EvSetAad [0; 0; 0; 0] 4 srtp_err_status_ok;
                             EvGetTag srtp_err_status_ok]) /\
  let e := test_encrypt Toy.platform (Toy.instance 2) Toy.tagged
                        Toy.world0 in
  gcm_instance Toy.platform (Toy.instance 2) = true /\
  e = Ok tt (Toy.final e) /\
  exists out n we,
    tag_appended Toy.platform (Toy.instance 2) out n we
                 (ciphertext_length_octets Toy.tagged) (Toy.final e).
Proof.
  cbv zeta.
  assert (He : test_encrypt Toy.platform (Toy.instance 2) Toy.tagged
                 Toy.world0
               = Ok tt (Toy.final (test_encrypt Toy.platform (Toy.instance 2)
                                     Toy.tagged Toy.world0)))
    by (vm_compute; reflexivity).
  assert (H : finishes (random_trial Toy.platform (Toy.instance 3)
                          Toy.passing) Toy.world0
                (Toy.final (random_trial Toy.platform (Toy.instance 3)
                              Toy.passing Toy.world0)))
    by (right; exists srtp_err_status_algo_fail; vm_compute; reflexivity).
  split; [reflexivity|]. split; [reflexivity|]. split; [exact H|].
  split.
  - destruct (proj1 (proj2 (aead_steps_follow_algorithm_identity Z
                              Toy.platform (Toy.instance 3) Toy.passing
                              Toy.world0 _))
                (or_intror (or_intror H)))
      as (d & HL & Hd).
    exists d. split; [exact HL|]. apply Hd. reflexivity.
  - split; [eexists; split; vm_compute; reflexivity|].
    split; [reflexivity|]. split; [exact He|].
    destruct (proj1 (proj2 (proj2 (proj2 (proj2 (proj2 (proj2 (proj2
                (aead_steps_follow_algorithm_identity Z Toy.platform
                   (Toy.instance 2) Toy.tagged Toy.world0 _))))))))
                He)
      as (wa & out & n & we & _ & _ & T).
    exists out, n, we. exact T.
Defined.

(** * Further examples on the concrete ciphers *)

Lemma dispatch_rejects_incomplete_instance_witness :
  fst (srtp_cipher_init Toy.platform None [1; 2] Toy.world0)
    = srtp_err_status_bad_param /\
  srtp_cipher_decrypt Toy.platform None [7; 8] 2 128 Toy.world0
    = (srtp_err_status_bad_param, [], 128,
       emit (EvDecrypt 2 srtp_err_status_bad_param) Toy.world0).
Proof.
  destruct (dispatch_rejects_incomplete_instance Z Toy.platform None
              [1; 2] [] srtp_direction_decrypt [7; 8] 2 128 [] 0
              Toy.world0 (or_introl eq_refl))
    as (H1 & _ & _ & H4 & _).
  split; [rewrite H1; reflexivity|exact H4].
Defined.

Lemma alloc_dealloc_guards_witness :
  srtp_cipher_type_alloc bare_platform (Some 1) 16 0 Toy.world0
    = (srtp_err_status_bad_param, None,
       emit (EvAlloc 16 0 None srtp_err_status_bad_param) Toy.world0) /\
  srtp_cipher_dealloc Toy.platform None Toy.world0
    = (srtp_err_status_bad_param,
       emit (EvDealloc None srtp_err_status_bad_param) Toy.world0).
Proof.
  split.
  - apply (proj1 (alloc_dealloc_guards Z bare_platform (Some 1) None 16 0
                    [] Toy.world0)).
    right. exists 1. split; reflexivity.
  - apply (proj1 (proj2 (alloc_dealloc_guards Z Toy.platform None None 0 0
                           [] Toy.world0))).
    left. reflexivity.
Defined.

Lemma srtp_cipher_output_is_encrypt_of_zeros_witness :
  checked Toy.platform (Toy.instance 1) = Some (Toy.types 1, 1) /\
  exists w1,
    srtp_cipher_output Toy.platform (Toy.instance 1) 3 Toy.world0
      = Some (srtp_err_status_ok, [0; 0; 0], 3, w1).
Proof.
  split; [reflexivity|].
  destruct (srtp_cipher_output_is_encrypt_of_zeros Z Toy.platform
              (Toy.instance 1) (Toy.types 1) 1 3 Toy.world0 eq_refl)
    as (w1 & E & _).
  exists w1. exact E.
Defined.

Lemma compare_octets_equal_prefix_witness :
  compare_octets false 2 [1; 2; 3] [1; 2; 4] = Some srtp_err_status_ok /\
  compare_octets true 3 [1; 2; 3] [1; 2; 4]
    = Some srtp_err_status_algo_fail.
Proof.
  split.
  - apply (proj1 (compare_octets_equal_prefix false 2 [1; 2; 3] [1; 2; 4]
                    ltac:(simpl; lia) ltac:(simpl; lia))).
    reflexivity.
  - apply (proj2 (compare_octets_equal_prefix true 3 [1; 2; 3] [1; 2; 4]
                    ltac:(simpl; lia) ltac:(simpl; lia))).
    discriminate.
Defined.

Lemma known_answer_pass_means_match_witness :
  let w' := Toy.final (test_encrypt Toy.platform (Toy.instance 1)
                         Toy.passing Toy.world0) in
  test_encrypt Toy.platform (Toy.instance 1) Toy.passing Toy.world0
    = Ok tt w' /\
  firstn 3 (buffer w') = [19; 16; 17].
Proof.
  cbv zeta.
  assert (H : test_encrypt Toy.platform (Toy.instance 1) Toy.passing
                Toy.world0
              = Ok tt (Toy.final (test_encrypt Toy.platform (Toy.instance 1)
                                    Toy.passing Toy.world0)))
    by (vm_compute; reflexivity).
  split; [exact H|].
  exact (proj2 (proj1 (known_answer_pass_means_match Z Toy.platform
                         (Toy.instance 1) Toy.passing Toy.world0 _) H)).
Defined.

Lemma engine_failure_is_reported_witness :
  let w' := Toy.final (test_encrypt Toy.platform (Toy.instance 1)
                         Toy.mismatch Toy.world0) in
  exists d, log w' = log Toy.world0 ++ d /\
            error_path (Toy.instance 1) srtp_err_status_algo_fail d.
Proof.
  cbv zeta.
  apply (engine_failure_is_reported Z Toy.platform (Toy.instance 1)
           Toy.mismatch Toy.world0).
  left. vm_compute. reflexivity.
Defined.

Lemma self_test_failure_is_explained_witness :
  let o := srtp_cipher_type_test Toy.platform (Some 1) [Toy.mismatch]
             Toy.world0 in
  exists d, log (Toy.returned o) = log Toy.world0 ++ d /\
            blamed srtp_err_status_algo_fail d.
Proof.
  cbv zeta.
  apply (self_test_failure_is_explained Z Toy.platform (Some 1)
           [Toy.mismatch] Toy.world0).
  - vm_compute. reflexivity.
  - reflexivity.
Defined.


Lemma self_test_first_allocation_fails_witness :
  srtp_cipher_type_test bare_platform (Some 1) [Toy.passing] Toy.world0
    = Returned srtp_err_status_bad_param
        (emit (EvAlloc 2 2 None srtp_err_status_bad_param) Toy.world0).
Proof.
  exact (proj1 (self_test_first_allocation_fails Z bare_platform 1
                  Toy.passing [] Toy.world0 eq_refl)).
Defined.

Lemma bits_per_second_calls_witness :
  let o := srtp_cipher_bits_per_second Toy.platform (Toy.instance 2) 10 3
             Toy.world0 in
  exists d, log (Toy.returned o) = log Toy.world0 ++ d /\
            Forall bench_event d /\
            set_iv_calls d
            = [(nonce Toy.platform 0, srtp_direction_encrypt);
               (nonce Toy.platform 1, srtp_direction_encrypt);
               (nonce Toy.platform 2, srtp_direction_encrypt)].
Proof.
  cbv zeta.
  destruct (bits_per_second_calls Z Toy.platform (Toy.instance 2) 10 3
              Toy.world0
              (Toy.returned (srtp_cipher_bits_per_second Toy.platform
                               (Toy.instance 2) 10 3 Toy.world0))
              48000000 ltac:(vm_compute; reflexivity))
    as (d & HL & B & S).
  exists d. split; [exact HL|]. split; [exact B|].
  apply S; [reflexivity|].
  change (log Toy.world0 ++ d) with d in HL. rewrite <- HL.
  vm_compute. repeat constructor.
Defined.

Lemma bits_per_second_incomplete_instance_witness :
  exists w',
    srtp_cipher_bits_per_second Toy.platform None 10 3 Toy.world0
      = Returned 0 w' /\
    log w' = [EvSetIv (nonce Toy.platform 0) srtp_direction_encrypt
                      srtp_err_status_bad_param].
Proof.
  destruct (bits_per_second_incomplete_instance Z Toy.platform None 10 3
              (repeat 0 26) 0 Toy.world0 (or_introl eq_refl)
              ltac:(lia) eq_refl)
    as (w' & H & HL & _).
  exists w'. split; [exact H|exact HL].
Defined.

Lemma bits_per_second_buffer_witness :
  srtp_cipher_bits_per_second bare_platform (Toy.instance 1) 10 3 Toy.world0
    = Returned 0 Toy.world0 /\
  exists m',
    mem (Toy.returned (srtp_cipher_bits_per_second Toy.platform
                         (Toy.instance 2) 10 3 Toy.world0))
    = srtp_crypto_free Toy.platform m'.
Proof.
  split.
  - exact (proj1 (bits_per_second_buffer Z bare_platform (Toy.instance 1)
                    10 3 Toy.world0) eq_refl).
  - apply (proj2 (bits_per_second_buffer Z Toy.platform (Toy.instance 2)
                    10 3 Toy.world0) 48000000).
    + discriminate.
    + vm_compute. reflexivity.
Defined.

Lemma random_trial_pass_means_round_trip_witness :
  let w' := Toy.final (random_trial Toy.platform (Toy.instance 1)
                         Toy.passing Toy.world0) in
  let r := srtp_cipher_rand_u32_for_tests Toy.platform Toy.world0 in
  let plaintext_len := fst r mod (SELF_TEST_BUF_OCTETS - 64) in
  let p := fst (srtp_cipher_rand_for_tests Toy.platform plaintext_len
                  (snd r)) in
  plaintext_len = 11 /\
  firstn (Z.to_nat plaintext_len) (buffer w') = p.
Proof.
  cbv zeta. split; [vm_compute; reflexivity|].
  assert (H : random_trial Toy.platform (Toy.instance 1) Toy.passing
                Toy.world0
              = Ok tt (Toy.final (random_trial Toy.platform (Toy.instance 1)
                                    Toy.passing Toy.world0)))
    by (vm_compute; reflexivity).
  exact (proj1 (proj2 (random_trial_pass_means_round_trip Z Toy.platform
                         (Toy.instance 1) Toy.passing Toy.world0 _ H))).
Defined.

Lemma oversized_plaintext_overruns_buffer_witness :
  SELF_TEST_BUF_OCTETS < plaintext_length_octets long_plaintext /\
  srtp_cipher_type_test Toy.platform (Some 1) [long_plaintext] Toy.world0
    = Undefined.
Proof.
  split; [reflexivity|].
  apply (oversized_plaintext_overruns_buffer Z Toy.platform (Some 1)
           long_plaintext [] Toy.world0);
    vm_compute; first [reflexivity | discriminate].
Defined.

Lemma toy_within_capacity a :
  within_capacity (SRTP_MAX_TAG_LEN Toy.platform) (Toy.types a).
Proof.
  assert (L : forall src k x, Z.of_nat (length (Toy.xor_with x src k))
                              <= Z.max 0 k).
  { intros src k x. unfold Toy.xor_with.
    rewrite length_map, length_firstn. lia. }
  split.
  - intros s src n cap m H.
    unfold Toy.types.
    destruct (a =? 2); [|destruct (a =? 3); [|destruct (a =? 4)]];
      cbn [Toy.cipher encrypt decrypt fst snd];
      repeat split; try lia;
      match goal with
      | |- Z.of_nat (length (Toy.xor_with ?x src ?k)) <= _ =>
          pose proof (L src k x); lia
      end.
  - intros f s tl m. unfold Toy.types.
    destruct (a =? 2); [|destruct (a =? 3); [|destruct (a =? 4)]];
      cbn [Toy.cipher get_tag]; intros Hf; inversion Hf; subst;
      cbn; repeat split; try lia; discriminate.
Qed.

Lemma self_test_stays_within_arrays_witness :
  exists s w',
    srtp_cipher_type_test Toy.platform (Some 2) [Toy.tagged; Toy.mismatch]
      Toy.world0
    = Returned s w'.
Proof.
  apply (self_test_stays_within_arrays Z Toy.platform (Some 2) true
           [Toy.tagged; Toy.mismatch] Toy.world0).
  - cbn. lia.
  - exact toy_within_capacity.
  - reflexivity.
  - repeat constructor; vm_compute; discriminate.
  - repeat split.
Defined.

Lemma known_answer_case_protocol_witness :
  let w' := Toy.final (known_answer_case Toy.platform (Some 2) Toy.tagged
                         Toy.world0) in
  log w' = log Toy.world0
           ++ case_trace true (Toy.instance 2) Toy.tagged.
Proof.
  cbv zeta.
  apply (known_answer_case_protocol Z Toy.platform (Some 2) Toy.tagged
           Toy.world0).
  vm_compute. reflexivity.
Defined.

Lemma random_trial_protocol_witness :
  let w' := Toy.final (random_trial Toy.platform (Toy.instance 1)
                         Toy.passing Toy.world0) in
  exists k n',
    log w' = log Toy.world0
             ++ encrypt_trace false Toy.passing k 11
             ++ decrypt_trace false Toy.passing k n' /\
    firstn 2 k = [54; 91].
Proof.
  cbv zeta.
  destruct (random_trial_protocol Z Toy.platform (Toy.instance 1)
              Toy.passing Toy.world0
              (Toy.final (random_trial Toy.platform (Toy.instance 1)
                            Toy.passing Toy.world0))
              ltac:(vm_compute; reflexivity))
    as (k & n' & HL & Hk).
  exists k, n'. split; [exact HL|exact Hk].
Defined.

Lemma bits_per_second_stays_within_buffer_witness :
  exists r w',
    srtp_cipher_bits_per_second Toy.platform (Toy.instance 2) 10 3 Toy.world0
      = Returned r w'.
Proof.
  apply (bits_per_second_stays_within_buffer Z Toy.platform (Toy.instance 2)
           10 3 Toy.world0).
  - cbn. lia.
  - lia.
  - cbn. lia.
  - exact toy_within_capacity.
  - intros size m buf Hs H. cbn in H. inversion H; subst.
    rewrite repeat_length. lia.
Defined.

Lemma engine_verdicts_witness :
  let w' := Toy.final (test_encrypt Toy.platform (Toy.instance 1)
                         Toy.mismatch Toy.world0) in
  exists d, log w' = log Toy.world0 ++ d /\
    (Forall succeeding (removelast d) ->
     known_answer_verdict Toy.mismatch srtp_err_status_algo_fail).
Proof.
  cbv zeta.
  apply (proj1 (engine_verdicts Z Toy.platform (Toy.instance 1)
                  Toy.mismatch Toy.world0 _ srtp_err_status_algo_fail)).
  left. vm_compute. reflexivity.
Defined.

Lemma self_test_uses_live_instances_only_witness :
  let o := srtp_cipher_type_test Toy.platform (Some 1)
             [Toy.passing; Toy.mismatch] Toy.world0 in
  exists d, log (Toy.returned o) = log Toy.world0 ++ d /\
            usage Idle d = Some Idle.
Proof.
  cbv zeta.
  apply (self_test_uses_live_instances_only Z Toy.platform (Some 1)
           [Toy.passing; Toy.mismatch] Toy.world0 _
           srtp_err_status_algo_fail).
  vm_compute. reflexivity.
Defined.
